(** * taskflow-ai / specifyplus-mcp-server: loader, registry, watcher, handler

    A shallow embedding of the command subsystem of the MCP server
    (src/specifyplus-mcp-server/src) and the properties stated about it.

    Python values are modelled as follows.
    - [str] is a sequence of Unicode code points ([list N]); literals are
      written with [lit].
    - an exception is a value of [exn]; a call that may raise returns a
      [result].
    - [dict[str, CommandDefinition]] is a [gmap] keyed by strings.
    - what the loader reads from disk (the directory listing, the outcome
      of [frontmatter.load] and of [stat] for each file) is an argument.
    - the clock of the watcher is an argument too: every event comes with
      the time at which it is handled, a timer is known by the time at
      which it fires.
    - threads that share the registry take their steps one at a time, in
      any order.

    The first part holds the definitions, module by module as in the
    source; the second part the lemmas and the theorems. *)

From Stdlib Require Import ZArith NArith List String Ascii Lia Bool DecimalString.
From Stdlib Require Import Sorting.Sorted.
From stdpp Require Import base option list gmap fin_maps sorting.
From Equations Require Import Equations.

Local Open Scope N_scope.

(** ** Python strings *)

Module PyStr.

(** A Python [str]: code points in order. *)
Abbreviation str := (list N).

Definition lit (s : string) : list N :=
  List.map N_of_ascii (list_ascii_of_string s).

Fixpoint str_eqb (a b : list N) : bool :=
  match a, b with
  | [], [] => true
  | x :: a', y :: b' => N.eqb x y && str_eqb a' b'
  | _, _ => false
  end.

(** [s.startswith(p)] *)
Fixpoint startswith (p s : list N) : bool :=
  match p, s with
  | [], _ => true
  | x :: p', y :: s' => N.eqb x y && startswith p' s'
  | _ :: _, [] => false
  end.

(** [s.endswith(p)] *)
Definition endswith (p s : list N) : bool :=
  startswith (rev p) (rev s).

(** [c in s] for a single character [c]. *)
Definition has_char (c : N) (s : list N) : bool :=
  existsb (N.eqb c) s.

(** [p in s]: substring search. *)
Fixpoint contains (p s : list N) : bool :=
  startswith p s ||
  match s with
  | [] => false
  | _ :: s' => contains p s'
  end.

(** [s.replace(old, new)]: the leftmost occurrences of [old], none
    overlapping another, are replaced from left to right; the text put in
    is not scanned again.  With an empty [old], Python puts [new] before
    every character and at the end. *)
Equations str_replace (old new s : list N) : list N by wf (length s) lt :=
  str_replace [] new s := new ++ flat_map (fun c => c :: new) s;
  str_replace (o :: old') new [] := [];
  str_replace (o :: old') new (c :: t) with startswith (o :: old') (c :: t) := {
    | true := new ++ str_replace (o :: old') new (drop (length old') t)
    | false := c :: str_replace (o :: old') new t }.
Next Obligation. rewrite length_drop. lia. Qed.

(** [str.isspace] on one character: the code points Python treats as
    white space. *)
Definition isspace (c : N) : bool :=
  ((9 <=? c) && (c <=? 13)) || ((28 <=? c) && (c <=? 32))
  || (c =? 133) || (c =? 160) || (c =? 5760)
  || ((8192 <=? c) && (c <=? 8202))
  || (c =? 8232) || (c =? 8233) || (c =? 8239) || (c =? 8287)
  || (c =? 12288).

Fixpoint lstrip (s : list N) : list N :=
  match s with
  | [] => []
  | c :: t => if isspace c then lstrip t else s
  end.

(** [s.strip()] *)
Definition strip (s : list N) : list N :=
  rev (lstrip (rev (lstrip s))).

End PyStr.
Import PyStr.

(** ** Regular expressions used by the code *)

Module PyRe.

(** Characters up to the first [c], and what follows them. *)
Fixpoint span_until (c : N) (s : list N) : list N * list N :=
  match s with
  | [] => ([], [])
  | x :: t =>
      if x =? c then ([], s)
      else let '(a, b) := span_until c t in (x :: a, b)
  end.

(** A match of [\$\{([^}]+)\}] at the start of [s]: a dollar sign, an
    opening brace, one or more characters other than the closing brace
    (as many as there are: the class is greedy and cannot cross a closing
    brace), and a closing brace.  Returns group 1. *)
Definition match_brace (s : list N) : option (list N) :=
  match s with
  | d :: b :: u =>
      if (d =? 36) && (b =? 123) then
        match span_until 125 u with
        | (x :: body, y :: _) => Some (x :: body)
        | _ => None
        end
      else None
  | _ => None
  end.

(** The replacement template [\\${\1}]: a backslash, then the match. *)
Definition brace_template (group1 : list N) : list N :=
  92 :: 36 :: 123 :: group1 ++ [125].

(** [re.sub(r"\$\{([^}]+)\}", r"\\${\1}", s)]: the string is scanned from
    the left; at the leftmost match the template is put out and scanning
    goes on after the match; a character at which no match starts is
    copied. *)
Equations re_sub_brace (s : list N) : list N by wf (length s) lt :=
  re_sub_brace [] := [];
  re_sub_brace (c :: t) with match_brace (c :: t) := {
    | Some body := brace_template body ++ re_sub_brace (drop (length body + 2) t)
    | None := c :: re_sub_brace t }.
Next Obligation. rewrite length_drop. lia. Qed.

Definition is_ascii_letter (c : N) : bool :=
  ((97 <=? c) && (c <=? 122)) || ((65 <=? c) && (c <=? 90)).

Definition is_ascii_digit (c : N) : bool :=
  (48 <=? c) && (c <=? 57).

(** The class [[a-zA-Z0-9._-]]. *)
Definition is_name_char (c : N) : bool :=
  is_ascii_letter c || is_ascii_digit c || (c =? 46) || (c =? 95) || (c =? 45).

Fixpoint drop_name_chars (s : list N) : list N :=
  match s with
  | [] => []
  | c :: t => if is_name_char c then drop_name_chars t else s
  end.

(** [re.match(r"^[a-zA-Z][a-zA-Z0-9._-]*$", s)] as a truth value.  The
    star takes every character of the class; [$] then holds at the end of
    the string and also just before a line feed that ends the string. *)
Definition match_command_name (s : list N) : bool :=
  match s with
  | [] => false
  | c :: t =>
      is_ascii_letter c &&
      match drop_name_chars t with
      | [] => true
      | [x] => x =? 10
      | _ => false
      end
  end.

End PyRe.
Import PyRe.

(** ** Exceptions and results *)

Inductive exn : Type :=
| DirectoryNotFoundError (path : list N)
| CommandParseError (file_path parse_error : list N)
| CommandNotFoundError (command_name : list N) (available_commands : list (list N))
| InputTooLargeError (size max_size : Z)
| YAMLError (msg : list N)
| ValueError (msg : list N)
| ValidationError (msg : list N)
| TypeError (msg : list N)
| OSError (msg : list N)
| UnicodeEncodeError (msg : list N)
| UnicodeDecodeError (msg : list N).

Inductive result (A : Type) : Type :=
| Ok (a : A)
| Raise (e : exn).
Arguments Ok {A} a.
Arguments Raise {A} e.

Definition bind {A B} (r : result A) (k : A -> result B) : result B :=
  match r with
  | Ok a => k a
  | Raise e => Raise e
  end.

Notation "'let*' x ':=' r 'in' k" := (bind r (fun x => k))
  (at level 10, x name, r at level 100, k at level 200).

(** [try: r  except Exception as e: h e] *)
Definition try_except {A} (r : result A) (h : exn -> result A) : result A :=
  match r with
  | Ok a => Ok a
  | Raise e => h e
  end.

(** ** UTF-8 *)

(** The bytes of one code point under [str.encode("utf-8")]; a surrogate
    (U+D800..U+DFFF) cannot be encoded. *)
Definition utf8_encode_char (c : N) : result (list N) :=
  if c <? 128 then Ok [c]
  else if c <? 2048 then
    Ok [N.lor 192 (N.shiftr c 6); N.lor 128 (N.land c 63)]
  else if (55296 <=? c) && (c <=? 57343) then
    Raise (UnicodeEncodeError (lit "surrogates not allowed"))
  else if c <? 65536 then
    Ok [N.lor 224 (N.shiftr c 12);
        N.lor 128 (N.land (N.shiftr c 6) 63);
        N.lor 128 (N.land c 63)]
  else
    Ok [N.lor 240 (N.shiftr c 18);
        N.lor 128 (N.land (N.shiftr c 12) 63);
        N.lor 128 (N.land (N.shiftr c 6) 63);
        N.lor 128 (N.land c 63)].

Fixpoint utf8_encode (s : list N) : result (list N) :=
  match s with
  | [] => Ok []
  | c :: t =>
      let* b := utf8_encode_char c in
      let* bs := utf8_encode t in
      Ok (b ++ bs)
  end.

(** [len(x)] as a Python integer. *)
Definition len {A} (l : list A) : Z := Z.of_nat (length l).

(** ** models.py *)

Record HandoffLink : Type := {
  label : list N;
  agent : list N;
  prompt : list N;
  send : bool
}.

Record CommandMetadata : Type := {
  description : list N;
  handoffs : list HandoffLink
}.

Record CommandDefinition : Type := {
  name : list N;
  file_path : list N;
  metadata : CommandMetadata;
  content : list N;
  has_arguments : bool;
  file_size : Z;
  last_modified : Z
}.

Definition MAX_INPUT_SIZE_BYTES : Z := 102400.

(** ** exceptions.py: the constructors that compute a field *)

(** [CommandNotFoundError.__init__]: [available_commands or []]. *)
Definition CommandNotFoundError_init
    (command_name : list N) (available_commands : option (list (list N))) : exn :=
  CommandNotFoundError command_name
    (match available_commands with
     | Some (x :: l) => x :: l
     | _ => []
     end).

(** ** registry.py *)

Module Registry.

Fixpoint str_leb (a b : list N) : bool :=
  match a, b with
  | [], _ => true
  | _ :: _, [] => false
  | x :: a', y :: b' =>
      if x <? y then true else if x =? y then str_leb a' b' else false
  end.

(** The order of Python's string comparison: by code point, a proper
    prefix first. *)
Definition str_le (a b : list N) : Prop := Is_true (str_leb a b).

#[global] Instance str_le_dec a b : Decision (str_le a b) := _.

(** [sorted(xs)] on strings. *)
Definition sorted (l : list (list N)) : list (list N) :=
  merge_sort str_le l.

(** [dict.keys()] *)
Definition keys (d : gmap (list N) CommandDefinition) : list (list N) :=
  (map_to_list d).*1.

(** The state of a [CommandRegistry]: the dictionary that [_registry]
    refers to.  Every method runs its body holding [_lock]; in a single
    thread the lock has no effect (see [Concurrent] for several). *)
Record CommandRegistry : Type := {
  _registry : gmap (list N) CommandDefinition
}.

Definition init : CommandRegistry := {| _registry := ∅ |}.

Definition register (command : CommandDefinition) (self : CommandRegistry)
  : CommandRegistry :=
  {| _registry := <[name command := command]> (_registry self) |}.

Definition get (nm : list N) (self : CommandRegistry) : option CommandDefinition :=
  _registry self !! nm.

Definition list_commands (self : CommandRegistry) : list (list N) :=
  sorted (keys (_registry self)).

(** [self._registry = dict(commands)]: a copy of the argument takes the
    place of the old dictionary. *)
Definition update_all (commands : gmap (list N) CommandDefinition)
    (self : CommandRegistry) : CommandRegistry :=
  {| _registry := commands |}.

Definition clear (self : CommandRegistry) : CommandRegistry :=
  {| _registry := ∅ |}.

Definition count (self : CommandRegistry) : Z :=
  Z.of_nat (size (_registry self)).

End Registry.

(** ** registry.py with several threads *)

Module Concurrent.
Import Registry.

(** What a thread does in one step.  The body of every method stands
    between [Acquire] and [Release] of [_lock] ([with self._lock:]). *)
Inductive action : Type :=
| Acquire
| Release
| DoGet (nm : list N)
| DoList
| DoLen
| DoAssign (commands : gmap (list N) CommandDefinition)
| DoInsert (command : CommandDefinition)
| DoClear.

(** What a thread got back from a read. *)
Inductive observation : Type :=
| SawGet (nm : list N) (r : option CommandDefinition)
| SawList (l : list (list N))
| SawLen (n : Z).

(** The methods as sequences of steps. *)
Definition call_get (nm : list N) : list action := [Acquire; DoGet nm; Release].
Definition call_list_commands : list action := [Acquire; DoList; Release].
Definition call_count : list action := [Acquire; DoLen; Release].
Definition call_register (command : CommandDefinition) : list action :=
  [Acquire; DoInsert command; Release].
Definition call_update_all (commands : gmap (list N) CommandDefinition)
  : list action :=
  [Acquire; DoLen; DoAssign commands; DoLen; Release].
Definition call_clear : list action := [Acquire; DoLen; DoClear; Release].

(** A thread: the steps it still has to take and what it has seen. *)
Record thread : Type := {
  todo : list action;
  seen : list observation
}.

(** The registry object and the threads that use it.  [lock] is the state of
    the reentrant lock: its owner and how often the owner holds it. *)
Record config : Type := {
  lock : option (nat * nat);
  shared : CommandRegistry;
  threads : list thread
}.

Definition start (self : CommandRegistry) (programs : list (list action)) : config :=
  {| lock := None; shared := self;
     threads := (fun p => {| todo := p; seen := [] |}) <$> programs |}.

(** All threads are through. *)
Definition finished (c : config) : Prop :=
  Forall (fun t => todo t = []) (threads c).

(** The effect of an action of thread [i] on lock, registry and the
    thread's observations; [None] when the thread has to wait. *)
Definition perform (i : nat) (a : action) (lk : option (nat * nat))
    (self : CommandRegistry) (obs : list observation)
  : option (option (nat * nat) * CommandRegistry * list observation) :=
  match a with
  | Acquire =>
      match lk with
      | None => Some (Some (i, 1%nat), self, obs)
      | Some (owner, n) =>
          if (owner =? i)%nat then Some (Some (i, S n), self, obs) else None
      end
  | Release =>
      match lk with
      | Some (owner, S n) =>
          if (owner =? i)%nat
          then Some (match n with O => None | _ => Some (i, n) end, self, obs)
          else None
      | _ => None
      end
  | DoGet nm => Some (lk, self, obs ++ [SawGet nm (get nm self)])
  | DoList => Some (lk, self, obs ++ [SawList (list_commands self)])
  | DoLen => Some (lk, self, obs ++ [SawLen (count self)])
  | DoAssign commands => Some (lk, update_all commands self, obs)
  | DoInsert command => Some (lk, register command self, obs)
  | DoClear => Some (lk, clear self, obs)
  end.

(** Thread [i] takes its next step. *)
Definition step_thread (i : nat) (c : config) : option config :=
  match threads c !! i with
  | Some {| todo := a :: rest; seen := obs |} =>
      match perform i a (lock c) (shared c) obs with
      | Some (lk, self, obs') =>
          Some {| lock := lk; shared := self;
                  threads := <[i := {| todo := rest; seen := obs' |}]> (threads c) |}
      | None => None
      end
  | _ => None
  end.

(** One step of some thread; which one is up to the scheduler. *)
Inductive step : config → config → Prop :=
| step_of (i : nat) (c c' : config) : step_thread i c = Some c' → step c c'.

(** The threads run in the order of a given schedule; a thread that cannot
    move when it is its turn is passed over. *)
Definition run_schedule (schedule : list nat) (c : config) : config :=
  foldl (fun c i => default c (step_thread i c)) c schedule.

(** The actions that leave the registry as it is. *)
Definition reads_only (a : action) : bool :=
  match a with
  | DoAssign _ | DoInsert _ | DoClear => false
  | _ => true
  end.

(** A reader calls [get], [list_commands] or [count]. *)
Definition reader (p : list action) : Prop :=
  (∃ nm, p = call_get nm) ∨ p = call_list_commands ∨ p = call_count.

(** The observation is what the read gives on the registry [self]. *)
Definition seen_on (self : CommandRegistry) (o : observation) : Prop :=
  match o with
  | SawGet nm r => r = get nm self
  | SawList l => l = list_commands self
  | SawLen n => n = count self
  end.

(** The actions between [Acquire] and [Release]. *)
Definition plain (a : action) : bool :=
  match a with
  | Acquire | Release => false
  | _ => true
  end.

(** A method call: its body between [Acquire] and [Release]. *)
Definition method_call (p : list action) : Prop :=
  ∃ body, p = Acquire :: body ++ [Release] ∧ Forall (fun a => plain a = true) body.

(** The thread has not entered the method yet. *)
Definition waiting (t : thread) : Prop := method_call (todo t).

(** The thread is in the body of the method. *)
Definition inside (t : thread) : Prop :=
  ∃ body, todo t = body ++ [Release] ∧ Forall (fun a => plain a = true) body.

(** The lock does its work: a thread is in the body of a method exactly
    when it owns the lock, and it owns it once. *)
Record mutex_inv (c : config) : Prop := {
  mi_shape : ∀ i t, threads c !! i = Some t → todo t = [] ∨ waiting t ∨ inside t;
  mi_owner : ∀ i t, threads c !! i = Some t → (inside t ↔ lock c = Some (i, 1%nat));
  mi_lock : lock c = None ∨ ∃ i t, lock c = Some (i, 1%nat) ∧ threads c !! i = Some t
}.

(** Where the thread that runs [update_all] stands, and what the registry
    holds at that point. *)
Definition writer_at (old : CommandRegistry)
    (m : gmap (list N) CommandDefinition) (t : list action)
    (self : CommandRegistry) : Prop :=
  (∃ k, (k ≤ 2)%nat ∧ t = drop k (call_update_all m) ∧ self = old)
  ∨ (∃ k, (3 ≤ k)%nat ∧ t = drop k (call_update_all m) ∧ self = update_all m old).

(** What holds at every point of a run of one [update_all] and any number
    of readers. *)
Record replace_inv (old : CommandRegistry) (m : gmap (list N) CommandDefinition)
    (c : config) : Prop := {
  inv_writer : ∃ t, threads c !! 0%nat = Some t ∧ writer_at old m (todo t) (shared c);
  inv_readers : ∀ i t, threads c !! S i = Some t →
                       Forall (fun a => reads_only a = true) (todo t);
  inv_seen : ∀ i t o, threads c !! i = Some t → o ∈ seen t →
                      seen_on old o ∨ seen_on (update_all m old) o
}.

End Concurrent.

(** ** handler.py *)

Module Handler.
Import Registry.

(** The placeholder ["$ARGUMENTS"] and its escaped form ["\$ARGUMENTS"]
    (one backslash, then the placeholder), as code points. *)
Definition ARGUMENTS : list N := Eval vm_compute in lit "$ARGUMENTS".
Definition ESCAPED_ARGUMENTS : list N := Eval vm_compute in lit "\$ARGUMENTS".

(** [PromptHandler.sanitize_input] *)
Definition sanitize_input (text : list N) : list N :=
  let sanitized := str_replace ARGUMENTS ESCAPED_ARGUMENTS text in
  let sanitized := re_sub_brace sanitized in
  sanitized.

(** [PromptHandler.process_prompt].  A [CommandDefinition] object is always
    true in a condition, so [not cmd] holds exactly when the lookup gave
    [None]. *)
Definition process_prompt (registry : CommandRegistry)
    (command_name : list N) (user_input : option (list N)) : result (list N) :=
  match get command_name registry with
  | None =>
      let available := list_commands registry in
      Raise (CommandNotFoundError_init command_name (Some available))
  | Some cmd =>
      let* _ :=
        match user_input with
        | Some u =>
            let* bytes := utf8_encode u in
            let size := len bytes in
            if (size >? MAX_INPUT_SIZE_BYTES)%Z
            then Raise (InputTooLargeError size MAX_INPUT_SIZE_BYTES)
            else Ok tt
        | None => Ok tt
        end in
      let content := content cmd in
      match has_arguments cmd, user_input with
      | true, Some u =>
          let sanitized_input := sanitize_input u in
          Ok (str_replace ARGUMENTS sanitized_input content)
      | _, _ => Ok content
      end
  end.

End Handler.

(** ** The escaping pass as the specification words it *)

Module SanitizeSpec.
Import Handler.

(** An occurrence of the placeholder starts here. *)
Definition args_here (s : list N) : bool := startswith ARGUMENTS s.

(** After [${]: a first character other than the closing brace, and a
    closing brace somewhere behind it. *)
Definition brace_tail (u : list N) : bool :=
  match u with
  | [] => false
  | x :: v => negb (x =? 125) && has_char 125 v
  end.

(** An occurrence of dollar, opening brace, one or more characters other
    than the closing brace, closing brace starts here. *)
Definition brace_here (s : list N) : bool :=
  match s with
  | c :: d :: u => (c =? 36) && (d =? 123) && brace_tail u
  | _ => false
  end.

(** The same as a proposition about the text. *)
Definition BraceOccurrence (s : list N) : Prop :=
  ∃ body rest, s = 36 :: 123 :: body ++ 125 :: rest ∧ body ≠ [] ∧ 125 ∉ body.

(** The claim read to the letter: a backslash goes before every position
    at which an occurrence of either kind starts, and nothing else
    changes. *)
Fixpoint escape_every (s : list N) : list N :=
  match s with
  | [] => []
  | c :: t =>
      (if args_here s || brace_here s then [92] else [])
        ++ c :: escape_every t
  end.

(** One pass from the left over the text as given.  [inside] tells that the
    position lies within a brace occurrence that was escaped and has not
    been closed yet; an occurrence that starts there gets no backslash of
    its own. *)
Fixpoint escape_pass (inside : bool) (s : list N) : list N :=
  match s with
  | [] => []
  | c :: t =>
      let esc := args_here s || (negb inside && brace_here s) in
      let inside' := if c =? 125 then false else inside || brace_here s in
      (if esc then [92] else []) ++ c :: escape_pass inside' t
  end.

(** The second half of [escape_pass] alone. *)
Fixpoint brace_pass (inside : bool) (s : list N) : list N :=
  match s with
  | [] => []
  | c :: t =>
      let esc := negb inside && brace_here s in
      let inside' := if c =? 125 then false else inside || brace_here s in
      (if esc then [92] else []) ++ c :: brace_pass inside' t
  end.

(** [e] is [s] with backslashes put in, each directly before a dollar
    sign of [s]. *)
Inductive Escaped : list N → list N → Prop :=
| Escaped_nil : Escaped [] []
| Escaped_keep c e s : Escaped e s → Escaped (c :: e) (c :: s)
| Escaped_esc e s : Escaped e s → Escaped (92 :: 36 :: e) (36 :: s).

End SanitizeSpec.

(** ** Values read from YAML front matter *)

(** What the YAML parser hands over: scalars, lists, dictionaries, sets
    ([!!set]) and byte strings ([!!binary]).  A dictionary is the list of
    its items, keys distinct; a set the list of its members.  A float is
    kept only as far as its truth value goes.  Any other object (a date, a
    time, a pair of an ordered map) is kept only by the name of its type;
    such an object is true in a condition. *)
#[local] Unset Elimination Schemes.
Inductive yaml : Type :=
| YNull
| YBool (b : bool)
| YInt (z : Z)
| YFloat (nonzero : bool)
| YStr (s : list N)
| YList (l : list yaml)
| YDict (d : list (yaml * yaml))
| YOther (type_name : list N)
| YSet (members : list yaml)
| YBytes (b : list N).
#[local] Set Elimination Schemes.

Module Yaml.

(** [type(y).__name__] *)
Definition type_name (y : yaml) : list N :=
  match y with
  | YNull => lit "NoneType"
  | YBool _ => lit "bool"
  | YInt _ => lit "int"
  | YFloat _ => lit "float"
  | YStr _ => lit "str"
  | YList _ => lit "list"
  | YDict _ => lit "dict"
  | YOther n => n
  | YSet _ => lit "set"
  | YBytes _ => lit "bytes"
  end.

(** The truth value of [y] in a condition. *)
Definition truthy (y : yaml) : bool :=
  match y with
  | YNull => false
  | YBool b => b
  | YInt z => negb (z =? 0)%Z
  | YFloat nz => nz
  | YStr s => match s with [] => false | _ => true end
  | YList l => match l with [] => false | _ => true end
  | YDict d => match d with [] => false | _ => true end
  | YOther _ => true
  | YSet l => match l with [] => false | _ => true end
  | YBytes b => match b with [] => false | _ => true end
  end.

Definition is_key (k : list N) (y : yaml) : bool :=
  match y with
  | YStr s => str_eqb s k
  | _ => false
  end.

(** [d.get(k)] for a string key; [None] when the key is missing. *)
Fixpoint dict_get (k : list N) (d : list (yaml * yaml)) : option yaml :=
  match d with
  | [] => None
  | (key, v) :: d' => if is_key k key then Some v else dict_get k d'
  end.

(** [k in d] *)
Definition dict_has (k : list N) (d : list (yaml * yaml)) : bool :=
  match dict_get k d with
  | Some _ => true
  | None => false
  end.

End Yaml.

(** ** Text of numbers and exceptions *)

Module Fmt.

(** [str(n)] for a natural number. *)
Definition str_of_nat (n : nat) : list N :=
  match n with
  | O => lit "0"
  | _ => lit (NilEmpty.string_of_uint (Nat.to_uint n))
  end.

Fixpoint group3 (k : nat) (rev_digits : list N) : list N :=
  match rev_digits with
  | [] => []
  | d :: t =>
      match k with
      | O => 44 :: d :: group3 2 t
      | S k' => d :: group3 k' t
      end
  end.

(** [f"{z:,}"] for a size, which is never negative. *)
Definition str_of_size (z : Z) : list N :=
  match rev (str_of_nat (Z.to_nat z)) with
  | [] => []
  | d :: t => rev (d :: group3 2 t)
  end.

(** [", ".join(l)] *)
Fixpoint join_comma (l : list (list N)) : list N :=
  match l with
  | [] => []
  | [x] => x
  | x :: t => x ++ lit ", " ++ join_comma t
  end.

(** [SpecifyPlusMCPError.__str__] *)
Definition message_details (message : list N) (details : option (list N)) : list N :=
  match details with
  | Some (c :: d) => message ++ lit ": " ++ c :: d
  | _ => message
  end.

(** [str(e)] *)
Definition exn_str (e : exn) : list N :=
  match e with
  | DirectoryNotFoundError path =>
      message_details (lit "Commands directory not found")
        (Some (lit "Expected directory at: " ++ path))
  | CommandParseError file_path parse_error =>
      message_details (lit "Failed to parse command file: " ++ file_path)
        (Some parse_error)
  | CommandNotFoundError command_name available =>
      message_details (lit "Command not found: " ++ command_name)
        (match available with
         | [] => None
         | _ => Some (lit "Available commands: "
                        ++ join_comma (Registry.sorted available))
         end)
  | InputTooLargeError size max_size =>
      message_details (lit "Input exceeds maximum allowed size")
        (Some (lit "Input size: " ++ str_of_size size ++ lit " bytes, maximum: "
                 ++ str_of_size max_size ++ lit " bytes (100KB)"))
  | YAMLError msg | ValueError msg | ValidationError msg | TypeError msg
  | OSError msg | UnicodeEncodeError msg | UnicodeDecodeError msg => msg
  end.

End Fmt.

(** ** validators.py *)

Module Validators.
Import Yaml Fmt.

(** [validate_command_name] *)
Definition validate_command_name (nm : list N) : result (list N) :=
  let nm := strip nm in
  match nm with
  | [] => Raise (ValueError (lit "Command name cannot be empty"))
  | _ =>
      if has_char 47 nm || has_char 92 nm then
        Raise (ValueError (lit "Command name cannot contain path separators"))
      else if negb (match_command_name nm) then
        Raise (ValueError
          (lit "Invalid command name format: '" ++ nm ++ lit "'. "
           ++ lit "Must start with a letter and contain only alphanumeric "
           ++ lit "characters, dots, underscores, and hyphens."))
      else Ok nm
  end.

(** [isinstance(v, str) and v.strip()] as a truth value *)
Definition nonblank_str (v : yaml) : bool :=
  match v with
  | YStr s => match strip s with [] => false | _ => true end
  | _ => false
  end.

(** The checks of one field of one handoff. *)
Definition check_handoff_field (file_path : list N) (i : nat)
    (handoff : list (yaml * yaml)) (field : list N) : result unit :=
  match dict_get field handoff with
  | None =>
      Raise (CommandParseError file_path
        (lit "Handoff " ++ str_of_nat i ++ lit " missing required field: '"
         ++ field ++ lit "'"))
  | Some v =>
      if negb (nonblank_str v) then
        Raise (CommandParseError file_path
          (lit "Handoff '" ++ field ++ lit "' at " ++ str_of_nat i
           ++ lit " must be a non-empty string"))
      else Ok tt
  end.

(** The body of the loop over the handoffs, for entry [i]. *)
Definition check_handoff (file_path : list N) (i : nat) (handoff : yaml)
  : result unit :=
  match handoff with
  | YDict d =>
      let* _ := check_handoff_field file_path i d (lit "label") in
      let* _ := check_handoff_field file_path i d (lit "agent") in
      let* _ := check_handoff_field file_path i d (lit "prompt") in
      match dict_get (lit "send") d with
      | Some (YBool _) | None => Ok tt
      | Some _ =>
          Raise (CommandParseError file_path
            (lit "Handoff 'send' at index " ++ str_of_nat i
             ++ lit " must be a boolean"))
      end
  | _ =>
      Raise (CommandParseError file_path
        (lit "Handoff at index " ++ str_of_nat i ++ lit " must be an object, got "
         ++ type_name handoff))
  end.

Fixpoint check_handoffs (file_path : list N) (i : nat) (l : list yaml)
  : result unit :=
  match l with
  | [] => Ok tt
  | h :: t =>
      let* _ := check_handoff file_path i h in
      check_handoffs file_path (S i) t
  end.

(** [validate_yaml_frontmatter] *)
Definition validate_yaml_frontmatter (frontmatter : list (yaml * yaml))
    (file_path : list N) : result (list (yaml * yaml)) :=
  match dict_get (lit "description") frontmatter with
  | None | Some YNull =>
      Raise (CommandParseError file_path
               (lit "Missing required field: 'description'"))
  | Some (YStr d) =>
      match strip d with
      | [] => Raise (CommandParseError file_path (lit "'description' cannot be empty"))
      | _ =>
          let handoffs :=
            match dict_get (lit "handoffs") frontmatter with
            | Some h => h
            | None => YList []
            end in
          match handoffs with
          | YList l =>
              let* _ := check_handoffs file_path 0 l in Ok frontmatter
          | _ =>
              if truthy handoffs then
                Raise (CommandParseError file_path
                  (lit "'handoffs' must be a list, got " ++ type_name handoffs))
              else
                (* [enumerate] of a value that is false and not a list: an
                   empty string, dictionary, set or byte string has no
                   items, anything else cannot be iterated over *)
                match handoffs with
                | YStr _ | YDict _ | YSet _ | YBytes _ => Ok frontmatter
                | _ =>
                    Raise (TypeError
                      (lit "'" ++ type_name handoffs
                       ++ lit "' object is not iterable"))
                end
          end
      end
  | Some other =>
      Raise (CommandParseError file_path
        (lit "'description' must be a string, got " ++ type_name other))
  end.

End Validators.

(** ** models.py: construction with validation *)

Module Models.
Import Yaml.

(** A field declared [str] with [min_length=1]. *)
Definition required_str (field : list N) (d : list (yaml * yaml)) : result (list N) :=
  match dict_get field d with
  | Some (YStr (c :: s)) => Ok (c :: s)
  | _ => Raise (ValidationError (lit "validation error: " ++ field))
  end.

(** [HandoffLink] from a dictionary.  The loader hands over only values that
    went through [validate_yaml_frontmatter], where [send] is a boolean
    when present. *)
Definition HandoffLink_init (v : yaml) : result HandoffLink :=
  match v with
  | YDict d =>
      let* l := required_str (lit "label") d in
      let* a := required_str (lit "agent") d in
      let* p := required_str (lit "prompt") d in
      let* s :=
        match dict_get (lit "send") d with
        | None => Ok false
        | Some (YBool b) => Ok b
        | Some _ => Raise (ValidationError (lit "validation error: send"))
        end in
      Ok {| label := l; agent := a; prompt := p; send := s |}
  | _ => Raise (ValidationError (lit "validation error: handoffs"))
  end.

Fixpoint HandoffLink_list (l : list yaml) : result (list HandoffLink) :=
  match l with
  | [] => Ok []
  | v :: t =>
      let* h := HandoffLink_init v in
      let* hs := HandoffLink_list t in
      Ok (h :: hs)
  end.

Definition is_str (y : yaml) : bool :=
  match y with
  | YStr _ => true
  | _ => false
  end.

(** [CommandMetadata] built from the items of [d] as keyword arguments,
    for a [d] that went through [validate_yaml_frontmatter]: every key has
    to be a string to be passed as a keyword; keys that are not fields are
    ignored; a set given for the list field [handoffs] is taken as the list
    of its members, a string, a byte string or a dictionary is refused. *)
Definition CommandMetadata_init (d : list (yaml * yaml)) : result CommandMetadata :=
  if negb (forallb (fun kv => is_str (fst kv)) d) then
    Raise (TypeError (lit "keywords must be strings"))
  else
    let* desc := required_str (lit "description") d in
    let* hs :=
      match dict_get (lit "handoffs") d with
      | None => Ok []
      | Some (YList l) | Some (YSet l) => HandoffLink_list l
      | Some _ => Raise (ValidationError (lit "validation error: handoffs"))
      end in
    Ok {| description := desc; handoffs := hs |}.

(** The field validator of [CommandDefinition.name]; the value it returns is
    the one stored.  (Its test for [".."] ends in [pass] and changes
    nothing.) *)
Definition name_validator (v : list N) : result (list N) :=
  let v := strip v in
  match v with
  | [] => Raise (ValueError (lit "Command name cannot be empty"))
  | _ =>
      if has_char 47 v || has_char 92 v then
        Raise (ValueError (lit "Command name cannot contain path separators"))
      else if negb (match_command_name v) then
        Raise (ValueError
          (lit "Invalid command name format: '" ++ v ++ lit "'. "
           ++ lit "Must start with a letter and contain only alphanumeric "
           ++ lit "characters, dots, underscores, and hyphens."))
      else Ok v
  end.

(** [CommandDefinition(name=..., ...)]: a failed check is reported as a
    [ValidationError]. *)
Definition CommandDefinition_init (nm fp : list N) (md : CommandMetadata)
    (body : list N) (has_args : bool) (size mtime : Z) : result CommandDefinition :=
  let* nm' :=
    match nm with
    | [] => Raise (ValidationError (lit "validation error: name"))
    | _ => try_except (name_validator nm)
             (fun e => Raise (ValidationError (Fmt.exn_str e)))
    end in
  match fp with
  | [] => Raise (ValidationError (lit "validation error: file_path"))
  | _ =>
      if (size <? 0)%Z then Raise (ValidationError (lit "validation error: file_size"))
      else
        Ok {| name := nm'; file_path := fp; metadata := md; content := body;
              has_arguments := has_args; file_size := size;
              last_modified := mtime |}
  end.

End Models.

(** ** Paths *)

(** [pathlib.PurePosixPath]: a path is kept as its root and its parts, with
    empty parts and single dots left out when it is made from a string. *)
Module PyPath.

Record PurePath : Type := {
  root : list N;
  parts : list (list N)
}.

(** [s.split("/")] *)
Fixpoint split_slash (s : list N) : list (list N) :=
  match s with
  | [] => [[]]
  | c :: t =>
      if c =? 47 then [] :: split_slash t
      else match split_slash t with
           | h :: r => (c :: h) :: r
           | [] => [[c]]
           end
  end.

(** [s.lstrip("/")] *)
Fixpoint lstrip_slash (s : list N) : list N :=
  match s with
  | c :: t => if c =? 47 then lstrip_slash t else s
  | [] => []
  end.

(** [splitroot]: exactly two slashes at the start are kept as a root of
    their own, any other number counts as one. *)
Definition splitroot (part : list N) : list N * list N :=
  match part with
  | 47 :: _ =>
      let stripped_part := lstrip_slash part in
      if (length part - length stripped_part =? 2)%nat
      then ([47; 47], stripped_part)
      else ([47], stripped_part)
  | _ => ([], part)
  end.

Definition is_part (x : list N) : bool :=
  match x with
  | [] | [46] => false
  | _ => true
  end.

(** [Path(s)] *)
Definition Path (s : list N) : PurePath :=
  let '(rt, rel) := splitroot s in
  {| root := rt; parts := filter (fun x => Is_true (is_part x)) (split_slash rel) |}.

(** ["/".join(l)] *)
Fixpoint join_slash (l : list (list N)) : list N :=
  match l with
  | [] => []
  | [x] => x
  | x :: t => x ++ 47 :: join_slash t
  end.

(** [str(p)] *)
Definition str_of (p : PurePath) : list N :=
  match root p ++ join_slash (parts p) with
  | [] => [46]
  | s => s
  end.

(** The path of the entry [nm] of the directory [p], as [glob] makes it. *)
Definition child (p : PurePath) (nm : list N) : PurePath :=
  {| root := root p; parts := parts p ++ [nm] |}.

Definition is_absolute (p : PurePath) : bool :=
  match root p with
  | [] => false
  | _ => true
  end.

(** [p.absolute()] in a process whose working directory is [wd]. *)
Definition absolute (wd : list N) (p : PurePath) : PurePath :=
  if is_absolute p then p
  else {| root := root (Path wd); parts := parts (Path wd) ++ parts p |}.

End PyPath.

(** ** loader.py *)

Module Loader.
Import Yaml Fmt Validators Models.

(** One entry of the commands directory as the loader meets it: its name,
    what [frontmatter.load] gives for it (the metadata and the body, or the
    exception raised while reading or parsing), what [stat] gives (size
    and modification time), and what [datetime.fromtimestamp] makes of that
    modification time (the local date and time, kept as a number, or the
    exception for a time that the calendar or the platform cannot hold). *)
Record DirEntry : Type := {
  entry_name : list N;
  entry_load : result (list (yaml * yaml) * list N);
  entry_stat : result (Z * Z);
  entry_datetime : result Z
}.

(** The state of the directory: the working directory of the process and
    the entries in the order the file system lists them. *)
Record Directory : Type := {
  cwd : list N;
  entries : list DirEntry
}.

(** A loader that has been constructed: the directory exists. *)
Record CommandLoader : Type := {
  commands_dir : list N
}.

(** The path that [glob] gives for the entry [nm] of [Path(dir)]. *)
Definition entry_path (dir nm : list N) : PyPath.PurePath :=
  PyPath.child (PyPath.Path dir) nm.

(** [str(file_path)] for that entry. *)
Definition join_path (dir nm : list N) : list N :=
  PyPath.str_of (entry_path dir nm).

(** [str(file_path.absolute())] in a process whose working directory is
    [wd]. *)
Definition absolute (wd : list N) (file_path : PyPath.PurePath) : list N :=
  PyPath.str_of (PyPath.absolute wd file_path).

(** Index of the last dot of [s], counted from the left. *)
Fixpoint rfind_dot (s : list N) : option nat :=
  match s with
  | [] => None
  | c :: t =>
      match rfind_dot t with
      | Some i => Some (S i)
      | None => if c =? 46 then Some O else None
      end
  end.

(** [Path.stem]: the name without its last suffix; a dot at the very start
    or at the very end does not begin a suffix. *)
Definition stem (nm : list N) : list N :=
  match rfind_dot nm with
  | Some i =>
      if (0 <? i)%nat && (i <? length nm - 1)%nat then take i nm else nm
  | None => nm
  end.

(** [CommandLoader.discover_commands]: the entries matching [*.md]. *)
Definition discover_commands (self : CommandLoader) (fs : Directory)
  : list DirEntry :=
  filter (fun e => Is_true (endswith (lit ".md") (entry_name e))) (entries fs).

(** The [try] block of [parse_command_file]. *)
Definition parse_body (self : CommandLoader) (fs : Directory) (e : DirEntry)
  : result CommandDefinition :=
  let file_path := join_path (commands_dir self) (entry_name e) in
  let* post := entry_load e in
  let frontmatter_data := fst post in
  let content := snd post in
  let* validated_frontmatter :=
    validate_yaml_frontmatter frontmatter_data file_path in
  let* metadata := CommandMetadata_init validated_frontmatter in
  let command_name := stem (entry_name e) in
  let* command_name := validate_command_name command_name in
  let has_arguments := contains (lit "$ARGUMENTS") content in
  let* st := entry_stat e in
  let file_size := fst st in
  let* last_modified := entry_datetime e in
  CommandDefinition_init command_name
    (absolute (cwd fs) (entry_path (commands_dir self) (entry_name e)))
    metadata content has_arguments file_size last_modified.

(** [CommandLoader.parse_command_file]: the three [except] clauses in
    order.  Beside the result, the records of level [WARNING] written to
    the log; the record of level [DEBUG] is given by [parse_debug]. *)
Definition parse_command_file (self : CommandLoader) (fs : Directory)
    (e : DirEntry) : result CommandDefinition * list (list N) :=
  let file_path := join_path (commands_dir self) (entry_name e) in
  match parse_body self fs e with
  | Ok definition => (Ok definition, [])
  | Raise ex =>
      match ex with
      | CommandParseError _ _ => (Raise ex, [])
      | YAMLError _ =>
          let error :=
            CommandParseError file_path
              (lit "YAML parsing error: " ++ exn_str ex) in
          (Raise error, [exn_str error])
      | _ =>
          let error :=
            CommandParseError file_path
              (lit "Unexpected error: " ++ exn_str ex) in
          (Raise error, [exn_str error])
      end
  end.

(** The records of level [DEBUG] that [parse_command_file] writes: one, for
    a file that parses. *)
Definition parse_debug (self : CommandLoader) (fs : Directory) (e : DirEntry)
  : list (list N) :=
  match parse_body self fs e with
  | Ok definition =>
      [lit "Parsed command: " ++ name definition ++ lit " from "
       ++ join_path (commands_dir self) (entry_name e)]
  | Raise _ => []
  end.

(** The warning of [load_all_commands] for a file it skips. *)
Definition skip_warning (self : CommandLoader) (e : DirEntry) (ex : exn) : list N :=
  lit "Skipping malformed command file: "
  ++ join_path (commands_dir self) (entry_name e)
  ++ lit ". Error: " ++ exn_str ex.

(** The loop of [load_all_commands]: a [CommandParseError] is caught, a
    warning is logged and the loop goes on with the next file; any other
    exception would leave the loop. *)
Fixpoint load_loop (self : CommandLoader) (fs : Directory)
    (markdown_files : list DirEntry)
    (commands : gmap (list N) CommandDefinition)
  : result (gmap (list N) CommandDefinition) * list (list N) :=
  match markdown_files with
  | [] => (Ok commands, [])
  | f :: rest =>
      let '(r, w) := parse_command_file self fs f in
      match r with
      | Ok definition =>
          let '(r', w') :=
            load_loop self fs rest (<[name definition := definition]> commands) in
          (r', w ++ w')
      | Raise (CommandParseError _ _ as ex) =>
          let '(r', w') := load_loop self fs rest commands in
          (r', w ++ skip_warning self f ex :: w')
      | Raise ex => (Raise ex, w)
      end
  end.

(** [CommandLoader.load_all_commands], with the warnings it logs. *)
Definition load_all_commands_logged (self : CommandLoader) (fs : Directory)
  : result (gmap (list N) CommandDefinition) * list (list N) :=
  let commands := ∅ in
  let markdown_files := discover_commands self fs in
  load_loop self fs markdown_files commands.

(** [CommandLoader.load_all_commands]: what it returns. *)
Definition load_all_commands (self : CommandLoader) (fs : Directory)
  : result (gmap (list N) CommandDefinition) :=
  fst (load_all_commands_logged self fs).

End Loader.

(** ** The loader as the specification words it *)

Module LoaderSpec.
Import Loader.

(** The record of a file that parses, nothing for one that does not. *)
Definition parsed (self : CommandLoader) (fs : Directory) (e : DirEntry)
  : option CommandDefinition :=
  match fst (parse_command_file self fs e) with
  | Ok d => Some d
  | Raise _ => None
  end.

(** The discovered files that fail to parse, in listing order. *)
Definition failed_files (self : CommandLoader) (fs : Directory) : list DirEntry :=
  filter (fun e => parsed self fs e = None) (discover_commands self fs).

(** The records of the discovered files that parse, in listing order. *)
Definition parsed_files (self : CommandLoader) (fs : Directory)
  : list CommandDefinition :=
  omap (parsed self fs) (discover_commands self fs).

(** The directory without the entries that fail to parse. *)
Definition without_failures (self : CommandLoader) (fs : Directory) : Directory :=
  {| cwd := cwd fs;
     entries := filter (fun e => is_Some (parsed self fs e)) (entries fs) |}.

(** The command-name pattern: a letter first, then letters, digits, dots,
    underscores and hyphens only; no path separator. *)
Definition ValidName (k : list N) : Prop :=
  ∃ c t, k = c :: t
         ∧ is_ascii_letter c = true
         ∧ Forall (fun x => is_name_char x = true) t
         ∧ (47 ∉ k) ∧ (92 ∉ k).

End LoaderSpec.

(** ** watcher.py *)

Module Watcher.

Inductive event_kind : Type := Created | Modified | Deleted.

(** A file-system event as the handler looks at it. *)
Record FsEvent : Type := {
  kind : event_kind;
  is_directory : bool;
  src_path : list N
}.

(** The state of a [CommandFileHandler].  Time is counted in whole ticks
    of a clock (the value [time.time()] would give); [_timer] is the live
    timer, known by the time at which it fires, or [None]; [reloads] lists
    the times at which [reload_callback] has been called, oldest first.  An
    exception of the callback is caught and logged at both call sites, so
    it has no part in the state. *)
Record CommandFileHandler : Type := {
  debounce_seconds : Z;
  _last_reload_time : Z;
  _pending_reload : bool;
  _timer : option Z;
  reloads : list Z
}.

(** [CommandFileHandler.__init__] *)
Definition init (debounce : Z) : CommandFileHandler :=
  {| debounce_seconds := debounce; _last_reload_time := 0;
     _pending_reload := false; _timer := None; reloads := [] |}.

(** [trigger_and_clear], the function the timer runs when it fires at
    [now]. *)
Definition trigger_and_clear (now : Z) (self : CommandFileHandler)
  : CommandFileHandler :=
  {| debounce_seconds := debounce_seconds self;
     _last_reload_time := now;
     _pending_reload := _pending_reload self;
     _timer := None;
     reloads := reloads self ++ [now] |}.

(** [_schedule_reload], called at [now]: a live timer is cancelled and a
    new one is started that fires [debounce_seconds] later. *)
Definition _schedule_reload (now : Z) (self : CommandFileHandler)
  : CommandFileHandler :=
  {| debounce_seconds := debounce_seconds self;
     _last_reload_time := _last_reload_time self;
     _pending_reload := true;
     _timer := Some (now + debounce_seconds self)%Z;
     reloads := reloads self |}.

(** [_trigger_immediate_reload], with [current_time] the clock reading. *)
Definition _trigger_immediate_reload (current_time : Z)
    (self : CommandFileHandler) : CommandFileHandler :=
  let time_since_last_reload := (current_time - _last_reload_time self)%Z in
  if (time_since_last_reload >=? debounce_seconds self)%Z then
    {| debounce_seconds := debounce_seconds self;
       _last_reload_time := current_time;
       _pending_reload := false;
       _timer := None;
       reloads := reloads self ++ [current_time] |}
  else _schedule_reload current_time self.

(** [on_created], [on_modified] and [on_deleted]: only events of [.md]
    files count. *)
Definition on_created (event : FsEvent) (now : Z) (self : CommandFileHandler)
  : CommandFileHandler :=
  if negb (is_directory event) && endswith (lit ".md") (src_path event)
  then _trigger_immediate_reload now self
  else self.

Definition on_modified (event : FsEvent) (now : Z) (self : CommandFileHandler)
  : CommandFileHandler :=
  if negb (is_directory event) && endswith (lit ".md") (src_path event)
  then _trigger_immediate_reload now self
  else self.

Definition on_deleted (event : FsEvent) (now : Z) (self : CommandFileHandler)
  : CommandFileHandler :=
  if negb (is_directory event) && endswith (lit ".md") (src_path event)
  then _trigger_immediate_reload now self
  else self.

(** The observer hands an event to the method for its kind. *)
Definition on_event (event : FsEvent) (now : Z) (self : CommandFileHandler)
  : CommandFileHandler :=
  match kind event with
  | Created => on_created event now self
  | Modified => on_modified event now self
  | Deleted => on_deleted event now self
  end.

(** Time passes up to [now]: a live timer that is due has fired, and its
    thread is through with [trigger_and_clear] before anything else
    happens.  Runs in which a callback is still at work when the next event
    is handled are not followed here. *)
Definition advance (now : Z) (self : CommandFileHandler) : CommandFileHandler :=
  match _timer self with
  | Some due => if (due <=? now)%Z then trigger_and_clear due self else self
  | None => self
  end.

(** The handler over a sequence of events, each with the time at which it
    is delivered. *)
Definition run (events : list (Z * FsEvent)) (self : CommandFileHandler)
  : CommandFileHandler :=
  foldl (fun h ev => on_event (snd ev) (fst ev) (advance (fst ev) h)) self events.

(** No more events: a live timer fires when it is due. *)
Definition settle (self : CommandFileHandler) : CommandFileHandler :=
  match _timer self with
  | Some due => trigger_and_clear due self
  | None => self
  end.

(** The events the handler reacts to. *)
Definition qualifies (event : FsEvent) : bool :=
  negb (is_directory event) && endswith (lit ".md") (src_path event).

(** A modification of a command file. *)
Definition md_event : FsEvent :=
  {| kind := Modified; is_directory := false;
     src_path := lit "/commands/sp.test.md" |}.

(** Events one after the other, each less than [w] after the one before. *)
Fixpoint spaced_closer (w : Z) (prev : Z) (times : list Z) : Prop :=
  match times with
  | [] => True
  | t :: rest => (prev <= t < prev + w)%Z ∧ spaced_closer w t rest
  end.

End Watcher.

(** ** Sample data *)

Module Samples.
Import Registry Handler.

Definition sample_metadata : CommandMetadata :=
  {| description := lit "x"; handoffs := [] |}.

(** A command with the placeholder in its body. *)
Definition use_cmd : CommandDefinition :=
  {| name := lit "use"; file_path := lit "/commands/use.md";
     metadata := sample_metadata; content := lit "Use $ARGUMENTS";
     has_arguments := true; file_size := 40; last_modified := 0 |}.

(** A command without it. *)
Definition static_cmd : CommandDefinition :=
  {| name := lit "static"; file_path := lit "/commands/static.md";
     metadata := sample_metadata;
     content := lit "Static template without placeholders";
     has_arguments := false; file_size := 60; last_modified := 0 |}.

Definition sample_registry : CommandRegistry :=
  register static_cmd (register use_cmd init).

Definition fresh_cmd : CommandDefinition :=
  {| name := lit "fresh"; file_path := lit "/commands/fresh.md";
     metadata := sample_metadata; content := lit "New";
     has_arguments := false; file_size := 30; last_modified := 1 |}.

(** The dictionary that a reload brings. *)
Definition reloaded : gmap (list N) CommandDefinition :=
  {[ lit "fresh" := fresh_cmd ]}.

(** One thread reloads while two others read; the readers come in at
    different points of [update_all], and one has to wait for the lock. *)
Definition sample_threads : list (list Concurrent.action) :=
  [ Concurrent.call_update_all reloaded;
    Concurrent.call_get (lit "use");
    Concurrent.call_list_commands ].

Definition sample_schedule : list nat :=
  [1; 1; 0; 1; 0; 2; 0; 0; 2; 0; 0; 2; 2; 2]%nat.

(** [n] copies of a character, [n] given in binary. *)
Definition repeat_char (c : N) (n : N) : list N := repeat c (N.to_nat n).

(** A file with a description in its front matter and the given body. *)
Definition valid_entry (nm body : string) : Loader.DirEntry :=
  {| Loader.entry_name := lit nm;
     Loader.entry_load := Ok ([(YStr (lit "description"), YStr (lit "x"))], lit body);
     Loader.entry_stat := Ok (40, 0)%Z;
     Loader.entry_datetime := Ok 0%Z |}.

(** A file whose front matter is not YAML. *)
Definition malformed_entry (nm : string) : Loader.DirEntry :=
  {| Loader.entry_name := lit nm;
     Loader.entry_load := Raise (YAMLError (lit "mapping values are not allowed here"));
     Loader.entry_stat := Ok (12, 0)%Z;
     Loader.entry_datetime := Ok 0%Z |}.

(** A file without front matter. *)
Definition bare_entry (nm body : string) : Loader.DirEntry :=
  {| Loader.entry_name := lit nm;
     Loader.entry_load := Ok ([], lit body);
     Loader.entry_stat := Ok (12, 0)%Z;
     Loader.entry_datetime := Ok 0%Z |}.

Definition sample_loader : Loader.CommandLoader :=
  {| Loader.commands_dir := lit "/commands" |}.

Definition sample_directory : Loader.Directory :=
  {| Loader.cwd := lit "/";
     Loader.entries :=
       [ malformed_entry "bad.md";
         valid_entry "a.b.md" "Hello $ARGUMENTS";
         bare_entry "plain.md" "Just markdown.";
         valid_entry "notes.txt" "not a command";
         valid_entry "1abc.md" "bad name";
         valid_entry "cmd_v2.md" "Static" ] |}.

(** Two files whose names differ by a leading space. *)
Definition collision_directory : Loader.Directory :=
  {| Loader.cwd := lit "/";
     Loader.entries :=
       [ valid_entry " a.md" "first"; valid_entry "a.md" "second" ] |}.

End Samples.

(** ** Front matter as the validator wants it *)

Module YamlSpec.
Import Yaml.

(** A string with something other than white space in it. *)
Definition NonBlank (v : yaml) : Prop :=
  ∃ s, v = YStr s ∧ strip s ≠ [].

(** A handoff: a dictionary with [label], [agent] and [prompt] that are
    non-blank strings, and with [send], if it is there, a boolean. *)
Definition WellFormedHandoff (h : yaml) : Prop :=
  ∃ d, h = YDict d
       ∧ (∃ v, dict_get (lit "label") d = Some v ∧ NonBlank v)
       ∧ (∃ v, dict_get (lit "agent") d = Some v ∧ NonBlank v)
       ∧ (∃ v, dict_get (lit "prompt") d = Some v ∧ NonBlank v)
       ∧ (dict_get (lit "send") d = None
          ∨ ∃ b, dict_get (lit "send") d = Some (YBool b)).

(** The handoffs: none, a list of handoffs, or an empty string, dictionary,
    set or byte string (which the loop passes over). *)
Definition WellFormedHandoffs (frontmatter : list (yaml * yaml)) : Prop :=
  match dict_get (lit "handoffs") frontmatter with
  | None => True
  | Some (YList l) => Forall WellFormedHandoff l
  | Some (YStr []) | Some (YDict []) | Some (YSet []) | Some (YBytes []) => True
  | Some _ => False
  end.

Definition WellFormed (frontmatter : list (yaml * yaml)) : Prop :=
  (∃ v, dict_get (lit "description") frontmatter = Some v ∧ NonBlank v)
  ∧ WellFormedHandoffs frontmatter.

(** The values of [handoffs] that are false and cannot be iterated over. *)
Definition not_iterable (h : yaml) : Prop :=
  h = YNull ∨ h = YBool false ∨ h = YInt 0 ∨ h = YFloat false.

End YamlSpec.

(** ** validators.py and models.py: the size checks *)

Module SizeChecks.

(** [isinstance(e, ValueError)]: the Unicode errors and the validation
    error of pydantic are subclasses of [ValueError]. *)
Definition is_ValueError (e : exn) : bool :=
  match e with
  | ValueError _ | ValidationError _ | UnicodeEncodeError _
  | UnicodeDecodeError _ => true
  | _ => false
  end.

(** [validate_file_size]; [max_size] defaults to
    [MAX_INPUT_SIZE_BYTES]. *)
Definition validate_file_size (size : Z) (max_size : option Z) : result Z :=
  let max_size := default MAX_INPUT_SIZE_BYTES max_size in
  if (size >? max_size)%Z then Raise (InputTooLargeError size max_size)
  else Ok size.

(** [validate_input_text] *)
Definition validate_input_text (text : option (list N)) : result (option (list N)) :=
  match text with
  | None => Ok None
  | Some t =>
      let* bytes := utf8_encode t in
      let size := len bytes in
      let* _ := validate_file_size size None in
      Ok (Some t)
  end.

(** The text of the [ValueError] of [validate_input_size]. *)
Definition size_message (size : Z) : list N :=
  lit "Input exceeds maximum allowed size. "
  ++ lit "Size: " ++ Fmt.str_of_size size ++ lit " bytes, maximum: "
  ++ Fmt.str_of_size MAX_INPUT_SIZE_BYTES ++ lit " bytes (100KB)".

(** [PromptArguments.validate_input_size], the validator of the field
    [text]. *)
Definition validate_input_size (v : option (list N)) : result (option (list N)) :=
  match v with
  | None => Ok None
  | Some t =>
      let* bytes := utf8_encode t in
      let size := len bytes in
      if (size >? MAX_INPUT_SIZE_BYTES)%Z then
        Raise (ValueError (size_message size))
      else Ok (Some t)
  end.

End SizeChecks.

(** ** Occurrences anywhere in a text *)

Module Occurrences.
Import Handler SanitizeSpec.

(** A brace occurrence starts somewhere in [s]. *)
Fixpoint any_brace (s : list N) : bool :=
  brace_here s ||
  match s with
  | [] => false
  | _ :: t => any_brace t
  end.

(** Every occurrence of the placeholder in [s] has a backslash directly
    before it; [prev] is the character before [s], if there is one. *)
Fixpoint guarded (prev : option N) (s : list N) : bool :=
  match s with
  | [] => true
  | c :: t =>
      (negb (args_here s) || match prev with Some 92 => true | _ => false end)
      && guarded (Some c) t
  end.

End Occurrences.

(** ** Front matter and the metadata made from it *)

Module MetadataSpec.
Import Yaml Models.

(** Every key of the dictionary is a string. *)
Definition string_keys (d : list (yaml * yaml)) : Prop :=
  forallb (fun kv => is_str (fst kv)) d = true.

(** [handoffs] is missing, a list or a set. *)
Definition handoffs_listed (d : list (yaml * yaml)) : Prop :=
  dict_get (lit "handoffs") d = None
  ∨ ∃ l, dict_get (lit "handoffs") d = Some (YList l)
         ∨ dict_get (lit "handoffs") d = Some (YSet l).

(** The items of [handoffs], none when it is missing. *)
Definition handoff_items (d : list (yaml * yaml)) : list yaml :=
  match dict_get (lit "handoffs") d with
  | Some (YList l) | Some (YSet l) => l
  | _ => []
  end.

(** The link holds the fields of the handoff; [send] is false when the
    handoff has none. *)
Definition handoff_of (h : yaml) (link : HandoffLink) : Prop :=
  ∃ d, h = YDict d
       ∧ dict_get (lit "label") d = Some (YStr (label link))
       ∧ dict_get (lit "agent") d = Some (YStr (agent link))
       ∧ dict_get (lit "prompt") d = Some (YStr (prompt link))
       ∧ send link = match dict_get (lit "send") d with
                     | Some (YBool b) => b
                     | _ => false
                     end.

End MetadataSpec.

(** ** Threads that call any of the methods of the registry *)

Module ConcurrentSpec.
Import Registry Concurrent.

(** A call of one of the six methods of [CommandRegistry]. *)
Definition registry_call (p : list action) : Prop :=
  (∃ command, p = call_register command)
  ∨ (∃ nm, p = call_get nm)
  ∨ p = call_list_commands
  ∨ (∃ commands, p = call_update_all commands)
  ∨ p = call_clear
  ∨ p = call_count.

(** The number of actions in a list of programs. *)
Fixpoint actions (programs : list (list action)) : nat :=
  match programs with
  | [] => 0
  | p :: rest => length p + actions rest
  end.

(** The number of steps the threads still have to take. *)
Definition remaining (c : config) : nat := actions (todo <$> threads c).

End ConcurrentSpec.

(** ** Runs of the watcher over events in the order of time *)

Module WatcherSpec.
Import Watcher.

(** The times do not go back, starting from [prev]. *)
Fixpoint in_order (prev : Z) (times : list Z) : Prop :=
  match times with
  | [] => True
  | t :: rest => (prev <= t)%Z ∧ in_order t rest
  end.

End WatcherSpec.

(** ** server.py *)

Module Server.
Import Registry Handler Loader.

(** What leaves a prompt handler: the [RuntimeError] of the handler itself
    or an exception of [process_prompt]. *)
Inductive server_exn : Type :=
| RuntimeError (msg : list N)
| Raised (e : exn).

(** The global components of the server.  [_registry] is one object from
    start to end; the [PromptHandler] in [_handler] holds that object, so
    [_handler] is known by whether it has been set.  [mcp_prompts] lists
    the calls of [mcp.prompt], oldest first, each with the name and the
    description it was given.  The watcher has its own state (see
    [Watcher]). *)
Record ServerState : Type := {
  _loader : option CommandLoader;
  _registry : CommandRegistry;
  _handler : bool;
  mcp_prompts : list (list N * list N)
}.

(** [reload_commands], with the directory as it is at the time of the
    call. *)
Definition reload_commands (fs : Directory) (s : ServerState) : ServerState :=
  match _loader s with
  | None => s
  | Some loader =>
      match load_all_commands loader fs with
      | Ok commands =>
          {| _loader := _loader s;
             _registry := update_all commands (_registry s);
             _handler := _handler s;
             mcp_prompts := mcp_prompts s |}
      | Raise _ => s
      end
  end.

(** The loop of [register_prompts]: one call of [mcp.prompt] for every
    listed name for which [get] gives a command. *)
Definition register_prompts (s : ServerState) : ServerState :=
  let command_names := list_commands (_registry s) in
  {| _loader := _loader s;
     _registry := _registry s;
     _handler := _handler s;
     mcp_prompts :=
       mcp_prompts s
       ++ omap (fun nm =>
                  match get nm (_registry s) with
                  | Some command => Some (nm, description (metadata command))
                  | None => None
                  end) command_names |}.

(** [get_prompt_handler], the function registered for the name
    [_cmd_name]; it answers with one message, given as role and content. *)
Definition get_prompt_handler (s : ServerState) (_cmd_name : list N)
    (arguments : option (list N))
  : list (list N * list N) + server_exn :=
  if negb (_handler s) then
    inr (RuntimeError (lit "PromptHandler not initialized"))
  else
    match process_prompt (_registry s) _cmd_name arguments with
    | Ok content => inl [(lit "user", content)]
    | Raise e => inr (Raised e)
    end.

(** [on_shutdown], as far as loader and registry go. *)
Definition on_shutdown (s : ServerState) : ServerState :=
  {| _loader := None;
     _registry := clear (_registry s);
     _handler := _handler s;
     mcp_prompts := mcp_prompts s |}.

End Server.

(* ================================================================== *)
(** * Properties *)

Example replace_ex :
  str_replace (lit "$ARGUMENTS") (lit "\$ARGUMENTS") (lit "a $ARGUMENTS b$ARGUMENTS")
  = lit "a \$ARGUMENTS b\$ARGUMENTS".
Proof. reflexivity. Qed.

Example sanitize_ex1 :
  Handler.sanitize_input (lit "Use $ARGUMENTS in ${HOME} directory")
  = lit "Use \$ARGUMENTS in \${HOME} directory".
Proof. reflexivity. Qed.

Example sanitize_ex2 :
  Handler.sanitize_input (lit "${a${b}") = lit "\${a${b}".
Proof. reflexivity. Qed.

Example sanitize_ex3 :
  Handler.sanitize_input (lit "${}") = lit "${}".
Proof. reflexivity. Qed.

Example escape_pass_ex :
  SanitizeSpec.escape_pass false (lit "x ${a${b} $ARGUMENTS ${} ${q}")
  = lit "x \${a${b} \$ARGUMENTS ${} \${q}".
Proof. reflexivity. Qed.

(** ** Strings *)

#[local] Arguments N.eqb : simpl never.
#[local] Arguments N.leb : simpl never.
#[local] Arguments N.ltb : simpl never.
#[local] Arguments has_char : simpl never.

Section StrLemmas.

Lemma has_char_cons (c x : N) (t : list N) :
  has_char c (x :: t) = (c =? x) || has_char c t.
Proof. reflexivity. Qed.

Lemma has_char_app (c : N) (a b : list N) :
  has_char c (a ++ b) = has_char c a || has_char c b.
Proof. apply existsb_app. Qed.

Lemma startswith_app (p s : list N) :
  startswith p s = true → s = p ++ drop (length p) s.
Proof.
  revert s. induction p as [|x p IH]; intros [|y s] H; simpl in *; try done.
  apply andb_true_iff in H as [Hxy Hp]. apply N.eqb_eq in Hxy. subst y.
  f_equal. by apply IH.
Qed.

Lemma startswith_app_r (p r : list N) : startswith p (p ++ r) = true.
Proof.
  induction p as [|x p IH]; simpl; [done|]. by rewrite N.eqb_refl.
Qed.

(** A pattern without [c] cannot reach across a [c]. *)
Lemma startswith_across (p x : list N) (c : N) (r : list N) :
  has_char c p = false → startswith p (x ++ c :: r) = startswith p x.
Proof.
  revert x. induction p as [|a p IH]; intros x Hc; [done|].
  simpl in Hc. apply orb_false_iff in Hc as [Hca Hp].
  destruct x as [|b x]; simpl.
  - rewrite N.eqb_sym, Hca. done.
  - by rewrite IH.
Qed.

Lemma str_replace_cons (o : N) (old' new : list N) (c : N) (t : list N) :
  str_replace (o :: old') new (c :: t) =
  if startswith (o :: old') (c :: t)
  then new ++ str_replace (o :: old') new (drop (length old') t)
  else c :: str_replace (o :: old') new t.
Proof.
  simp str_replace. destruct (startswith (o :: old') (c :: t)); reflexivity.
Qed.

Lemma str_replace_nil (o : N) (old' new : list N) : str_replace (o :: old') new [] = [].
Proof. by simp str_replace. Qed.

Lemma re_sub_brace_cons (c : N) (t : list N) :
  re_sub_brace (c :: t) =
  match match_brace (c :: t) with
  | Some body => brace_template body ++ re_sub_brace (drop (length body + 2) t)
  | None => c :: re_sub_brace t
  end.
Proof.
  simp re_sub_brace. destruct (match_brace (c :: t)); reflexivity.
Qed.

End StrLemmas.

(** ** The two passes of [sanitize_input] *)

Section SanitizeLemmas.
Import Handler SanitizeSpec.

Local Abbreviation R := (str_replace ARGUMENTS ESCAPED_ARGUMENTS).

Local Abbreviation TAIL := [65; 82; 71; 85; 77; 69; 78; 84; 83].

Lemma args_here_inv (s : list N) :
  args_here s = true → ∃ r, s = 36 :: TAIL ++ r.
Proof.
  intros H. apply startswith_app in H. eexists. exact H.
Qed.

Lemma args_here_head (c : N) (t : list N) : c ≠ 36 → args_here (c :: t) = false.
Proof.
  intros Hc. unfold args_here, ARGUMENTS.
  change (startswith (36 :: TAIL) (c :: t))
    with ((36 =? c) && startswith TAIL t).
  apply N.eqb_neq in Hc. rewrite N.eqb_sym, Hc. done.
Qed.

Lemma replace_other (c : N) (t : list N) :
  args_here (c :: t) = false → R (c :: t) = c :: R t.
Proof.
  intros H. unfold ARGUMENTS at 1. rewrite str_replace_cons.
  fold ARGUMENTS. unfold args_here in H. by rewrite H.
Qed.

Lemma replace_tail (r : list N) : R (TAIL ++ r) = TAIL ++ R r.
Proof.
  cbn [app]. repeat (rewrite replace_other; [f_equal | by apply args_here_head]).
Qed.

(** [str.replace] seen as putting a backslash before each occurrence. *)
Lemma replace_insert (c : N) (t : list N) :
  R (c :: t) = (if args_here (c :: t) then [92] else []) ++ c :: R t.
Proof.
  destruct (args_here (c :: t)) eqn:H.
  - destruct (args_here_inv _ H) as [r Hr].
    assert (c = 36 ∧ t = TAIL ++ r) as [-> ->] by (split; congruence).
    rewrite replace_tail.
    unfold ARGUMENTS at 1. rewrite str_replace_cons.
    fold ARGUMENTS. unfold args_here in H. rewrite H.
    change (drop _ (TAIL ++ r)) with r. reflexivity.
  - by rewrite replace_other.
Qed.

Lemma replace_nil : R [] = [].
Proof. reflexivity. Qed.

Lemma replace_has_close (s : list N) : has_char 125 (R s) = has_char 125 s.
Proof.
  induction s as [|c t IH].
  - done.
  - rewrite replace_insert.
    destruct (args_here (c :: t)); cbn [app]; rewrite !has_char_cons, IH; done.
Qed.

Lemma replace_brace_tail (u : list N) : brace_tail (R u) = brace_tail u.
Proof.
  destruct u as [|x v]; [done|].
  rewrite replace_insert. destruct (args_here (x :: v)) eqn:H; cbn.
  - destruct (args_here_inv _ H) as [r Hr].
    assert (x = 36) as -> by congruence.
    rewrite has_char_cons, replace_has_close. reflexivity.
  - by rewrite replace_has_close.
Qed.

Lemma replace_brace_here (c : N) (t : list N) :
  brace_here (c :: R t) = brace_here (c :: t).
Proof.
  destruct t as [|d u]; [done|].
  rewrite replace_insert. destruct (args_here (d :: u)) eqn:H; cbn.
  - destruct (args_here_inv _ H) as [r Hr].
    assert (d = 36) as -> by congruence.
    change (92 =? 123) with false. change (36 =? 123) with false.
    by rewrite !andb_false_r.
  - by rewrite replace_brace_tail.
Qed.

Lemma span_until_spec (c : N) (s a b : list N) :
  span_until c s = (a, b) →
  s = a ++ b ∧ has_char c a = false ∧ (b = [] ∨ ∃ b', b = c :: b').
Proof.
  revert a b. induction s as [|x t IH]; intros a b H; simpl in H.
  - injection H as <- <-. auto.
  - destruct (x =? c) eqn:Hx.
    + injection H as <- <-. apply N.eqb_eq in Hx. subst. eauto.
    + destruct (span_until c t) as [a' b'] eqn:Ht. injection H as <- <-.
      destruct (IH _ _ eq_refl) as (-> & Ha & Hb).
      rewrite has_char_cons, N.eqb_sym, Hx, Ha. auto.
Qed.

Lemma span_until_app (c : N) (x r : list N) :
  has_char c x = false → span_until c (x ++ c :: r) = (x, c :: r).
Proof.
  induction x as [|y x IH]; intros H; simpl.
  - by rewrite N.eqb_refl.
  - rewrite has_char_cons in H. apply orb_false_iff in H as [Hy Hx].
    rewrite N.eqb_sym, Hy, IH; done.
Qed.

Lemma match_brace_Some (s body : list N) :
  match_brace s = Some body →
  ∃ rest, s = 36 :: 123 :: body ++ 125 :: rest
          ∧ body ≠ [] ∧ has_char 125 body = false.
Proof.
  destruct s as [|d [|b u]]; simpl; try done.
  destruct ((d =? 36) && (b =? 123)) eqn:Hdb; [|done].
  apply andb_true_iff in Hdb as [->%N.eqb_eq ->%N.eqb_eq].
  destruct (span_until 125 u) as [[|x bd] [|y r]] eqn:Hu; try done.
  intros [= <-]. apply span_until_spec in Hu as (-> & Hb & [?|[r' [= -> ->]]]);
    [done|]. eauto.
Qed.

Lemma match_brace_here (s : list N) :
  brace_here s = bool_decide (is_Some (match_brace s)).
Proof.
  destruct s as [|d [|b u]]; try done.
  unfold brace_here, match_brace.
  destruct ((d =? 36) && (b =? 123)) eqn:Hdb; [|done]. cbn [andb].
  destruct (span_until 125 u) as [a c] eqn:Hu.
  apply span_until_spec in Hu as (-> & Ha & Hc).
  destruct a as [|x a].
  - destruct Hc as [->|[c' ->]]; [done|]. cbn. by rewrite N.eqb_refl.
  - rewrite has_char_cons in Ha. apply orb_false_iff in Ha as [Hx Ha].
    cbn [app brace_tail]. rewrite N.eqb_sym, Hx, has_char_app, Ha. cbn.
    destruct Hc as [->|[c' ->]]; [done|].
    by rewrite has_char_cons, N.eqb_refl.
Qed.

Lemma brace_here_head (c : N) (t : list N) : c ≠ 36 → brace_here (c :: t) = false.
Proof.
  intros Hc%N.eqb_neq. destruct t; [done|]. unfold brace_here. by rewrite Hc.
Qed.

(** Inside an escaped occurrence nothing is added up to its closing brace. *)
Lemma brace_pass_body (x rest : list N) :
  has_char 125 x = false →
  brace_pass true (x ++ 125 :: rest) = x ++ 125 :: brace_pass false rest.
Proof.
  induction x as [|y x IH]; intros H.
  - cbn. by rewrite N.eqb_refl.
  - rewrite has_char_cons in H. apply orb_false_iff in H as [Hy Hx].
    cbn. rewrite N.eqb_sym, Hy. by rewrite IH.
Qed.

(** [re.sub] on the brace pattern is the pass [brace_pass]. *)
Lemma re_sub_brace_pass (s : list N) : re_sub_brace s = brace_pass false s.
Proof.
  induction s as [s IH] using (induction_ltof1 _ (@length N)).
  unfold ltof in IH. destruct s as [|c t]; [by simp re_sub_brace|].
  rewrite re_sub_brace_cons.
  cbn [brace_pass]. rewrite (match_brace_here (c :: t)).
  destruct (match_brace (c :: t)) as [body|] eqn:Hm.
  - destruct (match_brace_Some _ _ Hm) as (rest & Hs & Hne & Hb).
    injection Hs as -> ->.
    rewrite bool_decide_true by eauto. cbn [negb andb orb app].
    change (36 =? 125) with false. cbn iota.
    replace (drop (length body + 2) (123 :: body ++ 125 :: rest)) with rest.
    2:{ rewrite Nat.add_comm. cbn [Nat.add drop].
        assert (body ++ 125 :: rest = (body ++ [125]) ++ rest) as ->
          by (by rewrite <- app_assoc).
        replace (S (length body)) with (length (body ++ [125]))
          by (rewrite length_app; cbn; lia).
        by rewrite drop_app_length. }
    rewrite IH by (cbn; rewrite length_app; cbn; lia).
    cbn [brace_pass]. rewrite (brace_here_head 123) by done.
    change (123 =? 125) with false. cbn [negb andb orb app].
    rewrite brace_pass_body by done.
    unfold brace_template. cbn [app]. by rewrite <- app_assoc.
  - rewrite bool_decide_false by (intros [? ?]; done).
    cbn [negb andb orb app]. rewrite IH by (cbn; lia).
    by destruct (c =? 125).
Qed.

(** The two passes of the code are the one pass of [escape_pass]. *)
Lemma brace_pass_replace (inside : bool) (s : list N) :
  brace_pass inside (R s) = escape_pass inside s.
Proof.
  revert inside. induction s as [|c t IH]; intros inside; [done|].
  rewrite replace_insert. cbn [escape_pass].
  destruct (args_here (c :: t)) eqn:H.
  - destruct (args_here_inv _ H) as [r Hr].
    assert (c = 36 ∧ t = TAIL ++ r) as [-> ->] by (split; congruence).
    cbn [app brace_pass orb].
    rewrite (brace_here_head 92) by done. rewrite replace_brace_here.
    change (brace_here (36 :: TAIL ++ r)) with false.
    change (92 =? 125) with false. change (36 =? 125) with false.
    rewrite !andb_false_r, !orb_false_r. cbn [app]. by rewrite IH.
  - cbn [app brace_pass orb]. rewrite replace_brace_here. by rewrite IH.
Qed.

Lemma sanitize_input_escape_pass (text : list N) :
  sanitize_input text = escape_pass false text.
Proof.
  unfold sanitize_input. by rewrite re_sub_brace_pass, brace_pass_replace.
Qed.

Lemma esc_head (inside : bool) (c : N) (t : list N) :
  args_here (c :: t) || (negb inside && brace_here (c :: t)) = true → c = 36.
Proof.
  destruct (decide (c = 36)) as [|Hc]; [done|].
  by rewrite args_here_head, brace_here_head, andb_false_r.
Qed.

(** [escape_pass] only adds backslashes, each before a dollar sign. *)
Lemma escape_pass_Escaped (inside : bool) (s : list N) :
  Escaped (escape_pass inside s) s.
Proof.
  revert inside. induction s as [|c t IH]; intros inside; [constructor|].
  cbn [escape_pass].
  destruct (args_here (c :: t) || (negb inside && brace_here (c :: t))) eqn:E.
  - apply esc_head in E as ->. cbn [app]. apply Escaped_esc, IH.
  - apply Escaped_keep, IH.
Qed.

(** What comes before an empty pair of braces is escaped on its own; the
    pair is copied and the pass starts afresh behind it. *)
Lemma escape_pass_empty_braces (inside : bool) (pre post : list N) :
  ∃ e, Escaped e pre ∧
       escape_pass inside (pre ++ 36 :: 123 :: 125 :: post)
       = e ++ 36 :: 123 :: 125 :: escape_pass false post.
Proof.
  revert inside. induction pre as [|c p IH]; intros inside.
  - exists []. split; [constructor|].
    cbn [app escape_pass].
    change (args_here (36 :: 123 :: 125 :: post)) with false.
    change (brace_here (36 :: 123 :: 125 :: post)) with false.
    change (args_here (123 :: 125 :: post)) with false.
    change (brace_here (123 :: 125 :: post)) with false.
    rewrite (args_here_head 125) by done.
    rewrite (brace_here_head 125) by done.
    by rewrite N.eqb_refl, !andb_false_r.
  - cbn [app escape_pass].
    set (inside' := if c =? 125 then false else _).
    destruct (IH inside') as (e & He & ->).
    destruct (args_here _ || _) eqn:E.
    + apply esc_head in E as ->. exists (92 :: 36 :: e).
      split; [by constructor|done].
    + exists (c :: e). split; [by constructor|done].
Qed.

Lemma brace_here_iff (s : list N) : brace_here s = true ↔ BraceOccurrence s.
Proof.
  rewrite match_brace_here, bool_decide_eq_true. split.
  - intros [body Hb]. destruct (match_brace_Some _ _ Hb) as (rest & -> & ? & Hc).
    exists body, rest. split_and!; [done..|].
    intros Hin. apply not_true_iff_false in Hc. apply Hc.
    unfold has_char. apply existsb_exists. exists 125.
    split; [by apply list_elem_of_In|apply N.eqb_refl].
  - intros (body & rest & -> & Hne & Hnot). exists body.
    unfold match_brace. cbn [andb]. rewrite !N.eqb_refl. cbn [andb].
    rewrite span_until_app.
    + destruct body; done.
    + apply not_true_iff_false. intros (x & Hx & Heq%N.eqb_eq)%existsb_exists.
      subst x. by apply Hnot, list_elem_of_In.
Qed.

Lemma args_here_iff (s : list N) :
  args_here s = true ↔ ∃ r, s = ARGUMENTS ++ r.
Proof.
  split.
  - intros H. apply args_here_inv in H as [r ->]. by exists r.
  - intros [r ->]. apply startswith_app_r.
Qed.

End SanitizeLemmas.

(** ** The registry in one thread *)

Section RegistryLemmas.
Import Registry.

Lemma str_leb_refl (a : list N) : str_leb a a = true.
Proof.
  induction a as [|x a IH]; [done|]. cbn. by rewrite N.ltb_irrefl, N.eqb_refl.
Qed.

Lemma str_leb_total (a b : list N) : str_leb a b = true ∨ str_leb b a = true.
Proof.
  revert b. induction a as [|x a IH]; intros [|y b]; cbn; auto.
  destruct (N.ltb_spec x y), (N.ltb_spec y x); auto; try lia.
  assert (x = y) as -> by lia. rewrite N.eqb_refl. apply IH.
Qed.

Lemma str_leb_trans (a b c : list N) :
  str_leb a b = true → str_leb b c = true → str_leb a c = true.
Proof.
  revert b c. induction a as [|x a IH]; intros [|y b] [|z c]; cbn; try done.
  destruct (N.ltb_spec x y), (N.ltb_spec y z), (N.ltb_spec x z),
    (N.eqb_spec x y), (N.eqb_spec y z), (N.eqb_spec x z);
    try done; try lia.
  apply IH.
Qed.

Lemma str_leb_antisym (a b : list N) :
  str_leb a b = true → str_leb b a = true → a = b.
Proof.
  revert b. induction a as [|x a IH]; intros [|y b]; cbn; try done.
  destruct (N.ltb_spec x y), (N.ltb_spec y x), (N.eqb_spec x y), (N.eqb_spec y x);
    try done; try lia.
  subst. intros. f_equal. by apply IH.
Qed.

#[local] Instance str_le_total : Total str_le.
Proof.
  intros a b. unfold str_le. rewrite !Is_true_true. apply str_leb_total.
Qed.

#[local] Instance str_le_trans : Transitive str_le.
Proof.
  intros a b c. unfold str_le. rewrite !Is_true_true. apply str_leb_trans.
Qed.

#[local] Instance str_le_antisym : AntiSymm eq str_le.
Proof.
  intros a b. unfold str_le. rewrite !Is_true_true. apply str_leb_antisym.
Qed.

Lemma sorted_Permutation (l : list (list N)) : sorted l ≡ₚ l.
Proof. apply merge_sort_Permutation. Qed.

Lemma sorted_StronglySorted (l : list (list N)) : StronglySorted str_le (sorted l).
Proof. apply StronglySorted_merge_sort; apply _. Qed.

Lemma elem_of_keys (d : gmap (list N) CommandDefinition) (k : list N) :
  k ∈ keys d ↔ is_Some (d !! k).
Proof.
  unfold keys. rewrite list_elem_of_fmap. split.
  - intros [[k' v] [-> Hin]]. apply elem_of_map_to_list in Hin. eauto.
  - intros [v Hv]. exists (k, v). split; [done|]. by apply elem_of_map_to_list.
Qed.

Lemma NoDup_keys (d : gmap (list N) CommandDefinition) : NoDup (keys d).
Proof. apply NoDup_fst_map_to_list. Qed.

Lemma length_keys (d : gmap (list N) CommandDefinition) : length (keys d) = size d.
Proof. unfold keys. by rewrite length_fmap, length_map_to_list. Qed.

Lemma elem_of_list_commands (self : CommandRegistry) (k : list N) :
  k ∈ list_commands self ↔ is_Some (get k self).
Proof.
  unfold list_commands, get. rewrite sorted_Permutation. apply elem_of_keys.
Qed.

Lemma NoDup_list_commands (self : CommandRegistry) : NoDup (list_commands self).
Proof.
  unfold list_commands. rewrite sorted_Permutation. apply NoDup_keys.
Qed.

Lemma length_list_commands (self : CommandRegistry) :
  Z.of_nat (length (list_commands self)) = count self.
Proof.
  unfold list_commands, count. by rewrite sorted_Permutation, length_keys.
Qed.

End RegistryLemmas.

(** ** The handler *)

Section HandlerLemmas.
Import Registry Handler SanitizeSpec.

Lemma CommandNotFoundError_init_Some (nm : list N) (l : list (list N)) :
  CommandNotFoundError_init nm (Some l) = CommandNotFoundError nm l.
Proof. by destruct l. Qed.

(** [process_prompt] on a command that is there, with an input whose
    encoding is known. *)
Lemma process_prompt_Some (registry : CommandRegistry) (nm : list N)
    (cmd : CommandDefinition) (u bytes : list N) :
  get nm registry = Some cmd →
  utf8_encode u = Ok bytes →
  process_prompt registry nm (Some u) =
  if (len bytes >? MAX_INPUT_SIZE_BYTES)%Z
  then Raise (InputTooLargeError (len bytes) MAX_INPUT_SIZE_BYTES)
  else if has_arguments cmd
       then Ok (str_replace ARGUMENTS (sanitize_input u) (content cmd))
       else Ok (content cmd).
Proof.
  intros Hget Hu. unfold process_prompt. rewrite Hget, Hu. cbn [bind].
  destruct (len bytes >? MAX_INPUT_SIZE_BYTES)%Z; [done|]. cbn [bind].
  by destruct (has_arguments cmd).
Qed.

Lemma process_prompt_unencodable (registry : CommandRegistry) (nm : list N)
    (cmd : CommandDefinition) (u : list N) (e : exn) :
  get nm registry = Some cmd →
  utf8_encode u = Raise e →
  process_prompt registry nm (Some u) = Raise e.
Proof.
  intros Hget Hu. unfold process_prompt. by rewrite Hget, Hu.
Qed.

Lemma process_prompt_None (registry : CommandRegistry) (nm : list N)
    (cmd : CommandDefinition) :
  get nm registry = Some cmd →
  process_prompt registry nm None = Ok (content cmd).
Proof.
  intros Hget. unfold process_prompt. rewrite Hget. cbn [bind].
  by destruct (has_arguments cmd).
Qed.

(** Encoding fails on a surrogate and in no other way. *)
Lemma utf8_encode_Raise (u : list N) (e : exn) :
  utf8_encode u = Raise e → ∃ msg, e = UnicodeEncodeError msg.
Proof.
  induction u as [|c t IH]; [done|]. cbn [utf8_encode].
  destruct (utf8_encode_char c) as [b|e'] eqn:Hc; cbn [bind].
  - destruct (utf8_encode t); cbn [bind]; [done|]. intros [= <-]. by apply IH.
  - intros [= <-]. unfold utf8_encode_char in Hc.
    destruct (c <? 128); [done|]. destruct (c <? 2048); [done|].
    destruct ((55296 <=? c) && (c <=? 57343)); [injection Hc as <-; eauto|].
    destruct (c <? 65536); done.
Qed.

(** Replacing a string that does not occur changes nothing. *)
Lemma str_replace_absent (o : N) (old' new s : list N) :
  contains (o :: old') s = false → str_replace (o :: old') new s = s.
Proof.
  induction s as [|c t IH]; intros H; [by simp str_replace|].
  rewrite str_replace_cons. cbn [contains] in H.
  apply orb_false_iff in H as [-> Ht]. by rewrite IH.
Qed.

End HandlerLemmas.

(** ** Claims about the handler *)

Section HandlerClaims.
Import Registry Handler SanitizeSpec Samples.

(** C1.  [sanitize_input] does not escape every occurrence of the brace
    pattern, as its docstring promises ("${...} patterns to prevent
    shell/environment variable access").  In ["${a${b}"] a second occurrence
    of the pattern, ["${b}"], starts inside the first one.  The code puts a
    backslash before the first occurrence only and returns ["\${a${b}"]
    with ["${b}"] as it was; escaping every occurrence puts a backslash
    before the second as well. *)
Lemma sanitize_input_not_every_occurrence :
  brace_here (lit "${a${b}") = true
  ∧ brace_here (drop 3 (lit "${a${b}")) = true
  ∧ sanitize_input (lit "${a${b}") = lit "\${a${b}"
  ∧ escape_every (lit "${a${b}") = lit "\${a\${b}"
  ∧ sanitize_input (lit "${a${b}") ≠ escape_every (lit "${a${b}").
Proof. split_and!; [reflexivity..|]. intros H. vm_compute in H. discriminate H. Qed.

(** What the code does, for reference: the two passes of [sanitize_input]
    come to one pass over the text without rescanning, which adds
    backslashes, each directly before a dollar sign, and changes nothing
    else.  An occurrence of the brace pattern that starts inside an earlier
    one is passed over. *)
Lemma sanitize_input_single_pass (text : list N) :
  sanitize_input text = escape_pass false text
  ∧ Escaped (sanitize_input text) text.
Proof.
  split; [apply sanitize_input_escape_pass|].
  rewrite sanitize_input_escape_pass. apply escape_pass_Escaped.
Qed.

(** C9.  The brace rule needs at least one character between the braces:
    [sanitize_input] returns ["${}"] as it is; wherever ["${}"] stands in a
    text it is copied without a backslash of its own; and it comes out of
    [process_prompt] unescaped. *)
Theorem sanitize_input_empty_braces :
  sanitize_input (lit "${}") = lit "${}"
  ∧ (∀ rest, match_brace (lit "${}" ++ rest) = None)
  ∧ (∀ s body, match_brace s = Some body → body ≠ [])
  ∧ (∀ pre post, ∃ e,
        Escaped e pre ∧
        sanitize_input (pre ++ lit "${}" ++ post)
        = e ++ lit "${}" ++ sanitize_input post)
  ∧ process_prompt sample_registry (lit "use") (Some (lit "${}"))
    = Ok (lit "Use ${}").
Proof.
  split_and!.
  - reflexivity.
  - intros rest. reflexivity.
  - intros s body H. by destruct (match_brace_Some _ _ H) as (? & _ & ? & _).
  - intros pre post.
    destruct (escape_pass_empty_braces false pre post) as (e & He & Heq).
    exists e. split; [done|].
    rewrite !sanitize_input_escape_pass. exact Heq.
  - vm_compute. reflexivity.
Qed.

(** C2.  For a registered command with [has_arguments] and an input within
    the size limit, [process_prompt] returns the body with [$ARGUMENTS]
    replaced by the sanitized input; for the body ["Use $ARGUMENTS"] and the
    input ["go to ${HOME} now"] that is ["Use go to \${HOME} now"]. *)
Theorem process_prompt_substitutes :
  (∀ registry nm cmd input bytes,
      get nm registry = Some cmd →
      has_arguments cmd = true →
      utf8_encode input = Ok bytes →
      (len bytes ≤ MAX_INPUT_SIZE_BYTES)%Z →
      process_prompt registry nm (Some input)
      = Ok (str_replace ARGUMENTS (sanitize_input input) (content cmd)))
  ∧ (∀ registry nm cmd,
      get nm registry = Some cmd →
      has_arguments cmd = true →
      content cmd = lit "Use $ARGUMENTS" →
      process_prompt registry nm (Some (lit "go to ${HOME} now"))
      = Ok (lit "Use go to \${HOME} now")).
Proof.
  assert (∀ registry nm cmd input bytes,
      get nm registry = Some cmd →
      has_arguments cmd = true →
      utf8_encode input = Ok bytes →
      (len bytes ≤ MAX_INPUT_SIZE_BYTES)%Z →
      process_prompt registry nm (Some input)
      = Ok (str_replace ARGUMENTS (sanitize_input input) (content cmd))) as G.
  { intros registry nm cmd input bytes Hget Hargs Hu Hsize.
    rewrite (process_prompt_Some _ _ _ _ _ Hget Hu), Hargs.
    destruct (Z.gtb_spec (len bytes) MAX_INPUT_SIZE_BYTES); [lia|done]. }
  split; [exact G|].
  intros registry nm cmd Hget Hargs Hbody.
  assert (utf8_encode (lit "go to ${HOME} now") = Ok (lit "go to ${HOME} now"))
    as Hu by (vm_compute; reflexivity).
  rewrite (G _ _ _ _ _ Hget Hargs Hu); [|by vm_compute].
  rewrite Hbody. vm_compute. reflexivity.
Qed.

Lemma process_prompt_substitutes_witness :
  get (lit "use") sample_registry = Some use_cmd
  ∧ has_arguments use_cmd = true
  ∧ content use_cmd = lit "Use $ARGUMENTS"
  ∧ process_prompt sample_registry (lit "use") (Some (lit "go to ${HOME} now"))
    = Ok (lit "Use go to \${HOME} now").
Proof.
  split_and!; [vm_compute; reflexivity | reflexivity | reflexivity |].
  apply (proj2 process_prompt_substitutes sample_registry (lit "use") use_cmd);
    [vm_compute; reflexivity | reflexivity | reflexivity].
Defined.

(** C5, as stated, fails.  The size check comes before the test of
    [has_arguments]: a command without the placeholder, called with an
    input of 102401 bytes, raises [InputTooLargeError]. *)
Lemma process_prompt_static_oversize :
  get (lit "static") sample_registry = Some static_cmd
  ∧ has_arguments static_cmd = false
  ∧ contains ARGUMENTS (content static_cmd) = false
  ∧ process_prompt sample_registry (lit "static") (Some (repeat_char 120 102401))
    = Raise (InputTooLargeError 102401 102400)
  ∧ process_prompt sample_registry (lit "static") (Some (repeat_char 120 102401))
    ≠ Ok (content static_cmd).
Proof.
  assert (process_prompt sample_registry (lit "static")
            (Some (repeat_char 120 102401))
          = Raise (InputTooLargeError 102401 102400)) as H
    by (vm_compute; reflexivity).
  split_and!; [vm_compute; reflexivity | reflexivity | reflexivity | exact H |].
  rewrite H. discriminate.
Qed.

(** C5, amended.  For a registered command without the placeholder
    ([has_arguments] false, or no [$ARGUMENTS] in the body),
    [process_prompt] returns the body unchanged when the input is absent
    and when it is present and within the size limit. *)
Theorem process_prompt_static (registry : CommandRegistry) (nm : list N)
    (cmd : CommandDefinition) (input : option (list N)) :
  get nm registry = Some cmd →
  has_arguments cmd = false ∨ contains ARGUMENTS (content cmd) = false →
  (input = None ∨
   ∃ u bytes, input = Some u ∧ utf8_encode u = Ok bytes
              ∧ (len bytes ≤ MAX_INPUT_SIZE_BYTES)%Z) →
  process_prompt registry nm input = Ok (content cmd).
Proof.
  intros Hget Hno [->|(u & bytes & -> & Hu & Hsize)].
  - by apply process_prompt_None.
  - rewrite (process_prompt_Some _ _ _ _ _ Hget Hu).
    destruct (Z.gtb_spec (len bytes) MAX_INPUT_SIZE_BYTES); [lia|].
    destruct Hno as [->|Hno]; [done|].
    destruct (has_arguments cmd); [|done].
    unfold ARGUMENTS in *. by rewrite str_replace_absent.
Qed.

Lemma process_prompt_static_witness :
  get (lit "static") sample_registry = Some static_cmd
  ∧ has_arguments static_cmd = false
  ∧ process_prompt sample_registry (lit "static") (Some (lit "ignored input"))
    = Ok (lit "Static template without placeholders").
Proof.
  split_and!; [vm_compute; reflexivity | reflexivity |].
  apply (process_prompt_static sample_registry (lit "static") static_cmd).
  - vm_compute; reflexivity.
  - left. reflexivity.
  - right. exists (lit "ignored input"), (lit "ignored input").
    split_and!; [reflexivity | vm_compute; reflexivity | by vm_compute].
Defined.

(** C6.  For a registered command and a given input, [process_prompt]
    raises [InputTooLargeError] exactly when the UTF-8 encoding of the input
    has more than 102400 bytes; 102400 bytes are accepted; 102401 bytes are
    refused with size 102401 and maximum 102400. *)
Theorem process_prompt_size_limit (registry : CommandRegistry) (nm : list N)
    (cmd : CommandDefinition) (input : list N) :
  get nm registry = Some cmd →
  ((∃ size max_size,
       process_prompt registry nm (Some input)
       = Raise (InputTooLargeError size max_size))
   ↔ ∃ bytes, utf8_encode input = Ok bytes ∧ (102400 < len bytes)%Z)
  ∧ (∀ bytes, utf8_encode input = Ok bytes → len bytes = 102400%Z →
       ∃ out, process_prompt registry nm (Some input) = Ok out)
  ∧ (∀ bytes, utf8_encode input = Ok bytes → len bytes = 102401%Z →
       process_prompt registry nm (Some input)
       = Raise (InputTooLargeError 102401 102400)).
Proof.
  intros Hget. split_and!.
  - split.
    + intros (size & max_size & H).
      destruct (utf8_encode input) as [bytes|e] eqn:Hu.
      * exists bytes. split; [done|].
        rewrite (process_prompt_Some _ _ _ _ _ Hget Hu) in H.
        destruct (Z.gtb_spec (len bytes) MAX_INPUT_SIZE_BYTES) as [Hgt|];
          [exact Hgt|].
        by destruct (has_arguments cmd).
      * rewrite (process_prompt_unencodable _ _ _ _ _ Hget Hu) in H.
        injection H as ->. by apply utf8_encode_Raise in Hu as [msg ?].
    + intros (bytes & Hu & Hlt).
      exists (len bytes), MAX_INPUT_SIZE_BYTES.
      rewrite (process_prompt_Some _ _ _ _ _ Hget Hu).
      destruct (Z.gtb_spec (len bytes) MAX_INPUT_SIZE_BYTES); [done|].
      unfold MAX_INPUT_SIZE_BYTES in *. lia.
  - intros bytes Hu Hlen.
    rewrite (process_prompt_Some _ _ _ _ _ Hget Hu), Hlen.
    change (102400 >? MAX_INPUT_SIZE_BYTES)%Z with false.
    destruct (has_arguments cmd); eauto.
  - intros bytes Hu Hlen.
    by rewrite (process_prompt_Some _ _ _ _ _ Hget Hu), Hlen.
Qed.

Lemma process_prompt_size_limit_witness :
  get (lit "use") sample_registry = Some use_cmd
  ∧ ((∃ size max_size,
        process_prompt sample_registry (lit "use") (Some (lit "abc"))
        = Raise (InputTooLargeError size max_size))
     ↔ ∃ bytes, utf8_encode (lit "abc") = Ok bytes ∧ (102400 < len bytes)%Z).
Proof.
  assert (get (lit "use") sample_registry = Some use_cmd) as Hget
    by (vm_compute; reflexivity).
  split; [exact Hget|].
  apply (process_prompt_size_limit sample_registry (lit "use") use_cmd _ Hget).
Defined.

(** 34134 euro signs are 34134 characters and 102402 bytes: the count is
    of bytes. *)
Example process_prompt_counts_bytes :
  len (repeat_char 8364 34134) = 34134%Z
  ∧ process_prompt sample_registry (lit "use") (Some (repeat_char 8364 34134))
    = Raise (InputTooLargeError 102402 102400).
Proof. split; vm_compute; reflexivity. Qed.

(** C8.  For a name that is not in the registry, [process_prompt] raises
    [CommandNotFoundError] with the list of all registered names, each
    once, in increasing lexicographic order. *)
Theorem process_prompt_not_found (registry : CommandRegistry) (nm : list N)
    (input : option (list N)) :
  get nm registry = None →
  process_prompt registry nm input
  = Raise (CommandNotFoundError nm (list_commands registry))
  ∧ StronglySorted str_le (list_commands registry)
  ∧ NoDup (list_commands registry)
  ∧ (∀ k, k ∈ list_commands registry ↔ is_Some (get k registry)).
Proof.
  intros Hget. split_and!.
  - unfold process_prompt. rewrite Hget.
    by rewrite CommandNotFoundError_init_Some.
  - apply sorted_StronglySorted.
  - apply NoDup_list_commands.
  - apply elem_of_list_commands.
Qed.

Lemma process_prompt_not_found_witness :
  get (lit "missing") sample_registry = None
  ∧ process_prompt sample_registry (lit "missing") (Some (lit "x"))
    = Raise (CommandNotFoundError (lit "missing") [lit "static"; lit "use"]).
Proof.
  assert (get (lit "missing") sample_registry = None) as Hget
    by (vm_compute; reflexivity).
  split; [exact Hget|].
  rewrite (proj1 (process_prompt_not_found sample_registry (lit "missing")
                    (Some (lit "x")) Hget)).
  vm_compute. reflexivity.
Defined.

End HandlerClaims.

(** ** The loader *)

Section LoaderLemmas.
Import Registry Validators Models Loader LoaderSpec.

Lemma lstrip_head (s : list N) (c : N) (t : list N) :
  lstrip s = c :: t → isspace c = false.
Proof.
  induction s as [|x s IH]; [done|]. cbn [lstrip].
  destruct (isspace x) eqn:Hx; [done|]. by intros [= <- <-].
Qed.

(** A stripped string does not end in white space. *)
Lemma strip_last (s : list N) (c : N) : last (strip s) = Some c → isspace c = false.
Proof.
  unfold strip. destruct (lstrip (rev (lstrip s))) as [|x t] eqn:E; [done|].
  cbn [rev]. rewrite last_snoc. intros [= <-]. by eapply lstrip_head.
Qed.

Lemma drop_name_chars_spec (t : list N) :
  ∃ a, t = a ++ drop_name_chars t ∧ Forall (fun x => is_name_char x = true) a.
Proof.
  induction t as [|x t (a & Ha & Hall)]; [by exists []|]. cbn [drop_name_chars].
  destruct (is_name_char x) eqn:Hx.
  - exists (x :: a). split; [cbn; by f_equal|by constructor].
  - by exists [].
Qed.

Lemma match_command_name_chars (k : list N) :
  match_command_name k = true → last k ≠ Some 10 →
  ∃ c t, k = c :: t ∧ is_ascii_letter c = true
         ∧ Forall (fun x => is_name_char x = true) t.
Proof.
  destruct k as [|c t]; [done|]. cbn [match_command_name].
  intros [Hc Hrest]%andb_true_iff Hlast. exists c, t. split_and!; [done..|].
  destruct (drop_name_chars_spec t) as (a & Ht & Hall).
  destruct (drop_name_chars t) as [|x [|y r]]; [|exfalso|done].
  - rewrite app_nil_r in Ht. by subst.
  - apply N.eqb_eq in Hrest as ->. apply Hlast.
    rewrite Ht, app_comm_cons. apply last_snoc.
Qed.

Lemma has_char_false (c : N) (s : list N) : has_char c s = false → c ∉ s.
Proof.
  intros H Hin. apply not_true_iff_false in H. apply H.
  apply existsb_exists. exists c. split; [by apply list_elem_of_In|apply N.eqb_refl].
Qed.

(** What the name check lets through. *)
Lemma name_validator_Ok (v k : list N) :
  name_validator v = Ok k → k = strip v ∧ ValidName k.
Proof.
  unfold name_validator. destruct (strip v) as [|c t] eqn:E; [done|].
  destruct (has_char 47 (c :: t) || has_char 92 (c :: t)) eqn:Hsep; [done|].
  destruct (match_command_name (c :: t)) eqn:Hm; [|done].
  cbn [negb]. intros [= <-]. split; [done|].
  apply orb_false_iff in Hsep as [H47 H92].
  destruct (match_command_name_chars _ Hm) as (c' & t' & [= <- <-] & Hc & Hall).
  - rewrite <- E. intros Hl. by apply strip_last in Hl.
  - exists c, t. split_and!; auto using has_char_false.
Qed.

Lemma CommandDefinition_init_name (nm fp : list N) (md : CommandMetadata)
    (body : list N) (ha : bool) (size mtime : Z) (d : CommandDefinition) :
  CommandDefinition_init nm fp md body ha size mtime = Ok d → ValidName (name d).
Proof.
  unfold CommandDefinition_init. destruct nm as [|c nm]; [done|].
  destruct (name_validator (c :: nm)) as [k|] eqn:Hv; [|done]. cbn.
  destruct fp; [done|]. destruct (size <? 0)%Z; [done|]. intros [= <-]. cbn.
  by apply name_validator_Ok in Hv as [_ ?].
Qed.

Lemma bind_Ok {A B} (r : result A) (k : A → result B) (b : B) :
  bind r k = Ok b → ∃ a, r = Ok a ∧ k a = Ok b.
Proof. destruct r; [eauto|done]. Qed.

Lemma parse_body_name (self : CommandLoader) (fs : Directory) (e : DirEntry)
    (d : CommandDefinition) :
  parse_body self fs e = Ok d → ValidName (name d).
Proof.
  unfold parse_body. intros H.
  do 6 (apply bind_Ok in H as (? & _ & H)).
  by eapply CommandDefinition_init_name.
Qed.

Lemma parse_command_file_Ok (self : CommandLoader) (fs : Directory) (e : DirEntry)
    (d : CommandDefinition) :
  fst (parse_command_file self fs e) = Ok d → parse_body self fs e = Ok d.
Proof.
  unfold parse_command_file.
  destruct (parse_body self fs e) as [|ex]; [done|]. by destruct ex.
Qed.

(** Whatever goes wrong in [parse_command_file] leaves it as a
    [CommandParseError]. *)
Lemma parse_command_file_Raise (self : CommandLoader) (fs : Directory)
    (e : DirEntry) (ex : exn) :
  fst (parse_command_file self fs e) = Raise ex →
  ∃ fp msg, ex = CommandParseError fp msg.
Proof.
  unfold parse_command_file.
  destruct (parse_body self fs e) as [|ex']; [done|].
  destruct ex'; intros [= <-]; eauto.
Qed.

(** The loop never stops early: it ends with the records of the files that
    parse put into the dictionary one after the other. *)
Lemma load_loop_foldl (self : CommandLoader) (fs : Directory)
    (files : list DirEntry) (commands : gmap (list N) CommandDefinition) :
  fst (load_loop self fs files commands)
  = Ok (foldl (fun m d => <[name d := d]> m) commands
          (omap (parsed self fs) files)).
Proof.
  revert commands. induction files as [|f rest IH]; intros commands; [done|].
  cbn [load_loop].
  change (omap (parsed self fs) (f :: rest))
    with (match parsed self fs f with
          | Some y => y :: omap (parsed self fs) rest
          | None => omap (parsed self fs) rest
          end).
  unfold parsed at 1.
  destruct (parse_command_file self fs f) as [r w] eqn:Hp.
  assert (fst (parse_command_file self fs f) = r) as Hr by (by rewrite Hp).
  cbn [fst]. destruct r as [d|ex].
  - specialize (IH (<[name d := d]> commands)).
    by destruct (load_loop self fs rest (<[name d:=d]> commands)).
  - destruct (parse_command_file_Raise _ _ _ _ Hr) as (fp & msg & ->).
    specialize (IH commands). by destruct (load_loop self fs rest commands).
Qed.

(** Every file that fails leaves its warning in the log. *)
Lemma load_loop_warnings (self : CommandLoader) (fs : Directory)
    (files : list DirEntry) (commands : gmap (list N) CommandDefinition)
    (e : DirEntry) (ex : exn) :
  e ∈ files → fst (parse_command_file self fs e) = Raise ex →
  skip_warning self e ex ∈ snd (load_loop self fs files commands).
Proof.
  revert commands. induction files as [|f rest IH]; intros commands Hin Hex;
    [by apply elem_of_nil in Hin|].
  cbn [load_loop].
  destruct (parse_command_file self fs f) as [r w] eqn:Hp.
  assert (fst (parse_command_file self fs f) = r) as Hr by (by rewrite Hp).
  apply elem_of_cons in Hin as [->|Hin].
  - rewrite Hr in Hex. subst r.
    destruct (parse_command_file_Raise _ _ _ _ Hr) as (fp & msg & ->).
    destruct (load_loop self fs rest commands) as [r' w']. cbn [snd].
    apply elem_of_app. right. by left.
  - destruct r as [d|ex'].
    + specialize (IH (<[name d := d]> commands) Hin Hex).
      destruct (load_loop self fs rest (<[name d:=d]> commands)) as [r' w'].
      cbn [snd] in *. apply elem_of_app. by right.
    + destruct (parse_command_file_Raise _ _ _ _ Hr) as (fp & msg & ->).
      specialize (IH commands Hin Hex).
      destruct (load_loop self fs rest commands) as [r' w'].
      cbn [snd] in *. apply elem_of_app. right. by right.
Qed.

(** In a dictionary filled from left to right the last record of a name
    stays. *)
Lemma lookup_foldl_insert (l : list CommandDefinition)
    (m : gmap (list N) CommandDefinition) (k : list N) :
  foldl (fun m d => <[name d := d]> m) m l !! k
  = match last (filter (fun d => name d = k) l) with
    | Some d => Some d
    | None => m !! k
    end.
Proof.
  revert m. induction l as [|d l IH]; intros m; [done|].
  cbn [foldl]. rewrite IH, filter_cons.
  destruct (decide (name d = k)) as [<-|Hne].
  - rewrite lookup_insert_eq. destruct (filter _ l) as [|x r] eqn:E; [done|].
    change (last (d :: x :: r)) with (last (x :: r)).
    destruct (last (x :: r)) eqn:El; [done|]. by apply last_None in El.
  - by rewrite lookup_insert_ne.
Qed.

Lemma last_filter_elem (l : list CommandDefinition) (k : list N)
    (d : CommandDefinition) :
  last (filter (fun d => name d = k) l) = Some d → d ∈ l ∧ name d = k.
Proof.
  intros H. apply last_Some_elem_of in H. by apply list_elem_of_filter in H as [? ?].
Qed.

Lemma filter_name_nil (l : list CommandDefinition) (k : list N) :
  k ∉ name <$> l → filter (fun x => name x = k) l = [].
Proof.
  induction l as [|x l IH]; intros Hk; [done|].
  rewrite fmap_cons in Hk. apply not_elem_of_cons in Hk as [Hx Hl].
  rewrite filter_cons, decide_False by done. by apply IH.
Qed.

Lemma last_filter_NoDup (l : list CommandDefinition) (d : CommandDefinition) :
  NoDup (name <$> l) → d ∈ l →
  last (filter (fun x => name x = name d) l) = Some d.
Proof.
  induction l as [|x l IH]; intros Hnd Hin; [by apply elem_of_nil in Hin|].
  rewrite fmap_cons in Hnd. apply NoDup_cons in Hnd as [Hx Hnd].
  rewrite filter_cons. apply elem_of_cons in Hin as [->|Hin].
  - rewrite decide_True by done. by rewrite filter_name_nil.
  - rewrite decide_False.
    + by apply IH.
    + intros Heq. apply Hx. rewrite Heq. by apply list_elem_of_fmap_2.
Qed.

Lemma size_foldl_insert (l : list CommandDefinition)
    (m : gmap (list N) CommandDefinition) :
  NoDup (name <$> l) → (∀ d, d ∈ l → m !! name d = None) →
  size (foldl (fun m d => <[name d := d]> m) m l) = (size m + length l)%nat.
Proof.
  revert m. induction l as [|d l IH]; intros m Hnd Hfresh; [cbn; lia|].
  rewrite fmap_cons in Hnd. apply NoDup_cons in Hnd as [Hd Hnd].
  cbn [foldl length]. rewrite IH; [|done|].
  - rewrite map_size_insert_None; [lia|]. apply Hfresh. by left.
  - intros x Hx. rewrite lookup_insert_ne; [apply Hfresh; by right|].
    intros Heq. apply Hd. rewrite Heq. by apply list_elem_of_fmap_2.
Qed.

End LoaderLemmas.

(** ** Claims about the loader *)

Section LoaderClaims.
Import Registry Validators Models Loader LoaderSpec Samples.

Lemma omap_cons_unfold {A B} (f : A → option B) (x : A) (l : list A) :
  omap f (x :: l)
  = match f x with
    | Some y => y :: omap f l
    | None => omap f l
    end.
Proof. reflexivity. Qed.

Lemma omap_parsed_without_failures (self : CommandLoader) (fs : Directory)
    (l : list DirEntry) :
  omap (parsed self fs)
    (filter (fun e => Is_true (endswith (lit ".md") (entry_name e)))
       (filter (fun e => is_Some (parsed self fs e)) l))
  = omap (parsed self fs)
      (filter (fun e => Is_true (endswith (lit ".md") (entry_name e))) l).
Proof.
  induction l as [|e l IH]; [done|].
  destruct (decide (is_Some (parsed self fs e))) as [Hs|Hn].
  - rewrite (filter_cons_True (fun e => is_Some _)) by done.
    destruct (decide (Is_true (endswith (lit ".md") (entry_name e)))).
    + rewrite !(filter_cons_True (fun e => Is_true _)) by done.
      rewrite !omap_cons_unfold. by rewrite IH.
    + by rewrite !(filter_cons_False (fun e => Is_true _)) by done.
  - rewrite (filter_cons_False (fun e => is_Some _)) by done.
    destruct (decide (Is_true (endswith (lit ".md") (entry_name e)))).
    + rewrite (filter_cons_True (fun e => Is_true _)) by done.
      rewrite omap_cons_unfold.
      destruct (parsed self fs e) eqn:E; [by destruct Hn|done].
    + by rewrite (filter_cons_False (fun e => Is_true _)) by done.
Qed.

Lemma load_all_commands_foldl (self : CommandLoader) (fs : Directory) :
  load_all_commands self fs
  = Ok (foldl (fun m d => <[name d := d]> m) ∅ (parsed_files self fs)).
Proof. apply load_loop_foldl. Qed.

(** C7, as stated, fails.  [" a.md"] and ["a.md"] both parse, and both to
    the name ["a"] (the stem is trimmed before it is checked): the
    dictionary holds one record for the two files, the one read last. *)
Lemma load_all_commands_collision :
  ∃ d1 d2 commands,
    fst (parse_command_file sample_loader collision_directory
           (valid_entry " a.md" "first")) = Ok d1
    ∧ fst (parse_command_file sample_loader collision_directory
             (valid_entry "a.md" "second")) = Ok d2
    ∧ load_all_commands sample_loader collision_directory = Ok commands
    ∧ length (parsed_files sample_loader collision_directory) = 2%nat
    ∧ size commands = 1%nat
    ∧ size commands ≠ length (parsed_files sample_loader collision_directory)
    ∧ commands !! name d1 = Some d2
    ∧ d1 ≠ d2.
Proof.
  eexists _, _, _. split_and!.
  - vm_compute. reflexivity.
  - vm_compute. reflexivity.
  - apply load_all_commands_foldl.
  - vm_compute. reflexivity.
  - vm_compute. reflexivity.
  - vm_compute. lia.
  - vm_compute. reflexivity.
  - intros H. vm_compute in H. discriminate H.
Qed.

(** C7, amended.  [load_all_commands] always returns a dictionary.  Under
    each name it holds the record of the last discovered file that parses
    to that name, and nothing else; when the files that parse have
    different names, that is one record per such file.  A file that fails
    to parse is skipped with a warning in the log and changes nothing for
    the other files; what [parse_command_file] raises is always a
    [CommandParseError], which the loop catches. *)
Theorem load_all_commands_skips_failures (self : CommandLoader) (fs : Directory) :
  ∃ commands,
    load_all_commands self fs = Ok commands
    ∧ (∀ k, commands !! k
            = last (filter (fun d => name d = k) (parsed_files self fs)))
    ∧ (NoDup (name <$> parsed_files self fs) →
         size commands = length (parsed_files self fs)
         ∧ ∀ d, d ∈ parsed_files self fs → commands !! name d = Some d)
    ∧ (∀ e ex, e ∈ discover_commands self fs →
         fst (parse_command_file self fs e) = Raise ex →
         (∃ fp msg, ex = CommandParseError fp msg)
         ∧ skip_warning self e ex ∈ snd (load_all_commands_logged self fs))
    ∧ load_all_commands self (without_failures self fs) = Ok commands.
Proof.
  eexists. split; [apply load_all_commands_foldl|]. split_and!.
  - intros k. rewrite lookup_foldl_insert, lookup_empty.
    by destruct (last _).
  - intros Hnd. split.
    + rewrite size_foldl_insert; [by rewrite map_size_empty|done|].
      intros d _. apply lookup_empty.
    + intros d Hd. rewrite lookup_foldl_insert.
      by rewrite last_filter_NoDup.
  - intros e ex Hin Hex. split; [by eapply parse_command_file_Raise|].
    by apply load_loop_warnings.
  - rewrite load_all_commands_foldl. f_equal.
    replace (parsed_files self (without_failures self fs))
      with (parsed_files self fs); [done|].
    unfold parsed_files, discover_commands.
    change (parsed self (without_failures self fs)) with (parsed self fs).
    symmetry. apply omap_parsed_without_failures.
Qed.

Lemma sample_directory_names_distinct :
  NoDup (name <$> parsed_files sample_loader sample_directory).
Proof.
  assert (name <$> parsed_files sample_loader sample_directory
          = [lit "a.b"; lit "cmd_v2"]) as -> by (vm_compute; reflexivity).
  apply NoDup_cons. split; [|apply NoDup_singleton].
  intros H. apply list_elem_of_singleton in H. vm_compute in H. discriminate H.
Qed.

Lemma load_all_commands_skips_failures_witness :
  ∃ commands,
    load_all_commands sample_loader sample_directory = Ok commands
    ∧ NoDup (name <$> parsed_files sample_loader sample_directory)
    ∧ size commands = length (parsed_files sample_loader sample_directory).
Proof.
  destruct (load_all_commands_skips_failures sample_loader sample_directory)
    as (commands & Hload & _ & Hdistinct & _).
  exists commands. split; [exact Hload|].
  split; [exact sample_directory_names_distinct|].
  exact (proj1 (Hdistinct sample_directory_names_distinct)).
Defined.

Example load_all_commands_sample :
  ∃ commands,
    load_all_commands sample_loader sample_directory = Ok commands
    ∧ Registry.sorted (Registry.keys commands) = [lit "a.b"; lit "cmd_v2"].
Proof.
  eexists. split; [apply load_all_commands_foldl|]. vm_compute. reflexivity.
Qed.

Lemma parsed_files_name (self : CommandLoader) (fs : Directory)
    (d : CommandDefinition) :
  d ∈ parsed_files self fs → ValidName (name d).
Proof.
  unfold parsed_files. intros (e & _ & He)%list_elem_of_omap.
  unfold parsed in He.
  destruct (fst (parse_command_file self fs e)) as [d'|] eqn:Hp; [|done].
  injection He as ->. apply parse_command_file_Ok in Hp.
  by eapply parse_body_name.
Qed.

(** C10.  Every key of the dictionary that [load_all_commands] returns is
    the [name] of its record; that name starts with a letter, has only
    letters, digits, dots, underscores and hyphens, and no path separator.
    So has every name in the registry after it was updated with that
    dictionary. *)
Theorem load_all_commands_names (self : CommandLoader) (fs : Directory)
    (commands : gmap (list N) CommandDefinition) :
  load_all_commands self fs = Ok commands →
  (∀ k d, commands !! k = Some d → name d = k ∧ ValidName k)
  ∧ (∀ registry k, k ∈ list_commands (update_all commands registry) →
       ValidName k ∧ ∃ d, get k (update_all commands registry) = Some d
                          ∧ name d = k).
Proof.
  rewrite load_all_commands_foldl. intros [= <-].
  assert (∀ k d,
    foldl (fun m d => <[name d := d]> m) (∅ : gmap (list N) CommandDefinition)
      (parsed_files self fs) !! k = Some d →
    name d = k ∧ ValidName k) as G.
  { intros k d. rewrite lookup_foldl_insert, lookup_empty.
    destruct (last _) as [d'|] eqn:El; [|done]. intros [= ->].
    apply last_filter_elem in El as [Hin <-].
    split; [done|]. by eapply parsed_files_name. }
  split; [exact G|].
  intros registry k [d Hd]%elem_of_list_commands.
  destruct (G k d Hd) as [Hk Hv]. eauto.
Qed.

Lemma load_all_commands_names_witness :
  ∃ commands d,
    load_all_commands sample_loader sample_directory = Ok commands
    ∧ commands !! lit "a.b" = Some d
    ∧ name d = lit "a.b"
    ∧ ValidName (lit "a.b").
Proof.
  eexists _, _.
  assert (load_all_commands sample_loader sample_directory = Ok _) as Hload
    by apply load_all_commands_foldl.
  split; [exact Hload|].
  assert (foldl (fun m d => <[name d := d]> m)
            (∅ : gmap (list N) CommandDefinition)
            (parsed_files sample_loader sample_directory) !! lit "a.b" = Some _)
    as Hlook by (vm_compute; reflexivity).
  split; [exact Hlook|].
  exact (proj1 (load_all_commands_names _ _ _ Hload) _ _ Hlook).
Defined.

End LoaderClaims.

(** ** The watcher *)

Section WatcherClaims.
Import Watcher.

Lemma on_event_qualifies (event : FsEvent) (now : Z) (self : CommandFileHandler) :
  qualifies event = true →
  on_event event now self = _trigger_immediate_reload now self.
Proof.
  unfold qualifies, on_event, on_created, on_modified, on_deleted.
  intros ->. by destruct (kind event).
Qed.

(** C4, as stated, fails.  With a window of 100, five events 60 apart (and
    likewise five events 50 apart) call the callback three times: an event
    that comes a full window after the last reload reloads at once, whether
    or not a burst is going on. *)
Lemma debounce_burst_three_reloads :
  let h := init 100 in
  let burst60 := [1000; 1060; 1120; 1180; 1240]%Z in
  let burst50 := [1000; 1050; 1100; 1150; 1200]%Z in
  qualifies md_event = true
  ∧ spaced_closer 100 1000 (tail burst60)
  ∧ spaced_closer 100 1000 (tail burst50)
  ∧ (100 <= 1000 - _last_reload_time h)%Z
  ∧ reloads (settle (run ((fun t => (t, md_event)) <$> burst60) h))
    = [1000; 1120; 1240]%Z
  ∧ reloads (settle (run ((fun t => (t, md_event)) <$> burst50) h))
    = [1000; 1100; 1200]%Z
  ∧ ¬ (length (reloads (settle (run ((fun t => (t, md_event)) <$> burst60) h)))
       ≤ 2)%nat.
Proof.
  cbn zeta. split_and!; [reflexivity | cbn; lia | cbn; lia | cbn; lia
                        | reflexivity | reflexivity |].
  vm_compute. lia.
Qed.

(** Within one window after an immediate reload at [t1], every event only
    moves the timer. *)
Lemma run_within_window (w t1 : Z) (old : list Z) (events : list (Z * FsEvent))
    (prev : Z) (pending : bool) (timer : option Z) :
  (0 < w)%Z →
  (t1 <= prev)%Z →
  Forall (fun ev => qualifies (snd ev) = true) events →
  spaced_closer w prev (fst <$> events) →
  (∀ t, t ∈ fst <$> events → t - t1 < w)%Z →
  (timer = None ∨ timer = Some (prev + w)%Z) →
  ∃ pending',
    run events
      {| debounce_seconds := w; _last_reload_time := t1;
         _pending_reload := pending; _timer := timer; reloads := old |}
    = {| debounce_seconds := w; _last_reload_time := t1;
         _pending_reload := pending';
         _timer := match last (fst <$> events) with
                   | Some tN => Some (tN + w)%Z
                   | None => timer
                   end;
         reloads := old |}.
Proof.
  intros Hw. revert prev pending timer.
  induction events as [|[t e] rest IH];
    intros prev pending timer Hprev Hq Hsp Hwin Htimer.
  - by exists pending.
  - apply Forall_cons in Hq as [He Hq]. cbn [snd] in He.
    rewrite fmap_cons in Hsp, Hwin. cbn [fst] in Hsp, Hwin.
    destruct Hsp as [Ht Hsp]. cbn [run foldl fst snd].
    assert (t - t1 < w)%Z as Htw by (apply Hwin; by left).
    assert (advance t
              {| debounce_seconds := w; _last_reload_time := t1;
                 _pending_reload := pending; _timer := timer; reloads := old |}
            = {| debounce_seconds := w; _last_reload_time := t1;
                 _pending_reload := pending; _timer := timer; reloads := old |})
      as ->.
    { unfold advance. cbn. destruct Htimer as [->| ->]; [done|].
      destruct (Z.leb_spec (prev + w) t); [lia|done]. }
    rewrite on_event_qualifies by done. unfold _trigger_immediate_reload. cbn.
    destruct (Z.geb_spec (t - t1) w); [lia|].
    unfold _schedule_reload. cbn.
    destruct (IH t true (Some (t + w)%Z)) as [pending' Hrun];
      [lia | done | done | by intros; apply Hwin; right | by right |].
    exists pending'. unfold run in Hrun. rewrite Hrun. f_equal.
    destruct (fst <$> rest) as [|t' rest'] eqn:E; [done|].
    change (last (t :: t' :: rest')) with (last (t' :: rest')).
    destruct (last (t' :: rest')) eqn:El; [done|]. by apply last_None in El.
Qed.

(** C4, amended.  A qualifying event that comes at least a window after
    the last reload calls the callback at once.  A burst of qualifying
    events that starts with such an event and stays within one window of it
    calls the callback once for a single event and twice otherwise: at once
    for the first event, and once more a window after the last event. *)
Theorem debounce_burst_within_window (w t1 : Z) (e1 : FsEvent)
    (rest : list (Z * FsEvent)) (h : CommandFileHandler) :
  (0 < w)%Z →
  debounce_seconds h = w →
  _timer h = None →
  (w <= t1 - _last_reload_time h)%Z →
  Forall (fun ev => qualifies (snd ev) = true) ((t1, e1) :: rest) →
  spaced_closer w t1 (fst <$> rest) →
  (∀ t, t ∈ fst <$> rest → t - t1 < w)%Z →
  reloads (on_event e1 t1 (advance t1 h)) = reloads h ++ [t1]
  ∧ reloads (settle (run ((t1, e1) :: rest) h))
    = reloads h ++ t1 :: match last (fst <$> rest) with
                         | Some tN => [(tN + w)%Z]
                         | None => []
                         end.
Proof.
  intros Hw Hd Ht Hidle Hq Hsp Hwin. destruct h as [d l p tm old].
  cbn [debounce_seconds _timer _last_reload_time reloads] in *. subst.
  apply Forall_cons in Hq as [He Hq]. cbn [snd] in He.
  assert (on_event e1 t1
            (advance t1 {| debounce_seconds := w; _last_reload_time := l;
                           _pending_reload := p; _timer := None; reloads := old |})
          = {| debounce_seconds := w; _last_reload_time := t1;
               _pending_reload := false; _timer := None;
               reloads := old ++ [t1] |}) as Hfirst.
  { rewrite on_event_qualifies by done.
    unfold advance, _trigger_immediate_reload. cbn.
    destruct (Z.geb_spec (t1 - l) w); [done|lia]. }
  split; [by rewrite Hfirst|].
  cbn [run foldl fst snd]. rewrite Hfirst.
  destruct (run_within_window w t1 (old ++ [t1]) rest t1 false None)
    as [pending' Hrun]; [lia | lia | done | done | done | by left |].
  unfold run in Hrun. rewrite Hrun. unfold settle. cbn.
  destruct (last (fst <$> rest)); cbn; [by rewrite <- app_assoc|done].
Qed.

Lemma debounce_burst_within_window_witness :
  reloads (settle (run ((fun t => (t, md_event)) <$> [1000; 1030; 1060; 1090]%Z)
                     (init 100)))
  = [1000; 1190]%Z.
Proof.
  apply (proj2 (debounce_burst_within_window 100 1000 md_event
                  ((fun t => (t, md_event)) <$> [1030; 1060; 1090]%Z)
                  (init 100) ltac:(lia) eq_refl eq_refl ltac:(cbn; lia)
                  ltac:(by repeat constructor)
                  ltac:(cbn; lia)
                  ltac:(intros t Ht; cbn in Ht;
                        repeat (apply elem_of_cons in Ht as [->|Ht]; [lia|]);
                        by apply elem_of_nil in Ht))).
Defined.

End WatcherClaims.

(** ** The registry with several threads *)

Section ConcurrentLemmas.
Import Registry Concurrent Samples.

Lemma run_schedule_rtc (schedule : list nat) (c : config) :
  rtc step c (run_schedule schedule c).
Proof.
  revert c. induction schedule as [|i schedule IH]; intros c; [done|].
  cbn [run_schedule foldl]. destruct (step_thread i c) as [c'|] eqn:E; cbn.
  - eapply rtc_l; [by econstructor|]. apply IH.
  - apply IH.
Qed.

(** A read leaves lock owner and registry alone and adds what it saw. *)
Lemma perform_reads_only (i : nat) (a : action) (lk lk' : option (nat * nat))
    (self self' : CommandRegistry) (obs obs' : list observation) :
  reads_only a = true →
  perform i a lk self obs = Some (lk', self', obs') →
  self' = self ∧ (obs' = obs ∨ ∃ o, obs' = obs ++ [o] ∧ seen_on self o).
Proof.
  destruct a; try done; cbn; intros _ H.
  - destruct lk as [[owner n]|]; [destruct (owner =? i)%nat|]; naive_solver.
  - destruct lk as [[owner [|n]]|]; [|destruct (owner =? i)%nat|]; naive_solver.
  - injection H as <- <- <-. split; [done|]. right. by eexists.
  - injection H as <- <- <-. split; [done|]. right. by eexists.
  - injection H as <- <- <-. split; [done|]. right. by eexists.
Qed.

Lemma reader_reads_only (p : list action) : reader p → Forall (fun a => reads_only a = true) p.
Proof.
  intros [[nm ->]|[->| ->]]; repeat constructor.
Qed.

Lemma writer_at_shared (old : CommandRegistry) (m : gmap (list N) CommandDefinition)
    (t : list action) (self : CommandRegistry) :
  writer_at old m t self → self = old ∨ self = update_all m old.
Proof. intros [(k & _ & _ & ->)|(k & _ & _ & ->)]; auto. Qed.

Lemma replace_inv_start (old : CommandRegistry)
    (m : gmap (list N) CommandDefinition) (readers : list (list action)) :
  Forall reader readers →
  replace_inv old m (start old (call_update_all m :: readers)).
Proof.
  intros Hr. split.
  - eexists. split; [done|]. left. exists 0%nat. split; [lia|done].
  - intros i t Ht. unfold start in Ht. cbn [threads] in Ht.
    rewrite fmap_cons, lookup_cons_ne_0, list_lookup_fmap in Ht by done.
    cbn [pred] in Ht.
    destruct (readers !! i) as [p|] eqn:Hp; [|done]. injection Ht as <-. cbn.
    apply reader_reads_only. eapply Forall_lookup_1; done.
  - intros i t o Ht Ho. unfold start in Ht. cbn [threads] in Ht.
    rewrite list_lookup_fmap in Ht.
    destruct ((call_update_all m :: readers) !! i); [|done]. injection Ht as <-.
    by apply elem_of_nil in Ho.
Qed.

Lemma replace_inv_step (old : CommandRegistry)
    (m : gmap (list N) CommandDefinition) (c c' : config) :
  replace_inv old m c → step c c' → replace_inv old m c'.
Proof.
  intros Hinv Hstep. destruct Hstep as [i c0 c1 Hstep].
  destruct Hinv as [(wt & Hwt & Hw) Hrd Hseen].
  unfold step_thread in Hstep.
  destruct (threads c0 !! i) as [[[|a rest] obs]|] eqn:Hi; try done.
  destruct (perform i a (lock c0) (shared c0) obs) as [[[lk self] obs']|] eqn:Hp;
    [|done].
  injection Hstep as <-. cbn [threads shared].
  assert (i < length (threads c0))%nat as Hlen by (by eapply lookup_lt_Some).
  destruct i as [|i].
  - (* the writer moves *)
    rewrite Hwt in Hi. injection Hi as ->. cbn [todo] in Hw.
    assert (writer_at old m rest self
            ∧ (obs' = obs ∨ ∃ o, obs' = obs ++ [o]
                 ∧ (seen_on old o ∨ seen_on (update_all m old) o))) as [Hw' Hobs].
    { destruct Hw as [(k & Hk & Ht & Hs)|(k & Hk & Ht & Hs)].
      - destruct k as [|[|[|k]]]; [| | |lia]; cbn in Ht; injection Ht as -> ->.
        + cbn in Hp. split; [|left].
          * left. exists 1%nat. split; [lia|].
            destruct (lock c0) as [[owner n]|]; [destruct (owner =? 0)%nat|];
              naive_solver.
          * destruct (lock c0) as [[owner n]|]; [destruct (owner =? 0)%nat|];
              naive_solver.
        + cbn in Hp. injection Hp as <- <- <-. split.
          * left. exists 2%nat. split; [lia|done].
          * right. eexists. split; [done|]. left. by rewrite Hs.
        + cbn in Hp. injection Hp as <- <- <-. split; [|by left].
          right. exists 3%nat. split; [lia|]. by rewrite Hs.
      - destruct k as [|[|[|[|[|k]]]]]; [lia|lia|lia| | |]; cbn in Ht.
        + injection Ht as -> ->. cbn in Hp. injection Hp as <- <- <-. split.
          * right. exists 4%nat. split; [lia|done].
          * right. eexists. split; [done|]. right. by rewrite Hs.
        + injection Ht as -> ->. cbn in Hp. split; [|left].
          * right. exists 5%nat. split; [lia|].
            destruct (lock c0) as [[owner [|n]]|];
              [|destruct (owner =? 0)%nat|]; naive_solver.
          * destruct (lock c0) as [[owner [|n]]|];
              [|destruct (owner =? 0)%nat|]; naive_solver.
        + by rewrite drop_nil in Ht. }
    split.
    + eexists. cbn [threads shared]. split; [by apply list_lookup_insert_eq|done].
    + intros j t Hj. cbn [threads] in Hj. rewrite list_lookup_insert_ne in Hj by done. by eapply Hrd.
    + intros j t o Hj Ho. cbn [threads] in Hj. destruct (decide (j = 0%nat)) as [->|Hne].
      * rewrite list_lookup_insert_eq in Hj by done. injection Hj as <-.
        cbn [seen] in Ho. destruct Hobs as [->|(o' & -> & Ho')].
        -- eapply (Hseen 0%nat); [done|]. done.
        -- apply elem_of_app in Ho as [Ho|Ho%list_elem_of_singleton].
           ++ eapply (Hseen 0%nat); [done|]. done.
           ++ by subst.
      * rewrite list_lookup_insert_ne in Hj by done. by eapply Hseen.
  - (* a reader moves *)
    pose proof (Hrd i _ Hi) as Hro. cbn [todo] in Hro.
    apply Forall_cons in Hro as [Ha Hrest].
    destruct (perform_reads_only _ _ _ _ _ _ _ _ Ha Hp) as [-> Hobs].
    split.
    + exists wt. cbn [threads shared]. split; [by rewrite list_lookup_insert_ne|done].
    + intros j t Hj. cbn [threads] in Hj. destruct (decide (j = i)) as [->|Hne].
      * rewrite list_lookup_insert_eq in Hj by done. by injection Hj as <-.
      * rewrite list_lookup_insert_ne in Hj by congruence. by eapply Hrd.
    + intros j t o Hj Ho. cbn [threads] in Hj. destruct (decide (j = S i)) as [->|Hne].
      * rewrite list_lookup_insert_eq in Hj by done. injection Hj as <-.
        cbn [seen] in Ho. destruct Hobs as [->|(o' & -> & Ho')].
        -- by eapply (Hseen (S i)).
        -- apply elem_of_app in Ho as [Ho|Ho%list_elem_of_singleton].
           ++ by eapply (Hseen (S i)).
           ++ subst o'. apply writer_at_shared in Hw as [<-|<-]; auto.
      * rewrite list_lookup_insert_ne in Hj by done. by eapply Hseen.
Qed.

Lemma replace_inv_rtc (old : CommandRegistry)
    (m : gmap (list N) CommandDefinition) (c c' : config) :
  replace_inv old m c → rtc step c c' → replace_inv old m c'.
Proof.
  intros Hinv Hsteps. induction Hsteps as [|c1 c2 c3 Hs _ IH]; [done|].
  apply IH. by eapply replace_inv_step.
Qed.

Lemma method_call_reader (p : list action) : reader p → method_call p.
Proof.
  intros [[nm ->]|[->| ->]].
  - exists [DoGet nm]. split; [done|]. by repeat constructor.
  - exists [DoList]. split; [done|]. by repeat constructor.
  - exists [DoLen]. split; [done|]. by repeat constructor.
Qed.

Lemma method_call_update_all (m : gmap (list N) CommandDefinition) :
  method_call (call_update_all m).
Proof.
  exists [DoLen; DoAssign m; DoLen]. split; [done|]. by repeat constructor.
Qed.

Lemma not_inside_waiting (t : thread) : waiting t → inside t → False.
Proof.
  intros (b1 & H1 & _) (b2 & H2 & Hp). rewrite H1 in H2.
  destruct b2 as [|a b2]; [done|]. injection H2 as <- _.
  by apply Forall_cons in Hp as [? _].
Qed.

Lemma perform_plain (i : nat) (a : action) (lk lk' : option (nat * nat))
    (self self' : CommandRegistry) (obs obs' : list observation) :
  plain a = true → perform i a lk self obs = Some (lk', self', obs') → lk' = lk.
Proof. destruct a; try done; cbn; by intros _ [= <- _ _]. Qed.

Lemma mutex_inv_start (self : CommandRegistry) (programs : list (list action)) :
  Forall method_call programs → mutex_inv (start self programs).
Proof.
  intros Hp.
  assert (∀ i t, threads (start self programs) !! i = Some t → waiting t) as Hw.
  { intros i t Ht. unfold start in Ht. cbn [threads] in Ht.
    rewrite list_lookup_fmap in Ht.
    destruct (programs !! i) as [p|] eqn:E; [|done]. injection Ht as <-.
    unfold waiting. cbn. by eapply Forall_lookup_1. }
  split.
  - intros i t Ht. right. left. by eapply Hw.
  - intros i t Ht. split; [|done].
    intros Hin. exfalso. eapply not_inside_waiting; [by eapply Hw|done].
  - by left.
Qed.

(** The thread [j] looked up after thread [i] has moved: [i] itself, or a
    thread that stayed as it was. *)
Ltac moved_or_not j i Hj :=
  destruct (decide (j = i)) as [->|?];
  [ rewrite list_lookup_insert_eq in Hj by done; injection Hj as <-
  | rewrite list_lookup_insert_ne in Hj by done ].

Lemma mutex_inv_step (c c' : config) : mutex_inv c → step c c' → mutex_inv c'.
Proof.
  intros Hinv Hstep. destruct Hstep as [i c c' Hstep].
  destruct Hinv as [Hshape Howner Hlock].
  unfold step_thread in Hstep.
  destruct (threads c !! i) as [[[|a rest] obs]|] eqn:Hi; try done.
  destruct (perform i a (lock c) (shared c) obs) as [[[lk self] obs']|] eqn:Hp;
    [|done].
  injection Hstep as <-.
  assert (i < length (threads c))%nat as Hlen by (by eapply lookup_lt_Some).
  destruct (Hshape i _ Hi) as [Hnil|[Hwait|Hin]]; [done| |].
  - (* the thread enters *)
    destruct Hwait as (body & Hb & Hplain). cbn [todo] in Hb.
    injection Hb as -> ->.
    assert (lock c = None ∧ lk = Some (i, 1%nat)) as [Hnone ->].
    { cbn in Hp. destruct (lock c) as [[owner n]|] eqn:El;
        [|by injection Hp as <- _ _].
      destruct (Nat.eqb_spec owner i) as [->|]; [|done]. exfalso.
      destruct Hlock as [?|(j & tj & [= -> ->] & Hj)]; [done|].
      eapply not_inside_waiting; [|by apply (Howner _ _ Hi)].
      exists body. done. }
    assert (inside {| todo := body ++ [Release]; seen := obs' |}) as Hnow
      by (by exists body).
    split; cbn [threads lock].
    + intros j t Hj. moved_or_not j i Hj; [auto|by eapply Hshape].
    + intros j t Hj. moved_or_not j i Hj; [done|].
      rewrite (Howner _ _ Hj), Hnone. split; [done|]. by intros [= ?].
    + right. eexists i, _. split; [done|]. by apply list_lookup_insert_eq.
  - (* the thread is in the body *)
    pose proof (proj1 (Howner _ _ Hi) Hin) as Hmine.
    destruct Hin as (body & Hb & Hplain). cbn [todo] in Hb.
    destruct body as [|a' body].
    + (* it leaves *)
      injection Hb as -> ->. rewrite Hmine in Hp. cbn in Hp.
      rewrite Nat.eqb_refl in Hp. injection Hp as <- <- <-.
      split; cbn [threads lock].
      * intros j t Hj. moved_or_not j i Hj; [auto|by eapply Hshape].
      * intros j t Hj. moved_or_not j i Hj.
        -- split; [|done]. intros (b & Hb & _). cbn in Hb. by destruct b.
        -- rewrite (Howner _ _ Hj), Hmine. split; [|done]. by intros [= ?].
      * by left.
    + (* it goes on *)
      injection Hb as -> ->. apply Forall_cons in Hplain as [Ha Hplain].
      apply perform_plain in Hp as ->; [|done].
      assert (inside {| todo := body ++ [Release]; seen := obs' |}) as Hnow
        by (by exists body).
      split; cbn [threads lock].
      * intros j t Hj. moved_or_not j i Hj; [auto|by eapply Hshape].
      * intros j t Hj. moved_or_not j i Hj; [done|by apply Howner].
      * right. eexists i, _. split; [done|]. by apply list_lookup_insert_eq.
Qed.

Lemma mutex_inv_rtc (c c' : config) : mutex_inv c → rtc step c c' → mutex_inv c'.
Proof.
  intros Hinv Hsteps. induction Hsteps as [|c1 c2 c3 Hs _ IH]; [done|].
  apply IH. by eapply mutex_inv_step.
Qed.

End ConcurrentLemmas.

(** ** Claims about the registry *)

Section RegistryClaims.
Import Registry Concurrent Samples.

Example sample_run :
  let c := run_schedule sample_schedule (start sample_registry sample_threads) in
  finished c
  ∧ seen <$> threads c
    = [ [SawLen 2; SawLen 1];
        [SawGet (lit "use") (Some use_cmd)];
        [SawList [lit "fresh"]] ]
  ∧ shared c = update_all reloaded sample_registry.
Proof.
  split_and!.
  - vm_compute. repeat constructor.
  - vm_compute. reflexivity.
  - vm_compute. reflexivity.
Qed.

(** C3.  After [update_all m] the registry holds [m] and nothing of what it
    held before: [get] gives the record of [m] for every name, [count] is
    the size of [m], [list_commands] lists the names of [m].  While
    [update_all m] runs in one thread and [get], [list_commands] and
    [count] in any number of others, in whatever order their steps are
    taken, every read is one of the old contents or one of [m], never of
    anything else; at most one thread is in the body of a method; and once
    [update_all] is through the registry holds [m]. *)
Theorem update_all_atomic (old : CommandRegistry)
    (m : gmap (list N) CommandDefinition) :
  (∀ nm, get nm (update_all m old) = m !! nm)
  ∧ count (update_all m old) = Z.of_nat (size m)
  ∧ (∀ nm, nm ∈ list_commands (update_all m old) ↔ is_Some (m !! nm))
  ∧ (∀ readers c,
       Forall reader readers →
       rtc step (start old (call_update_all m :: readers)) c →
       (shared c = old ∨ shared c = update_all m old)
       ∧ (∀ i t o, threads c !! i = Some t → o ∈ seen t →
            seen_on old o ∨ seen_on (update_all m old) o)
       ∧ (∀ i j ti tj, threads c !! i = Some ti → threads c !! j = Some tj →
            inside ti → inside tj → i = j)
       ∧ (∀ t, threads c !! 0%nat = Some t → todo t = [] →
            shared c = update_all m old)).
Proof.
  split_and!; [done | done | apply elem_of_list_commands |].
  intros readers c Hreaders Hrun.
  pose proof (replace_inv_rtc old m _ _
                (replace_inv_start old m readers Hreaders) Hrun)
    as [(wt & Hwt & Hw) _ Hseen].
  assert (mutex_inv c) as [_ Howner _].
  { eapply mutex_inv_rtc; [|done]. apply mutex_inv_start.
    constructor; [apply method_call_update_all|].
    eapply Forall_impl; [done|]. apply method_call_reader. }
  split_and!.
  - by eapply writer_at_shared.
  - exact Hseen.
  - intros i j ti tj Hi Hj Hini Hinj.
    apply (Howner _ _ Hi) in Hini. apply (Howner _ _ Hj) in Hinj. congruence.
  - intros t Ht Hdone. rewrite Hwt in Ht. injection Ht as <-.
    destruct Hw as [(k & Hk & Htodo & _)|(k & _ & _ & ->)]; [|done].
    rewrite Hdone in Htodo.
    destruct k as [|[|[|k]]]; [done..|lia].
Qed.

Lemma update_all_atomic_witness :
  let c := run_schedule sample_schedule (start sample_registry sample_threads) in
  Forall reader (tail sample_threads)
  ∧ rtc step (start sample_registry sample_threads) c
  ∧ (shared c = sample_registry ∨ shared c = update_all reloaded sample_registry).
Proof.
  assert (Forall reader (tail sample_threads)) as Hreaders.
  { apply Forall_cons. split; [left; by eexists|].
    apply Forall_cons. split; [right; by left|]. apply Forall_nil_2. }
  split; [exact Hreaders|]. split; [apply run_schedule_rtc|].
  exact (proj1 (proj2 (proj2 (proj2 (update_all_atomic sample_registry reloaded)))
                  (tail sample_threads) _ Hreaders
                  (run_schedule_rtc sample_schedule _))).
Defined.

End RegistryClaims.

(* ================================================================== *)
(** * Further properties of the code *)

(** ** validators.py: command names *)

Section NameLemmas.
Import Validators Models LoaderSpec.

Lemma name_char_not_space (c : N) : is_name_char c = true → isspace c = false.
Proof.
  unfold is_name_char, is_ascii_letter, is_ascii_digit. intros H.
  rewrite ?orb_true_iff, ?andb_true_iff, ?N.leb_le, ?N.eqb_eq in H.
  apply not_true_iff_false. unfold isspace.
  rewrite ?orb_true_iff, ?andb_true_iff, ?N.leb_le, ?N.eqb_eq. lia.
Qed.

Lemma letter_name_char (c : N) : is_ascii_letter c = true → is_name_char c = true.
Proof. unfold is_name_char. by intros ->. Qed.

Lemma lstrip_id (s : list N) :
  match s with [] => True | c :: _ => isspace c = false end → lstrip s = s.
Proof. destruct s as [|c t]; [done|]. cbn. by intros ->. Qed.

(** A string that neither begins nor ends with white space is its own
    trimmed form. *)
Lemma strip_id (s : list N) :
  Forall (fun c => isspace c = false) s → strip s = s.
Proof.
  intros H. unfold strip. rewrite (lstrip_id s) by (by destruct H).
  rewrite (lstrip_id (rev s)); [apply rev_involutive|].
  destruct (rev s) as [|c t] eqn:E; [done|].
  assert (c ∈ s) as Hc.
  { apply list_elem_of_In, in_rev. rewrite E. by left. }
  by eapply Forall_forall in H.
Qed.

Lemma ValidName_no_space (k : list N) :
  ValidName k → Forall (fun c => isspace c = false) k.
Proof.
  intros (c & t & -> & Hc & Ht & _). constructor.
  - by apply name_char_not_space, letter_name_char.
  - eapply Forall_impl; [done|]. apply name_char_not_space.
Qed.

Lemma drop_name_chars_all (t : list N) :
  Forall (fun x => is_name_char x = true) t → drop_name_chars t = [].
Proof. induction 1 as [|x t Hx _ IH]; [done|]. cbn. by rewrite Hx. Qed.

Lemma has_char_not_elem (c : N) (s : list N) : c ∉ s → has_char c s = false.
Proof.
  intros H. apply not_true_iff_false. intros (x & Hx & Heq%N.eqb_eq)%existsb_exists.
  subst x. by apply H, list_elem_of_In.
Qed.

(** A name of the right form passes the check as it is. *)
Lemma validate_command_name_valid (k : list N) :
  ValidName k → strip k = k ∧ validate_command_name k = Ok k.
Proof.
  intros Hv. pose proof (strip_id k (ValidName_no_space k Hv)) as Hs.
  split; [done|]. unfold validate_command_name. rewrite Hs.
  destruct Hv as (c & t & -> & Hc & Ht & H47 & H92).
  rewrite (has_char_not_elem 47), (has_char_not_elem 92) by done.
  cbn [orb match_command_name]. by rewrite Hc, drop_name_chars_all.
Qed.

Lemma validate_command_name_Ok (nm k : list N) :
  validate_command_name nm = Ok k → k = strip nm ∧ ValidName k.
Proof. apply name_validator_Ok. Qed.

Lemma strip_all_space (s : list N) :
  Forall (fun c => isspace c = true) s → strip s = [].
Proof.
  intros H. unfold strip.
  assert (lstrip s = []) as ->; [|done].
  induction H as [|c t Hc _ IH]; [done|]. cbn. by rewrite Hc.
Qed.

End NameLemmas.

Section NameProperties.
Import Validators Models LoaderSpec Samples.

(** X1.  [validate_command_name] accepts exactly the names whose trimmed
    form starts with a letter and goes on with letters, digits, dots,
    underscores and hyphens, and it returns the trimmed form. *)
Theorem validate_command_name_accepts (nm k : list N) :
  validate_command_name nm = Ok k ↔ k = strip nm ∧ ValidName k.
Proof.
  split; [apply validate_command_name_Ok|].
  intros [-> Hv]. destruct (validate_command_name_valid _ Hv) as [Hs Hok].
  unfold validate_command_name in *. by rewrite Hs in Hok.
Qed.

(** X2.  A name that [validate_command_name] returned passes the check
    again unchanged, passes the field validator of [CommandDefinition]
    unchanged, and is the [name] of the record built from it. *)
Theorem validated_name_is_stable (nm k : list N) :
  validate_command_name nm = Ok k →
  validate_command_name k = Ok k
  ∧ name_validator k = Ok k
  ∧ ∀ fp md body ha size mtime d,
      CommandDefinition_init k fp md body ha size mtime = Ok d → name d = k.
Proof.
  intros [_ Hv]%validate_command_name_Ok.
  destruct (validate_command_name_valid _ Hv) as [_ Hok].
  split_and!; [done|done|].
  intros fp md body ha size mtime d. unfold CommandDefinition_init.
  change (name_validator k) with (validate_command_name k). rewrite Hok.
  destruct k; [done|]. cbn [try_except bind].
  destruct fp; [done|]. destruct (size <? 0)%Z; [done|]. by intros [= <-].
Qed.

Lemma validated_name_is_stable_witness :
  validate_command_name (lit "  sp.plan  ") = Ok (lit "sp.plan")
  ∧ validate_command_name (lit "sp.plan") = Ok (lit "sp.plan").
Proof.
  assert (validate_command_name (lit "  sp.plan  ") = Ok (lit "sp.plan")) as H
    by (vm_compute; reflexivity).
  split; [exact H|].
  exact (proj1 (validated_name_is_stable _ _ H)).
Defined.

(** X3.  [validate_command_name] fails with a [ValueError] and nothing
    else.  A name of white space only is refused as empty; a name with a
    slash or a backslash in it is refused for its path separator, whatever
    else it holds. *)
Theorem validate_command_name_rejects :
  (∀ nm e, validate_command_name nm = Raise e → ∃ msg, e = ValueError msg)
  ∧ (∀ nm, Forall (fun c => isspace c = true) nm →
       validate_command_name nm
       = Raise (ValueError (lit "Command name cannot be empty")))
  ∧ (∀ nm, strip nm ≠ [] → 47 ∈ strip nm ∨ 92 ∈ strip nm →
       validate_command_name nm
       = Raise (ValueError (lit "Command name cannot contain path separators"))).
Proof.
  split_and!.
  - intros nm e. unfold validate_command_name.
    destruct (strip nm); [intros [= <-]; eauto|].
    destruct (_ || _); [intros [= <-]; eauto|].
    destruct (negb _); [intros [= <-]; eauto|done].
  - intros nm H. unfold validate_command_name. by rewrite strip_all_space.
  - intros nm Hne Hsep. unfold validate_command_name.
    destruct (strip nm) as [|c t] eqn:E; [done|].
    assert (has_char 47 (c :: t) || has_char 92 (c :: t) = true) as ->; [|done].
    apply orb_true_iff.
    destruct Hsep as [H|H]; [left|right]; apply existsb_exists;
      eexists; (split; [by apply list_elem_of_In|apply N.eqb_refl]).
Qed.

Lemma validate_command_name_rejects_witness :
  strip (lit "../escape") ≠ []
  ∧ 47 ∈ strip (lit "../escape")
  ∧ validate_command_name (lit "../escape")
    = Raise (ValueError (lit "Command name cannot contain path separators")).
Proof.
  assert (strip (lit "../escape") ≠ []) as Hne by (by vm_compute).
  assert (47 ∈ strip (lit "../escape")) as Hin.
  { apply list_elem_of_In. vm_compute. auto. }
  split_and!; [exact Hne | exact Hin |].
  exact (proj2 (proj2 validate_command_name_rejects) _ Hne (or_introl Hin)).
Defined.

End NameProperties.

(** ** validators.py: front matter *)

Section FrontmatterLemmas.
Import Yaml YamlSpec Validators.

Lemma nonblank_str_iff (v : yaml) : nonblank_str v = true ↔ NonBlank v.
Proof.
  split.
  - destruct v as [| | | |s| | | | |]; try done. cbn.
    destruct (strip s) eqn:E; [done|]. intros _. exists s. by rewrite E.
  - intros (s & -> & Hs). cbn. by destruct (strip s).
Qed.

Lemma check_handoff_field_Ok (path : list N) (i : nat) (d : list (yaml * yaml))
    (field : list N) (u : unit) :
  check_handoff_field path i d field = Ok u
  ↔ ∃ v, dict_get field d = Some v ∧ NonBlank v.
Proof.
  unfold check_handoff_field. destruct (dict_get field d) as [v|].
  - destruct (nonblank_str v) eqn:E; cbn.
    + apply nonblank_str_iff in E. destruct u. split; [eauto|done].
    + split; [done|]. intros (v' & [= <-] & Hv%nonblank_str_iff). congruence.
  - split; [done|]. by intros (v & ? & _).
Qed.

Lemma check_handoff_Ok (path : list N) (i : nat) (h : yaml) (u : unit) :
  check_handoff path i h = Ok u ↔ WellFormedHandoff h.
Proof.
  destruct u. unfold check_handoff, WellFormedHandoff.
  destruct h as [| | | | | |d| | |]; try (split; [done|by intros (? & ? & _)]).
  pose proof (check_handoff_field_Ok path i d (lit "label") tt) as Hl.
  pose proof (check_handoff_field_Ok path i d (lit "agent") tt) as Ha.
  pose proof (check_handoff_field_Ok path i d (lit "prompt") tt) as Hp.
  split.
  - intros H.
    destruct (check_handoff_field path i d (lit "label")) as [[]|]; [|done].
    destruct (check_handoff_field path i d (lit "agent")) as [[]|]; [|done].
    destruct (check_handoff_field path i d (lit "prompt")) as [[]|]; [|done].
    cbn [bind] in H. exists d.
    split_and!; [done|by apply Hl|by apply Ha|by apply Hp|].
    destruct (dict_get (lit "send") d) as [[]|]; try done; eauto.
  - intros (d' & [= <-] & Hl' & Ha' & Hp' & Hs).
    apply Hl in Hl' as ->. apply Ha in Ha' as ->. apply Hp in Hp' as ->.
    cbn [bind]. by destruct Hs as [->|[b ->]].
Qed.

Lemma check_handoffs_Ok (path : list N) (i : nat) (l : list yaml) (u : unit) :
  check_handoffs path i l = Ok u ↔ Forall WellFormedHandoff l.
Proof.
  destruct u. revert i. induction l as [|h l IH]; intros i; cbn [check_handoffs].
  - split; [constructor|done].
  - rewrite Forall_cons, <- (IH (S i)), <- (check_handoff_Ok path i h tt).
    destruct (check_handoff path i h) as [[]|]; cbn [bind]; [tauto|].
    split; [done|by intros [? _]].
Qed.

Lemma check_handoff_field_Raise (path : list N) (i : nat)
    (d : list (yaml * yaml)) (field : list N) (e : exn) :
  check_handoff_field path i d field = Raise e →
  ∃ msg, e = CommandParseError path msg.
Proof.
  unfold check_handoff_field. destruct (dict_get field d) as [v|].
  - destruct (negb (nonblank_str v)); [|done]. intros [= <-]. eauto.
  - intros [= <-]. eauto.
Qed.

Lemma check_handoff_Raise (path : list N) (i : nat) (h : yaml) (e : exn) :
  check_handoff path i h = Raise e → ∃ msg, e = CommandParseError path msg.
Proof.
  unfold check_handoff.
  destruct h as [| | | | | |d| | |]; try (intros [= <-]; eauto).
  destruct (check_handoff_field path i d (lit "label")) as [[]|e1] eqn:E1;
    cbn [bind]; [|intros [= <-]; by eapply check_handoff_field_Raise].
  destruct (check_handoff_field path i d (lit "agent")) as [[]|e2] eqn:E2;
    cbn [bind]; [|intros [= <-]; by eapply check_handoff_field_Raise].
  destruct (check_handoff_field path i d (lit "prompt")) as [[]|e3] eqn:E3;
    cbn [bind]; [|intros [= <-]; by eapply check_handoff_field_Raise].
  destruct (dict_get (lit "send") d) as [[]|]; try done; intros [= <-]; eauto.
Qed.

(** The loop over the handoffs raises nothing but [CommandParseError]s
    that name the file. *)
Lemma check_handoffs_Raise (path : list N) (i : nat) (l : list yaml) (e : exn) :
  check_handoffs path i l = Raise e → ∃ msg, e = CommandParseError path msg.
Proof.
  revert i. induction l as [|h l IH]; intros i; cbn [check_handoffs]; [done|].
  destruct (check_handoff path i h) as [[]|e'] eqn:E; cbn [bind]; [apply IH|].
  intros [= <-]. by eapply check_handoff_Raise.
Qed.

Lemma validate_yaml_frontmatter_Ok (frontmatter validated : list (yaml * yaml))
    (path : list N) :
  validate_yaml_frontmatter frontmatter path = Ok validated
  ↔ validated = frontmatter ∧ WellFormed frontmatter.
Proof.
  unfold validate_yaml_frontmatter, WellFormed, WellFormedHandoffs.
  destruct (dict_get (lit "description") frontmatter) as [v|];
    [|split; [done|by intros [_ [(? & ? & _) _]]]].
  destruct v as [| | | |d| | | | |];
    try (split; [done|by intros [_ [(? & [= <-] & (? & ? & _)) _]]]).
  destruct (strip d) as [|c t] eqn:Hd.
  { split; [done|]. intros [_ [(? & [= <-] & (s & [= <-] & Hs)) _]]. done. }
  assert (∃ v, Some (YStr d) = Some v ∧ NonBlank v) as Hdesc.
  { eexists. split; [done|]. exists d. by rewrite Hd. }
  destruct (dict_get (lit "handoffs") frontmatter) as [h|].
  - destruct h as [|b|z|nz|s|hs|dd|o|ms|bs]; cbn [truthy].
    + split; [done|tauto].
    + destruct b; (split; [done|tauto]).
    + destruct (negb (z =? 0)%Z); (split; [done|tauto]).
    + destruct nz; (split; [done|tauto]).
    + destruct s; [|split; [done|tauto]]. split; [by intros [= <-]|by intros [-> _]].
    + pose proof (check_handoffs_Ok path 0 hs tt) as Hl.
      destruct (check_handoffs path 0 hs) as [[]|]; cbn [bind].
      * split; [intros [= <-]; tauto|by intros [-> _]].
      * split; [done|]. intros [_ [_ Hf]]. by apply Hl in Hf.
    + destruct dd; [|split; [done|tauto]]. split; [by intros [= <-]|by intros [-> _]].
    + split; [done|tauto].
    + destruct ms; [|split; [done|tauto]]. split; [by intros [= <-]|by intros [-> _]].
    + destruct bs; [|split; [done|tauto]]. split; [by intros [= <-]|by intros [-> _]].
  - cbn. split; [by intros [= <-]|by intros [-> _]].
Qed.

Lemma validate_yaml_frontmatter_Raise (frontmatter : list (yaml * yaml))
    (path : list N) (e : exn) :
  validate_yaml_frontmatter frontmatter path = Raise e →
  (∃ msg, e = CommandParseError path msg)
  ∨ (∃ h, dict_get (lit "handoffs") frontmatter = Some h ∧ not_iterable h
          ∧ e = TypeError (lit "'" ++ type_name h
                           ++ lit "' object is not iterable")).
Proof.
  unfold validate_yaml_frontmatter, not_iterable. revert e.
  - intros e.
    destruct (dict_get (lit "description") frontmatter) as [v|];
      [|intros [= <-]; eauto].
    destruct v as [| | | |d| | | | |]; try (intros [= <-]; eauto).
    destruct (strip d); [intros [= <-]; eauto|].
    destruct (dict_get (lit "handoffs") frontmatter) as [h|]; [|done].
    destruct h as [|b|z|nz|s|hs|dd|o|ms|bs]; cbn [truthy].
    + intros [= <-]. right. exists YNull. auto.
    + destruct b; intros [= <-]; [eauto|]. right. exists (YBool false). auto.
    + destruct (Z.eqb_spec z 0) as [->|]; cbn [negb]; intros [= <-]; [|eauto].
      right. exists (YInt 0). auto 6.
    + destruct nz; intros [= <-]; [eauto|]. right. exists (YFloat false). auto 6.
    + destruct s; [done|]. intros [= <-]. eauto.
    + destruct (check_handoffs path 0 hs) as [[]|e'] eqn:E; cbn [bind]; [done|].
      intros [= <-]. left. by eapply check_handoffs_Raise.
    + destruct dd; [done|]. intros [= <-]. eauto.
    + intros [= <-]. eauto.
    + destruct ms; [done|]. intros [= <-]. eauto.
    + destruct bs; [done|]. intros [= <-]. eauto.
Qed.

(** A set or a byte string for [handoffs] passes when it is empty and is
    refused by its type when it is not. *)
Lemma validate_yaml_frontmatter_set_bytes (path : list N) :
  let fm h := [(YStr (lit "description"), YStr (lit "x"));
               (YStr (lit "handoffs"), h)] in
  validate_yaml_frontmatter (fm (YSet [])) path = Ok (fm (YSet []))
  ∧ validate_yaml_frontmatter (fm (YBytes [])) path = Ok (fm (YBytes []))
  ∧ validate_yaml_frontmatter (fm (YSet [YInt 1])) path
    = Raise (CommandParseError path (lit "'handoffs' must be a list, got set"))
  ∧ validate_yaml_frontmatter (fm (YBytes [1])) path
    = Raise (CommandParseError path (lit "'handoffs' must be a list, got bytes")).
Proof. split_and!; reflexivity. Qed.

End FrontmatterLemmas.

Section FrontmatterProperties.
Import Yaml YamlSpec Validators Samples.

(** X4.  [validate_yaml_frontmatter] succeeds exactly on front matter with
    a non-blank string as [description] and with [handoffs] missing, a list
    of well-formed handoffs, or an empty string, dictionary, set or byte
    string (values that are false and have no items to loop over); it
    returns the front matter as it got it. *)
Theorem validate_yaml_frontmatter_accepts (frontmatter validated : list (yaml * yaml))
    (path : list N) :
  validate_yaml_frontmatter frontmatter path = Ok validated
  ↔ validated = frontmatter ∧ WellFormed frontmatter.
Proof.
  apply validate_yaml_frontmatter_Ok.
Qed.

(** X5.  When [validate_yaml_frontmatter] fails it raises a
    [CommandParseError] that names the file, with one exception: with a
    good description and [handoffs] set to null, false or zero, the loop
    over the handoffs raises a [TypeError].  Front matter without
    [description] is refused as such before anything else is looked at. *)
Theorem validate_yaml_frontmatter_rejects (frontmatter : list (yaml * yaml))
    (path : list N) :
  (∀ e, validate_yaml_frontmatter frontmatter path = Raise e →
     (∃ msg, e = CommandParseError path msg)
     ∨ (∃ h, dict_get (lit "handoffs") frontmatter = Some h ∧ not_iterable h
             ∧ e = TypeError (lit "'" ++ type_name h
                              ++ lit "' object is not iterable")))
  ∧ (∀ v h, dict_get (lit "description") frontmatter = Some v → NonBlank v →
       dict_get (lit "handoffs") frontmatter = Some h → not_iterable h →
       validate_yaml_frontmatter frontmatter path
       = Raise (TypeError (lit "'" ++ type_name h
                           ++ lit "' object is not iterable")))
  ∧ (dict_get (lit "description") frontmatter = None →
     validate_yaml_frontmatter frontmatter path
     = Raise (CommandParseError path
                (lit "Missing required field: 'description'"))).
Proof.
  split_and!.
  - apply validate_yaml_frontmatter_Raise.
  - unfold validate_yaml_frontmatter, not_iterable.
    intros v h -> (d & -> & Hd) -> Hh.
    destruct (strip d); [done|].
    by destruct Hh as [->|[->|[->| ->]]].
  - unfold validate_yaml_frontmatter. by intros ->.
Qed.

Lemma validate_yaml_frontmatter_rejects_witness :
  let fm := [(YStr (lit "description"), YStr (lit "x"));
             (YStr (lit "handoffs"), YNull)] in
  dict_get (lit "description") fm = Some (YStr (lit "x"))
  ∧ dict_get (lit "handoffs") fm = Some YNull
  ∧ validate_yaml_frontmatter fm (lit "/commands/a.md")
    = Raise (TypeError (lit "'NoneType' object is not iterable")).
Proof.
  cbn zeta. split_and!; [reflexivity | reflexivity |].
  refine (proj1 (proj2 (validate_yaml_frontmatter_rejects
                          [(YStr (lit "description"), YStr (lit "x"));
                           (YStr (lit "handoffs"), YNull)]
                          (lit "/commands/a.md")))
            (YStr (lit "x")) YNull eq_refl _ eq_refl (or_introl eq_refl)).
  exists (lit "x"). split; [reflexivity|by vm_compute].
Defined.

End FrontmatterProperties.

(** ** The size checks and the errors of the handler *)

Section SizeProperties.
Import Registry Handler SizeChecks Samples.

(** X6.  The three size checks agree on every input.  For a registered
    command, [process_prompt] fails on an input exactly when
    [validate_input_text] fails on it, and with the same exception.  The
    validator of [PromptArguments] accepts exactly the inputs that
    [validate_input_text] accepts and returns them unchanged; where
    [validate_input_text] raises [InputTooLargeError] it raises a
    [ValueError] whose text gives the same size, and the other way round;
    on an input that cannot be encoded both raise the same
    [UnicodeEncodeError].  Whatever the validator raises is an instance of
    [ValueError]. *)
Theorem size_checks_agree (registry : CommandRegistry) (nm : list N)
    (cmd : CommandDefinition) (u : list N) :
  get nm registry = Some cmd →
  (∀ e, process_prompt registry nm (Some u) = Raise e
        ↔ validate_input_text (Some u) = Raise e)
  ∧ ((∃ out, process_prompt registry nm (Some u) = Ok out)
     ↔ validate_input_text (Some u) = Ok (Some u))
  ∧ (∀ v, validate_input_size (Some u) = Ok v
          ↔ validate_input_text (Some u) = Ok v)
  ∧ validate_input_size None = validate_input_text None
  ∧ (∀ size max_size,
       validate_input_text (Some u) = Raise (InputTooLargeError size max_size) →
       max_size = MAX_INPUT_SIZE_BYTES
       ∧ validate_input_size (Some u) = Raise (ValueError (size_message size)))
  ∧ (∀ msg, validate_input_size (Some u) = Raise (ValueError msg) →
       ∃ size, validate_input_text (Some u)
               = Raise (InputTooLargeError size MAX_INPUT_SIZE_BYTES))
  ∧ (∀ msg, validate_input_text (Some u) = Raise (UnicodeEncodeError msg)
            ↔ validate_input_size (Some u) = Raise (UnicodeEncodeError msg))
  ∧ (∀ e, validate_input_size (Some u) = Raise e →
       is_ValueError e = true ∧ ∃ e', validate_input_text (Some u) = Raise e')
  ∧ (∀ e, validate_input_text (Some u) = Raise e →
       ∃ e', validate_input_size (Some u) = Raise e').
Proof.
  intros Hget. unfold validate_input_text, validate_input_size, validate_file_size.
  cbn [default].
  destruct (utf8_encode u) as [bytes|e'] eqn:Hu; cbn [bind].
  - rewrite (process_prompt_Some _ _ _ _ _ Hget Hu).
    destruct (len bytes >? MAX_INPUT_SIZE_BYTES)%Z; cbn [bind].
    + split_and!; try done.
      * intros e; split; intros [= <-]; reflexivity.
      * split; [by intros [? ?]|done].
      * by intros size max_size [= <- <-].
      * intros msg _. by eexists.
      * intros e [= <-]. split; [done|by eexists].
      * intros e _. by eexists.
    + split_and!; try done.
      * intros e. by destruct (has_arguments cmd).
      * split; [done|]. intros _. destruct (has_arguments cmd); eauto.
  - rewrite (process_prompt_unencodable _ _ _ _ _ Hget Hu).
    destruct (utf8_encode_Raise _ _ Hu) as [msg ->].
    split_and!; try done.
    + intros e; split; intros [= <-]; reflexivity.
    + split; [by intros [? ?]|done].
    + intros e [= <-]. split; [done|by eexists].
    + intros e _. by eexists.
Qed.

Lemma size_checks_agree_witness :
  get (lit "use") sample_registry = Some use_cmd
  ∧ validate_input_text (Some [55296])
    = Raise (UnicodeEncodeError (lit "surrogates not allowed"))
  ∧ validate_input_size (Some [55296])
    = Raise (UnicodeEncodeError (lit "surrogates not allowed")).
Proof.
  assert (get (lit "use") sample_registry = Some use_cmd) as Hget
    by (vm_compute; reflexivity).
  assert (validate_input_text (Some [55296])
          = Raise (UnicodeEncodeError (lit "surrogates not allowed"))) as Ht
    by (vm_compute; reflexivity).
  split; [exact Hget|]. split; [exact Ht|].
  destruct (size_checks_agree sample_registry (lit "use") use_cmd [55296] Hget)
    as (_ & _ & _ & _ & _ & _ & Hu & _).
  by apply Hu.
Defined.

(** X7.  [process_prompt] fails in three ways only: the name is not
    registered ([CommandNotFoundError]); the input has more than 102400
    bytes ([InputTooLargeError] with the byte count); the input holds a
    surrogate and cannot be encoded ([UnicodeEncodeError]).  Without input
    a registered command gives its body as it is, placeholder included. *)
Theorem process_prompt_failures (registry : CommandRegistry) (nm : list N) :
  (∀ input e, process_prompt registry nm input = Raise e →
     (get nm registry = None
      ∧ e = CommandNotFoundError nm (list_commands registry))
     ∨ (∃ cmd u bytes, get nm registry = Some cmd ∧ input = Some u
          ∧ utf8_encode u = Ok bytes ∧ (MAX_INPUT_SIZE_BYTES < len bytes)%Z
          ∧ e = InputTooLargeError (len bytes) MAX_INPUT_SIZE_BYTES)
     ∨ (∃ cmd u msg, get nm registry = Some cmd ∧ input = Some u
          ∧ utf8_encode u = Raise (UnicodeEncodeError msg)
          ∧ e = UnicodeEncodeError msg))
  ∧ (∀ cmd, get nm registry = Some cmd →
       process_prompt registry nm None = Ok (content cmd)).
Proof.
  split; [|intros cmd; apply process_prompt_None].
  intros input e H. destruct (get nm registry) as [cmd|] eqn:Hget.
  - right. destruct input as [u|];
      [|by rewrite (process_prompt_None _ _ _ Hget) in H].
    destruct (utf8_encode u) as [bytes|e'] eqn:Hu.
    + left. rewrite (process_prompt_Some _ _ _ _ _ Hget Hu) in H.
      destruct (Z.gtb_spec (len bytes) MAX_INPUT_SIZE_BYTES) as [Hgt|].
      * injection H as <-. by exists cmd, u, bytes.
      * by destruct (has_arguments cmd).
    + right. rewrite (process_prompt_unencodable _ _ _ _ _ Hget Hu) in H.
      injection H as <-. destruct (utf8_encode_Raise _ _ Hu) as [msg ->].
      by exists cmd, u, msg.
  - left. split; [done|]. unfold process_prompt in H. rewrite Hget in H.
    rewrite CommandNotFoundError_init_Some in H. by injection H as <-.
Qed.

Lemma process_prompt_failures_witness :
  process_prompt sample_registry (lit "use") (Some [55296])
  = Raise (UnicodeEncodeError (lit "surrogates not allowed"))
  ∧ ∃ cmd u msg, get (lit "use") sample_registry = Some cmd
      ∧ Some [55296] = Some u
      ∧ utf8_encode u = Raise (UnicodeEncodeError msg).
Proof.
  assert (process_prompt sample_registry (lit "use") (Some [55296])
          = Raise (UnicodeEncodeError (lit "surrogates not allowed"))) as H
    by (vm_compute; reflexivity).
  split; [exact H|].
  destruct (proj1 (process_prompt_failures sample_registry (lit "use")) _ _ H)
    as [[Hn _]|[(cmd & u & bytes & _ & _ & _ & _ & He)|(cmd & u & msg & Hg & Hi & Hu & _)]].
  - vm_compute in Hn. discriminate Hn.
  - discriminate He.
  - by exists cmd, u, msg.
Defined.

End SizeProperties.

(** ** handler.py: more on [sanitize_input] *)

Section SanitizeMoreLemmas.
Import Handler SanitizeSpec Occurrences.

Local Abbreviation TAIL9 := [65; 82; 71; 85; 77; 69; 78; 84; 83].

Lemma contains_cons (p : list N) (c : N) (s : list N) :
  contains p s = true → contains p (c :: s) = true.
Proof. intros H. cbn [contains]. rewrite H. apply orb_true_r. Qed.

Lemma contains_app_l (p a s : list N) :
  contains p s = true → contains p (a ++ s) = true.
Proof. intros H. induction a as [|c a IH]; [done|]. by apply contains_cons. Qed.

Lemma any_brace_cons (c : N) (s : list N) :
  any_brace s = true → any_brace (c :: s) = true.
Proof. intros H. cbn [any_brace]. rewrite H. apply orb_true_r. Qed.

(** A text without occurrences passes through unchanged. *)
Lemma escape_pass_none (inside : bool) (t : list N) :
  contains ARGUMENTS t = false → any_brace t = false → escape_pass inside t = t.
Proof.
  revert inside. induction t as [|c t IH]; intros inside Ha Hb; [done|].
  cbn [contains] in Ha. cbn [any_brace] in Hb.
  apply orb_false_iff in Ha as [Ha Ha']. apply orb_false_iff in Hb as [Hb Hb'].
  cbn [escape_pass]. unfold args_here. rewrite Ha, Hb, andb_false_r.
  cbn [orb app]. by rewrite IH.
Qed.

(** A text that passes through unchanged has no occurrences. *)
Lemma escape_pass_fixed (t : list N) :
  escape_pass false t = t → contains ARGUMENTS t = false ∧ any_brace t = false.
Proof.
  induction t as [|c t IH]; [done|]. cbn [escape_pass negb andb].
  destruct (args_here (c :: t) || brace_here (c :: t)) eqn:E.
  - assert (c = 36) as ->.
    { apply (esc_head false c t). by rewrite andb_true_l. }
    cbn [app]. intros [= ?].
  - apply orb_false_iff in E as [Ha Hb]. rewrite Hb, orb_false_r.
    cbn [app]. intros [= Ht].
    assert (escape_pass false t = t) as Ht'.
    { by destruct (c =? 125). }
    destruct (IH Ht') as [Ha' Hb']. cbn [contains any_brace].
    unfold args_here in Ha. by rewrite Ha, Hb, Ha', Hb'.
Qed.

(** Characters other than dollar and closing brace are copied and leave
    the state of the pass alone. *)
Lemma escape_pass_skip (inside : bool) (x r : list N) :
  Forall (fun c => c ≠ 36 ∧ c ≠ 125) x →
  escape_pass inside (x ++ r) = x ++ escape_pass inside r.
Proof.
  induction 1 as [|c x [H36 H125] _ IH]; [done|].
  cbn [app escape_pass].
  rewrite args_here_head, brace_here_head by done.
  apply N.eqb_neq in H125. rewrite H125, andb_false_r, !orb_false_r.
  cbn [orb app]. by rewrite IH.
Qed.

(** The placeholder stays in the text, behind its backslash. *)
Lemma escape_pass_keeps_args (inside : bool) (t : list N) :
  contains ARGUMENTS t = true → contains ARGUMENTS (escape_pass inside t) = true.
Proof.
  revert inside. induction t as [|c t IH]; intros inside H; [done|].
  cbn [escape_pass].
  destruct (args_here (c :: t)) eqn:Ha.
  - destruct (args_here_inv _ Ha) as [r Hr].
    assert (c = 36 ∧ t = TAIL9 ++ r) as [-> ->] by (split; congruence).
    cbn [orb app].
    rewrite (escape_pass_skip _ TAIL9 r)
      by (repeat constructor; done).
    apply contains_cons. cbn [contains].
    change (36 :: TAIL9 ++ ?x) with (ARGUMENTS ++ x).
    by rewrite startswith_app_r.
  - cbn [contains] in H. unfold args_here in Ha. rewrite Ha in H.
    cbn [orb] in H. apply contains_app_l, contains_cons. by apply IH.
Qed.

Lemma brace_pass_keeps_brace (t : list N) :
  any_brace t = true → any_brace (brace_pass false t) = true.
Proof.
  induction t as [t IH] using (induction_ltof1 _ (@length N)).
  unfold ltof in IH. destruct t as [|c t]; [done|]. intros H.
  rewrite <- re_sub_brace_pass, re_sub_brace_cons.
  destruct (match_brace (c :: t)) as [body|] eqn:Hm.
  - destruct (match_brace_Some _ _ Hm) as (rest & Hs & Hne & Hb).
    unfold brace_template. cbn [app]. apply any_brace_cons.
    cbn [any_brace].
    assert (brace_here (36 :: 123 :: (body ++ [125])
                          ++ re_sub_brace (drop (length body + 2) t)) = true)
      as ->; [|done].
    apply brace_here_iff. exists body, (re_sub_brace (drop (length body + 2) t)).
    split_and!; [by rewrite <- app_assoc|done|by apply has_char_false].
  - cbn [any_brace] in H. rewrite (match_brace_here (c :: t)), Hm in H.
    rewrite bool_decide_false in H by (intros [? ?]; done). cbn [orb] in H.
    apply any_brace_cons. rewrite re_sub_brace_pass. apply IH; [cbn; lia|done].
Qed.

(** What starts the escaped text and has no backslash in it starts the
    text itself. *)
Lemma startswith_Escaped (e s p : list N) :
  Escaped e s → has_char 92 p = false → startswith p e = true →
  startswith p s = true.
Proof.
  intros H. revert p. induction H as [|c e s _ IH|e s _ IH]; intros p Hp Hs.
  - by destruct p.
  - destruct p as [|x p]; [done|]. cbn [startswith] in *.
    rewrite has_char_cons in Hp. apply orb_false_iff in Hp as [_ Hp].
    apply andb_true_iff in Hs as [-> Hs]. cbn. by apply IH.
  - destruct p as [|x p]; [done|]. cbn [startswith] in Hs.
    rewrite has_char_cons in Hp. apply orb_false_iff in Hp as [Hx _].
    apply andb_true_iff in Hs as [Hx' _]. rewrite N.eqb_sym in Hx'. congruence.
Qed.

Lemma escape_pass_guarded (inside : bool) (prev : option N) (t : list N) :
  guarded prev (escape_pass inside t) = true.
Proof.
  revert inside prev. induction t as [|c t IH]; intros inside prev; [done|].
  cbn [escape_pass].
  destruct (args_here (c :: t) || negb inside && brace_here (c :: t)) eqn:E.
  - apply esc_head in E as ->. cbn [app guarded].
    rewrite (args_here_head 92) by done. cbn [negb orb andb].
    by rewrite orb_true_r, IH.
  - cbn [app guarded]. rewrite IH, andb_true_r.
    apply orb_false_iff in E as [Ha _].
    assert (args_here (c :: escape_pass
                         (if c =? 125 then false else inside || brace_here (c :: t)) t)
            = false) as ->; [|done].
    apply not_true_iff_false. intros Hout. apply not_true_iff_false in Ha.
    apply Ha. unfold args_here, ARGUMENTS in *.
    change (startswith (36 :: TAIL9) (c :: ?x))
      with ((36 =? c) && startswith TAIL9 x) in *.
    apply andb_true_iff in Hout as [-> Hout]. cbn [andb].
    eapply startswith_Escaped; [apply escape_pass_Escaped|done|exact Hout].
Qed.

(** What [guarded] says about a text cut at an occurrence. *)
Lemma guarded_app (prev : option N) (a b : list N) :
  guarded prev (a ++ ARGUMENTS ++ b) = true →
  match last a with
  | Some c => c = 92
  | None => prev = Some 92
  end.
Proof.
  revert prev. induction a as [|c a IH]; intros prev H.
  - cbn [app last] in *.
    assert (args_here (ARGUMENTS ++ b) = true) as Ha
      by (apply args_here_iff; by exists b).
    unfold ARGUMENTS in H at 1, Ha. cbn [app guarded] in H, Ha.
    apply andb_true_iff in H as [H _]. rewrite Ha in H. cbn [negb orb] in H.
    destruct prev as [x|]; [|done].
    destruct (decide (x = 92)) as [->|Hx]; [done|].
    destruct x as [|p]; [done|]. exfalso.
    repeat (destruct p as [p|p|]; try done).
  - cbn [app guarded] in H. apply andb_true_iff in H as [_ H].
    apply IH in H. destruct a as [|c' a]; [by injection H|].
    change (last (c :: c' :: a)) with (last (c' :: a)).
    destruct (last (c' :: a)) eqn:El; [exact H|].
    by apply last_None in El.
Qed.

End SanitizeMoreLemmas.

Section SanitizeProperties.
Import Handler SanitizeSpec Occurrences.

(** X8.  [sanitize_input] returns a text unchanged exactly when the text
    has no occurrence of [$ARGUMENTS] and no occurrence of the brace
    pattern. *)
Theorem sanitize_input_fixed_points (text : list N) :
  sanitize_input text = text
  ↔ contains ARGUMENTS text = false ∧ any_brace text = false.
Proof.
  rewrite sanitize_input_escape_pass. split.
  - apply escape_pass_fixed.
  - intros [Ha Hb]. by apply escape_pass_none.
Qed.

(** X9.  [sanitize_input] is not idempotent: sanitizing a second time
    changes the text again, unless the first time changed nothing. *)
Theorem sanitize_input_twice (text : list N) :
  sanitize_input (sanitize_input text) = sanitize_input text
  ↔ sanitize_input text = text.
Proof.
  split; [|intros H; by rewrite !H].
  intros H. rewrite !sanitize_input_escape_pass in *.
  apply escape_pass_fixed in H as [Ha Hb].
  destruct (contains ARGUMENTS text) eqn:Hargs.
  - apply (escape_pass_keeps_args false) in Hargs. congruence.
  - destruct (any_brace text) eqn:Hbrace; [|by apply escape_pass_none].
    assert (escape_pass false text = brace_pass false text) as Heq.
    { rewrite <- sanitize_input_escape_pass. unfold sanitize_input.
      unfold ARGUMENTS in *. rewrite str_replace_absent by done.
      apply re_sub_brace_pass. }
    rewrite Heq in Hb. apply brace_pass_keeps_brace in Hbrace. congruence.
Qed.

(** X10.  In what [sanitize_input] returns, every occurrence of
    [$ARGUMENTS] has a backslash directly before it. *)
Theorem sanitize_input_guards_placeholder (text before after : list N) :
  sanitize_input text = before ++ ARGUMENTS ++ after →
  ∃ before', before = before' ++ [92].
Proof.
  intros H. pose proof (escape_pass_guarded false None text) as Hg.
  rewrite <- sanitize_input_escape_pass, H in Hg.
  apply guarded_app in Hg.
  destruct (last before) as [c|] eqn:El; [|done]. subst c.
  apply last_Some in El as [l' ->]. by exists l'.
Qed.

Lemma sanitize_input_guards_placeholder_witness :
  sanitize_input (lit "a$ARGUMENTS") = lit "a\" ++ ARGUMENTS ++ []
  ∧ ∃ before', lit "a\" = before' ++ [92].
Proof.
  assert (sanitize_input (lit "a$ARGUMENTS") = lit "a\" ++ ARGUMENTS ++ []) as H
    by (vm_compute; reflexivity).
  split; [exact H|].
  exact (sanitize_input_guards_placeholder _ _ _ H).
Defined.

End SanitizeProperties.

(** ** loader.py: what [parse_command_file] builds and how it fails *)

Section LoaderMoreLemmas.
Import Yaml YamlSpec Validators Models Loader LoaderSpec Handler.

(** The text of a path is never empty. *)
Lemma str_of_nonempty (p : PyPath.PurePath) : PyPath.str_of p ≠ [].
Proof.
  unfold PyPath.str_of. by destruct (PyPath.root p ++ PyPath.join_slash (PyPath.parts p)).
Qed.

Lemma join_path_nonempty (dir nm : list N) : join_path dir nm ≠ [].
Proof. apply str_of_nonempty. Qed.

Lemma absolute_nonempty (wd : list N) (p : PyPath.PurePath) : absolute wd p ≠ [].
Proof. apply str_of_nonempty. Qed.

(** The path is made as [pathlib] makes it: a directory given as ["."],
    as the empty string, with slashes at its end or with a dot in front
    leaves no trace of these in the path of its entries. *)
Lemma join_path_normalises :
  join_path (lit ".") (lit "a.md") = lit "a.md"
  ∧ join_path [] (lit "a.md") = lit "a.md"
  ∧ join_path (lit "cmds//") (lit "a.md") = lit "cmds/a.md"
  ∧ join_path (lit "./cmds") (lit "a.md") = lit "cmds/a.md"
  ∧ join_path (lit "/") (lit "a.md") = lit "/a.md"
  ∧ join_path (lit "//srv/cmds") (lit "a.md") = lit "//srv/cmds/a.md"
  ∧ join_path (lit "///srv/../cmds/") (lit "a.md") = lit "/srv/../cmds/a.md"
  ∧ absolute (lit "/home/u") (entry_path (lit ".") (lit "a.md"))
    = lit "/home/u/a.md"
  ∧ absolute (lit "/") (entry_path (lit "cmds") (lit "a.md")) = lit "/cmds/a.md"
  ∧ absolute (lit "/home/u") (entry_path (lit "/cmds") (lit "a.md"))
    = lit "/cmds/a.md".
Proof. split_and!; vm_compute; reflexivity. Qed.

Lemma ValidName_nonempty (k : list N) : ValidName k → k ≠ [].
Proof. by intros (c & t & -> & _). Qed.

(** The constructor of [CommandDefinition] on a name that is valid
    already. *)
Lemma CommandDefinition_init_valid (k fp : list N) (md : CommandMetadata)
    (body : list N) (ha : bool) (size mtime : Z) :
  ValidName k → fp ≠ [] →
  CommandDefinition_init k fp md body ha size mtime
  = if (size <? 0)%Z
    then Raise (ValidationError (lit "validation error: file_size"))
    else Ok {| name := k; file_path := fp; metadata := md; content := body;
               has_arguments := ha; file_size := size; last_modified := mtime |}.
Proof.
  intros Hk Hfp. unfold CommandDefinition_init.
  destruct (validate_command_name_valid _ Hk) as [_ Hok].
  change (name_validator k) with (validate_command_name k). rewrite Hok.
  destruct k; [by apply ValidName_nonempty in Hk|]. cbn [try_except bind].
  by destruct fp.
Qed.

Lemma parse_body_Ok (self : CommandLoader) (fs : Directory) (e : DirEntry)
    (d : CommandDefinition) :
  parse_body self fs e = Ok d
  ↔ ∃ fm body md size st_mtime modified,
      entry_load e = Ok (fm, body)
      ∧ WellFormed fm
      ∧ CommandMetadata_init fm = Ok md
      ∧ ValidName (strip (stem (entry_name e)))
      ∧ entry_stat e = Ok (size, st_mtime)
      ∧ entry_datetime e = Ok modified
      ∧ (0 ≤ size)%Z
      ∧ d = {| name := strip (stem (entry_name e));
               file_path := absolute (cwd fs)
                              (entry_path (commands_dir self) (entry_name e));
               metadata := md;
               content := body;
               has_arguments := contains ARGUMENTS body;
               file_size := size;
               last_modified := modified |}.
Proof.
  unfold parse_body. split.
  - destruct (entry_load e) as [[fm body]|]; [|done]. cbn [bind fst snd].
    destruct (validate_yaml_frontmatter fm _) as [v|] eqn:Hv; [|done].
    apply validate_yaml_frontmatter_Ok in Hv as [-> Hwf]. cbn [bind].
    destruct (CommandMetadata_init fm) as [md|] eqn:Hmd; [|done]. cbn [bind].
    destruct (validate_command_name (stem (entry_name e))) as [k|] eqn:Hk; [|done].
    apply validate_command_name_Ok in Hk as [-> Hk]. cbn [bind].
    destruct (entry_stat e) as [[size st_mtime]|]; [|done]. cbn [bind fst snd].
    destruct (entry_datetime e) as [modified|]; [|done]. cbn [bind].
    rewrite CommandDefinition_init_valid by (done || apply absolute_nonempty).
    destruct (Z.ltb_spec size 0); [done|]. intros [= <-].
    exists fm, body, md, size, st_mtime, modified. by split_and!.
  - intros (fm & body & md & size & st_mtime & modified
            & -> & Hwf & Hmd & Hk & -> & -> & Hsize & ->).
    cbn [bind fst snd].
    assert (validate_yaml_frontmatter fm
              (join_path (commands_dir self) (entry_name e)) = Ok fm) as ->
      by by apply validate_yaml_frontmatter_Ok.
    cbn [bind]. rewrite Hmd. cbn [bind].
    assert (validate_command_name (stem (entry_name e))
            = Ok (strip (stem (entry_name e)))) as ->.
    { unfold validate_command_name.
      destruct (validate_command_name_valid _ Hk) as [Hs Hok].
      unfold validate_command_name in Hok. by rewrite Hs in Hok. }
    cbn [bind]. rewrite CommandDefinition_init_valid
      by (done || apply absolute_nonempty).
    by destruct (Z.ltb_spec size 0); [lia|].
Qed.

(** The last of the records of a name, when all records of that name are
    one and the same. *)
Lemma last_filter_only (l : list CommandDefinition) (d : CommandDefinition) :
  d ∈ l → (∀ d', d' ∈ l → name d' = name d → d' = d) →
  last (filter (fun x => name x = name d) l) = Some d.
Proof.
  intros Hd Hall.
  destruct (last (filter (fun x => name x = name d) l)) as [d'|] eqn:El.
  - apply last_filter_elem in El as [Hin Hn]. f_equal. by apply Hall.
  - apply last_None in El.
    assert (d ∈ filter (fun x => name x = name d) l) as Hf
      by by apply list_elem_of_filter.
    rewrite El in Hf. by apply elem_of_nil in Hf.
Qed.

End LoaderMoreLemmas.

Section LoaderProperties.
Import Yaml YamlSpec Validators Models Loader LoaderSpec Registry Handler Samples.

(** X11.  [parse_command_file] returns a definition exactly when the file
    loads, its front matter is well formed and makes a [CommandMetadata],
    the trimmed stem of the file name is a valid command name, [stat] gives
    a size that is not negative, and the modification time can be turned
    into a date.  The definition then holds the trimmed stem as name, the
    absolute path as [pathlib] writes it, the body as content, the size and
    the date of the modification, and [has_arguments] tells whether the
    body contains [$ARGUMENTS].  No warning is logged, and the one debug
    record names the command and the file. *)
Theorem parse_command_file_succeeds (self : CommandLoader) (fs : Directory)
    (e : DirEntry) (d : CommandDefinition) :
  (fst (parse_command_file self fs e) = Ok d
   ↔ ∃ fm body md size st_mtime modified,
       entry_load e = Ok (fm, body)
       ∧ WellFormed fm
       ∧ CommandMetadata_init fm = Ok md
       ∧ ValidName (strip (stem (entry_name e)))
       ∧ entry_stat e = Ok (size, st_mtime)
       ∧ entry_datetime e = Ok modified
       ∧ (0 ≤ size)%Z
       ∧ d = {| name := strip (stem (entry_name e));
                file_path := absolute (cwd fs)
                               (entry_path (commands_dir self) (entry_name e));
                metadata := md;
                content := body;
                has_arguments := contains ARGUMENTS body;
                file_size := size;
                last_modified := modified |})
  ∧ (fst (parse_command_file self fs e) = Ok d →
     snd (parse_command_file self fs e) = []
     ∧ parse_debug self fs e
       = [lit "Parsed command: " ++ strip (stem (entry_name e)) ++ lit " from "
          ++ join_path (commands_dir self) (entry_name e)]
     ∧ has_arguments d = contains ARGUMENTS (content d)).
Proof.
  split.
  - rewrite <- parse_body_Ok. split; [apply parse_command_file_Ok|].
    intros H. unfold parse_command_file. by rewrite H.
  - intros H. pose proof (parse_command_file_Ok _ _ _ _ H) as Hb.
    split; [unfold parse_command_file; by rewrite Hb|].
    unfold parse_debug. rewrite Hb.
    apply parse_body_Ok in Hb
      as (fm & body & md & size & st_mtime & modified
          & _ & _ & _ & _ & _ & _ & _ & ->).
    split; reflexivity.
Qed.

Lemma parse_command_file_succeeds_witness :
  let self := {| commands_dir := lit "./cmds//" |} in
  let fs := {| cwd := lit "/home/u"; entries := [] |} in
  let e := valid_entry "a.b.md" "Hello $ARGUMENTS" in
  ∃ d, fst (parse_command_file self fs e) = Ok d
       ∧ file_path d = lit "/home/u/cmds/a.b.md"
       ∧ snd (parse_command_file self fs e) = []
       ∧ parse_debug self fs e = [lit "Parsed command: a.b from cmds/a.b.md"].
Proof.
  intros self fs e.
  pose (d := match fst (parse_command_file self fs e) with
             | Ok d => d
             | Raise _ => use_cmd
             end).
  assert (fst (parse_command_file self fs e) = Ok d) as H
    by (vm_compute; reflexivity).
  exists d. split; [exact H|]. split; [vm_compute; reflexivity|].
  destruct (proj2 (parse_command_file_succeeds _ _ _ _) H) as (Hw & Hd & _).
  split; [exact Hw|]. rewrite Hd. vm_compute. reflexivity.
Defined.

(** X12.  From the directory to the prompt: a file that parses, and whose
    name no other parsed file shares, is served by [process_prompt] under
    its name once the result of [load_all_commands] went into the registry
    with [update_all], whatever names the other files have.  With an input
    within the size limit the answer is the body of the file with every
    [$ARGUMENTS] replaced by the sanitized input (the body itself when it
    has no placeholder); without input it is the body. *)
Theorem loaded_command_prompt (self : CommandLoader) (fs : Directory)
    (e : DirEntry) (d : CommandDefinition) (registry : CommandRegistry) :
  e ∈ discover_commands self fs →
  fst (parse_command_file self fs e) = Ok d →
  (∀ d', d' ∈ parsed_files self fs → name d' = name d → d' = d) →
  ∃ commands fm,
    load_all_commands self fs = Ok commands
    ∧ entry_load e = Ok (fm, content d)
    ∧ get (strip (stem (entry_name e))) (update_all commands registry) = Some d
    ∧ process_prompt (update_all commands registry)
        (strip (stem (entry_name e))) None = Ok (content d)
    ∧ ∀ input bytes,
        utf8_encode input = Ok bytes →
        (len bytes ≤ MAX_INPUT_SIZE_BYTES)%Z →
        process_prompt (update_all commands registry)
          (strip (stem (entry_name e))) (Some input)
        = Ok (str_replace ARGUMENTS (sanitize_input input) (content d)).
Proof.
  intros He Hd Honly.
  pose proof (parse_command_file_Ok _ _ _ _ Hd) as Hb.
  apply parse_body_Ok in Hb
    as (fm & body & md & size & st_mtime & modified
        & Hload & _ & _ & _ & _ & _ & _ & Hrec).
  assert (name d = strip (stem (entry_name e))) as Hname by by rewrite Hrec.
  assert (content d = body) as Hcontent by by rewrite Hrec.
  assert (has_arguments d = contains ARGUMENTS (content d)) as Hflag
    by by rewrite Hrec.
  rewrite <- Hname.
  eexists _, fm. split; [apply load_all_commands_foldl|].
  assert (d ∈ parsed_files self fs) as Hin.
  { unfold parsed_files. apply list_elem_of_omap. exists e. split; [done|].
    unfold parsed. by rewrite Hd. }
  assert (get (name d)
            (update_all (foldl (fun m x => <[name x := x]> m) ∅
                           (parsed_files self fs)) registry) = Some d) as Hget.
  { unfold get, update_all. cbn [_registry].
    rewrite lookup_foldl_insert. by rewrite last_filter_only. }
  split_and!; [by rewrite Hcontent|exact Hget|by apply process_prompt_None|].
  intros input bytes Hu Hsize.
  rewrite (process_prompt_Some _ _ _ _ _ Hget Hu).
  destruct (Z.gtb_spec (len bytes) MAX_INPUT_SIZE_BYTES); [lia|].
  rewrite Hflag. destruct (contains ARGUMENTS (content d)) eqn:Hc; [done|].
  unfold ARGUMENTS in *. by rewrite str_replace_absent.
Qed.

(** Two other files share a name between them; the file [x.md] is served
    all the same. *)
Lemma loaded_command_prompt_witness :
  let fs := {| cwd := lit "/";
               entries := [ valid_entry "x.md" "Hello $ARGUMENTS";
                            valid_entry " y.md" "first";
                            valid_entry "y.md" "second" ] |} in
  ¬ NoDup (name <$> parsed_files sample_loader fs)
  ∧ ∃ commands,
      load_all_commands sample_loader fs = Ok commands
      ∧ process_prompt (update_all commands init) (lit "x") (Some (lit "you"))
        = Ok (lit "Hello you").
Proof.
  intros fs. pose (e := valid_entry "x.md" "Hello $ARGUMENTS").
  pose (d := match fst (parse_command_file sample_loader fs e) with
             | Ok d => d
             | Raise _ => use_cmd
             end).
  assert (fst (parse_command_file sample_loader fs e) = Ok d) as Hd
    by (vm_compute; reflexivity).
  assert (∃ y1 y2, parsed_files sample_loader fs = [d; y1; y2]
                   ∧ name y1 = lit "y" ∧ name y2 = lit "y") as (y1 & y2 & Hp & Hy1 & Hy2).
  { eexists _, _. split; [vm_compute; reflexivity|]. split; reflexivity. }
  split.
  { rewrite Hp. cbn [fmap list_fmap]. rewrite Hy1, Hy2.
    intros Hnd. apply NoDup_cons in Hnd as [_ Hnd].
    apply NoDup_cons in Hnd as [Hnd _]. apply Hnd. by left. }
  assert (e ∈ discover_commands sample_loader fs) as He.
  { apply list_elem_of_filter. split; [by vm_compute|]. by left. }
  assert (∀ d', d' ∈ parsed_files sample_loader fs → name d' = name d → d' = d)
    as Honly.
  { intros d'. rewrite Hp. intros Hin Hn.
    apply elem_of_cons in Hin as [->|Hin]; [done|].
    apply elem_of_cons in Hin as [->|Hin].
    { rewrite Hy1 in Hn. vm_compute in Hn. discriminate Hn. }
    apply elem_of_cons in Hin as [->|Hin]; [|by apply elem_of_nil in Hin].
    rewrite Hy2 in Hn. vm_compute in Hn. discriminate Hn. }
  destruct (loaded_command_prompt sample_loader fs e d init He Hd Honly)
    as (commands & fm & Hl & _ & _ & _ & Hprompt).
  exists commands. split; [exact Hl|].
  exact (Hprompt (lit "you") (lit "you") eq_refl ltac:(by vm_compute)).
Defined.

End LoaderProperties.

Section LoaderErrorLemmas.
Import Yaml YamlSpec Fmt Validators Models Loader LoaderSpec Handler.

Lemma validate_command_name_Raise (nm : list N) (e : exn) :
  validate_command_name nm = Raise e → ∃ msg, e = ValueError msg.
Proof.
  unfold validate_command_name. destruct (strip nm) as [|c t]; [intros [= <-]; eauto|].
  destruct (has_char 47 (c :: t) || has_char 92 (c :: t)); [intros [= <-]; eauto|].
  destruct (negb (match_command_name (c :: t))); [intros [= <-]; eauto|done].
Qed.

Lemma required_str_Raise (field : list N) (d : list (yaml * yaml)) (e : exn) :
  required_str field d = Raise e → ∃ msg, e = ValidationError msg.
Proof.
  unfold required_str. destruct (dict_get field d) as [[| | | |[|c s]| | | | |]|];
    try done; intros [= <-]; eauto.
Qed.

Lemma HandoffLink_init_Raise (v : yaml) (e : exn) :
  HandoffLink_init v = Raise e → ∃ msg, e = ValidationError msg.
Proof.
  unfold HandoffLink_init. destruct v as [| | | | | |d| | |]; try (intros [= <-]; eauto).
  destruct (required_str (lit "label") d) eqn:E1; cbn [bind];
    [|intros [= <-]; by eapply required_str_Raise].
  destruct (required_str (lit "agent") d) eqn:E2; cbn [bind];
    [|intros [= <-]; by eapply required_str_Raise].
  destruct (required_str (lit "prompt") d) eqn:E3; cbn [bind];
    [|intros [= <-]; by eapply required_str_Raise].
  destruct (dict_get (lit "send") d) as [[| | | | | | | | |]|]; cbn [bind];
    try done; intros [= <-]; eauto.
Qed.

Lemma HandoffLink_list_Raise (l : list yaml) (e : exn) :
  HandoffLink_list l = Raise e → ∃ msg, e = ValidationError msg.
Proof.
  induction l as [|v l IH]; [done|]. cbn [HandoffLink_list].
  destruct (HandoffLink_init v) eqn:E; cbn [bind];
    [|intros [= <-]; by eapply HandoffLink_init_Raise].
  destruct (HandoffLink_list l); cbn [bind]; [done|].
  intros [= <-]. by apply IH.
Qed.

Lemma CommandMetadata_init_Raise (d : list (yaml * yaml)) (e : exn) :
  CommandMetadata_init d = Raise e →
  (∃ msg, e = TypeError msg) ∨ (∃ msg, e = ValidationError msg).
Proof.
  unfold CommandMetadata_init.
  destruct (negb (forallb (fun kv => is_str (fst kv)) d)); [intros [= <-]; eauto|].
  destruct (required_str (lit "description") d) eqn:E1; cbn [bind];
    [|intros [= <-]; right; by eapply required_str_Raise].
  destruct (dict_get (lit "handoffs") d) as [[| | | | |l| | |l|]|]; cbn [bind];
    try done; try (intros [= <-]; eauto).
  all: destruct (HandoffLink_list l) eqn:E2; cbn [bind]; [done|].
  all: intros [= <-]; right; by eapply HandoffLink_list_Raise.
Qed.

(** What the [try] block raises is a [CommandParseError] for the file, or
    it is no [CommandParseError] at all. *)
Lemma parse_body_Raise (self : CommandLoader) (fs : Directory) (e : DirEntry)
    (ex : exn) :
  (∀ fp msg, entry_load e ≠ Raise (CommandParseError fp msg)) →
  (∀ fp msg, entry_stat e ≠ Raise (CommandParseError fp msg)) →
  (∀ fp msg, entry_datetime e ≠ Raise (CommandParseError fp msg)) →
  parse_body self fs e = Raise ex →
  (∃ msg, ex = CommandParseError (join_path (commands_dir self) (entry_name e)) msg)
  ∨ (∀ fp msg, ex ≠ CommandParseError fp msg).
Proof.
  intros Hload Hstat Hdate. unfold parse_body.
  destruct (entry_load e) as [[fm body]|ex0] eqn:El; cbn [bind fst snd].
  2:{ intros [= <-]. right. intros fp msg ->. by eapply Hload. }
  destruct (validate_yaml_frontmatter fm _) as [v|ex0] eqn:Hv; cbn [bind].
  2:{ intros [= <-].
      apply validate_yaml_frontmatter_Raise in Hv as [?|(h & _ & _ & ->)]; [by left|].
      by right. }
  destruct (CommandMetadata_init v) as [md|ex0] eqn:Hmd; cbn [bind].
  2:{ intros [= <-].
      apply CommandMetadata_init_Raise in Hmd as [[? ->]|[? ->]]; by right. }
  destruct (validate_command_name (stem (entry_name e))) as [k|ex0] eqn:Hk;
    cbn [bind].
  2:{ intros [= <-]. apply validate_command_name_Raise in Hk as [? ->]. by right. }
  apply validate_command_name_Ok in Hk as [_ Hk].
  destruct (entry_stat e) as [[size mtime]|ex0] eqn:Es; cbn [bind fst snd].
  2:{ intros [= <-]. right. intros fp msg ->. by eapply Hstat. }
  destruct (entry_datetime e) as [modified|ex0] eqn:Ed; cbn [bind].
  2:{ intros [= <-]. right. intros fp msg ->. by eapply Hdate. }
  rewrite CommandDefinition_init_valid by (done || apply absolute_nonempty).
  destruct (size <? 0)%Z; [|done]. intros [= <-]. by right.
Qed.

End LoaderErrorLemmas.

Section LoaderErrorProperties.
Import Yaml YamlSpec Fmt Validators Models Loader LoaderSpec Handler Samples.

(** X13.  Reading the file, [stat] and the conversion of the modification
    time are library calls and raise no [CommandParseError] of their own;
    then every failure of [parse_command_file] is a [CommandParseError]
    that carries the path of the file as [pathlib] writes it.  A YAML error
    is reported as "YAML parsing error: ..." and logged; front matter
    without [description] is reported as a missing field and not logged
    here; a file name whose stem is no valid command name, and a
    modification time that cannot be turned into a date, are reported as
    "Unexpected error: ..." with the message of the exception, and
    logged. *)
Theorem parse_command_file_errors (self : CommandLoader) (fs : Directory)
    (e : DirEntry) :
  let path := join_path (commands_dir self) (entry_name e) in
  (∀ fp msg, entry_load e ≠ Raise (CommandParseError fp msg)) →
  (∀ fp msg, entry_stat e ≠ Raise (CommandParseError fp msg)) →
  (∀ fp msg, entry_datetime e ≠ Raise (CommandParseError fp msg)) →
  (∀ ex, fst (parse_command_file self fs e) = Raise ex →
     ∃ msg, ex = CommandParseError path msg)
  ∧ (∀ m, entry_load e = Raise (YAMLError m) →
       let error := CommandParseError path (lit "YAML parsing error: " ++ m) in
       parse_command_file self fs e = (Raise error, [exn_str error]))
  ∧ (∀ fm body, entry_load e = Ok (fm, body) →
       dict_get (lit "description") fm = None →
       parse_command_file self fs e
       = (Raise (CommandParseError path
                   (lit "Missing required field: 'description'")), []))
  ∧ (∀ fm body md m, entry_load e = Ok (fm, body) → WellFormed fm →
       CommandMetadata_init fm = Ok md →
       validate_command_name (stem (entry_name e)) = Raise (ValueError m) →
       let error := CommandParseError path (lit "Unexpected error: " ++ m) in
       parse_command_file self fs e = (Raise error, [exn_str error]))
  ∧ (∀ fm body md st m, entry_load e = Ok (fm, body) → WellFormed fm →
       CommandMetadata_init fm = Ok md →
       ValidName (strip (stem (entry_name e))) →
       entry_stat e = Ok st →
       entry_datetime e = Raise (ValueError m) →
       let error := CommandParseError path (lit "Unexpected error: " ++ m) in
       parse_command_file self fs e = (Raise error, [exn_str error])).
Proof.
  intros path Hload Hstat Hdate. subst path. split_and!.
  - intros ex. unfold parse_command_file.
    destruct (parse_body self fs e) as [d|ex0] eqn:Hb; [done|].
    apply parse_body_Raise in Hb; [|done|done|done].
    destruct Hb as [[msg ->]|Hb].
    + intros [= <-]. eauto.
    + destruct ex0; cbn [fst]; intros [= <-]; eauto. by edestruct Hb.
  - intros m Hm. unfold parse_command_file, parse_body. by rewrite Hm.
  - intros fm body Hfm Hd. unfold parse_command_file, parse_body.
    rewrite Hfm. cbn [bind fst snd]. unfold validate_yaml_frontmatter.
    by rewrite Hd.
  - intros fm body md m Hfm Hwf Hmd Hk. unfold parse_command_file, parse_body.
    rewrite Hfm. cbn [bind fst snd].
    assert (validate_yaml_frontmatter fm
              (join_path (commands_dir self) (entry_name e)) = Ok fm) as ->
      by by apply validate_yaml_frontmatter_Ok.
    cbn [bind]. by rewrite Hmd, Hk.
  - intros fm body md st m Hfm Hwf Hmd Hk Hst Hdt.
    unfold parse_command_file, parse_body.
    rewrite Hfm. cbn [bind fst snd].
    assert (validate_yaml_frontmatter fm
              (join_path (commands_dir self) (entry_name e)) = Ok fm) as ->
      by by apply validate_yaml_frontmatter_Ok.
    cbn [bind]. rewrite Hmd. cbn [bind].
    destruct (validate_command_name_valid _ Hk) as [Hs Hok].
    assert (validate_command_name (stem (entry_name e))
            = Ok (strip (stem (entry_name e)))) as ->.
    { unfold validate_command_name in *. by rewrite Hs in Hok. }
    cbn [bind]. by rewrite Hst, Hdt.
Qed.

(** A directory given as ["."]: the path in the error is the bare file
    name. *)
Lemma parse_command_file_errors_witness :
  fst (parse_command_file {| commands_dir := lit "." |} sample_directory
         (bare_entry "plain.md" "Just markdown."))
  = Raise (CommandParseError (lit "plain.md")
             (lit "Missing required field: 'description'")).
Proof.
  assert (∀ fp msg, entry_load (bare_entry "plain.md" "Just markdown.")
                    ≠ Raise (CommandParseError fp msg)) as Hload by done.
  assert (∀ fp msg, entry_stat (bare_entry "plain.md" "Just markdown.")
                    ≠ Raise (CommandParseError fp msg)) as Hstat by done.
  assert (∀ fp msg, entry_datetime (bare_entry "plain.md" "Just markdown.")
                    ≠ Raise (CommandParseError fp msg)) as Hdate by done.
  destruct (parse_command_file_errors {| commands_dir := lit "." |}
              sample_directory
              (bare_entry "plain.md" "Just markdown.") Hload Hstat Hdate)
    as (_ & _ & H & _).
  by rewrite (H [] (lit "Just markdown.") eq_refl eq_refl).
Defined.

End LoaderErrorProperties.

(** ** validators.py and models.py: front matter and [CommandMetadata] *)

Section MetadataLemmas.
Import Yaml YamlSpec MetadataSpec Validators Models.

Lemma required_str_NonBlank (field : list N) (d : list (yaml * yaml)) (v : yaml) :
  dict_get field d = Some v → NonBlank v →
  ∃ s, v = YStr s ∧ required_str field d = Ok s.
Proof.
  intros Hv (s & -> & Hs). exists s. split; [done|].
  unfold required_str. rewrite Hv. by destruct s.
Qed.

Lemma HandoffLink_init_WellFormed (h : yaml) :
  WellFormedHandoff h → ∃ link, HandoffLink_init h = Ok link ∧ handoff_of h link.
Proof.
  intros (d & -> & (vl & Hl & Hnl) & (va & Ha & Hna) & (vp & Hp & Hnp) & Hsend).
  destruct (required_str_NonBlank _ _ _ Hl Hnl) as (l & -> & Hrl).
  destruct (required_str_NonBlank _ _ _ Ha Hna) as (a & -> & Hra).
  destruct (required_str_NonBlank _ _ _ Hp Hnp) as (p & -> & Hrp).
  unfold HandoffLink_init. rewrite Hrl, Hra, Hrp. cbn [bind].
  destruct Hsend as [Hs|[b Hs]]; rewrite Hs; cbn [bind];
    (eexists; split; [done|]); exists d; cbn [label agent prompt send];
    rewrite Hs; by split_and!.
Qed.

Lemma HandoffLink_list_WellFormed (l : list yaml) :
  Forall WellFormedHandoff l →
  ∃ links, HandoffLink_list l = Ok links ∧ Forall2 handoff_of l links.
Proof.
  induction 1 as [|h l Hh _ (links & Hl & Hrel)]; [by exists []|].
  destruct (HandoffLink_init_WellFormed _ Hh) as (link & Hi & Hof).
  exists (link :: links). cbn [HandoffLink_list]. rewrite Hi, Hl.
  split; [done|by constructor].
Qed.

(** Well-formed front matter with string keys and listed handoffs makes
    the metadata. *)
Lemma CommandMetadata_init_WellFormed (fm : list (yaml * yaml)) :
  WellFormed fm → string_keys fm → handoffs_listed fm →
  ∃ md, CommandMetadata_init fm = Ok md
        ∧ dict_get (lit "description") fm = Some (YStr (description md))
        ∧ Forall2 handoff_of (handoff_items fm) (handoffs md).
Proof.
  intros [(v & Hd & Hnb) Hh] Hkeys Hlist.
  destruct (required_str_NonBlank _ _ _ Hd Hnb) as (s & -> & Hr).
  unfold CommandMetadata_init, string_keys in *. rewrite Hkeys, Hr.
  cbn [negb bind]. unfold handoff_items, WellFormedHandoffs in *.
  destruct Hlist as [Hn|[l [Hl|Hl]]].
  - rewrite Hn. cbn [bind]. eexists. split; [done|]. by split; [|constructor].
  - rewrite Hl in *.
    destruct (HandoffLink_list_WellFormed _ Hh) as (links & Hlinks & Hrel).
    rewrite Hlinks. cbn [bind]. eexists. by split.
  - rewrite Hl in *. destruct l; [|done]. cbn [HandoffLink_list bind].
    eexists. split; [done|]. by split; [|constructor].
Qed.

(** Well-formed front matter whose handoffs are not listed has an empty
    string, dictionary or byte string there. *)
Lemma WellFormed_not_listed (fm : list (yaml * yaml)) :
  WellFormed fm → ¬ handoffs_listed fm →
  dict_get (lit "handoffs") fm = Some (YStr [])
  ∨ dict_get (lit "handoffs") fm = Some (YDict [])
  ∨ dict_get (lit "handoffs") fm = Some (YBytes []).
Proof.
  intros [_ Hh] Hn. unfold WellFormedHandoffs, handoffs_listed in *.
  destruct (dict_get (lit "handoffs") fm) as [[| | | |[|]|l|[|]| |l|[|]]|];
    try done; auto.
  - destruct Hn. right. exists l. by left.
  - destruct Hn. right. exists l. by right.
  - destruct Hn. by left.
Qed.

(** Metadata is made only from front matter with string keys and listed
    handoffs. *)
Lemma CommandMetadata_init_Ok (fm : list (yaml * yaml)) (md : CommandMetadata) :
  CommandMetadata_init fm = Ok md → string_keys fm ∧ handoffs_listed fm.
Proof.
  unfold CommandMetadata_init, string_keys, handoffs_listed.
  destruct (forallb _ fm); [|done]. cbn [negb].
  destruct (required_str _ fm); [|done]. cbn [bind].
  destruct (dict_get (lit "handoffs") fm) as [[| | | | |l| | |l|]|];
    try done; eauto 6.
Qed.

End MetadataLemmas.

Section MetadataProperties.
Import Yaml YamlSpec MetadataSpec Validators Models Samples.

(** X14.  Front matter that [validate_yaml_frontmatter] accepts makes a
    [CommandMetadata] exactly when all its keys are strings and [handoffs]
    is missing, a list or a set (an empty one, as nothing else passes the
    check): the two checks differ only on a key that is no string and on
    [handoffs] given as an empty string, dictionary or byte string.  The
    metadata holds the description as written and one link for each
    handoff, in order, with its label, agent and prompt as written and
    [send] false when left out. *)
Theorem validated_frontmatter_metadata (fm validated : list (yaml * yaml))
    (path : list N) :
  validate_yaml_frontmatter fm path = Ok validated →
  ((∃ md, CommandMetadata_init validated = Ok md)
   ↔ string_keys fm ∧ handoffs_listed fm)
  ∧ (∀ md, CommandMetadata_init validated = Ok md →
       dict_get (lit "description") fm = Some (YStr (description md))
       ∧ Forall2 handoff_of (handoff_items fm) (handoffs md))
  ∧ (∀ e, CommandMetadata_init validated = Raise e →
       ((∃ msg, e = TypeError msg) ∨ (∃ msg, e = ValidationError msg))
       ∧ (¬ string_keys fm
          ∨ dict_get (lit "handoffs") fm = Some (YStr [])
          ∨ dict_get (lit "handoffs") fm = Some (YDict [])
          ∨ dict_get (lit "handoffs") fm = Some (YBytes [])))
  ∧ (∀ l, dict_get (lit "handoffs") fm = Some (YSet l) → l = []).
Proof.
  intros [-> Hwf]%validate_yaml_frontmatter_Ok. split_and!.
  - split.
    + intros [md Hmd]. by eapply CommandMetadata_init_Ok.
    + intros [Hk Hl].
      destruct (CommandMetadata_init_WellFormed fm Hwf Hk Hl) as (md & Hmd & _).
      by exists md.
  - intros md Hmd. destruct (CommandMetadata_init_Ok _ _ Hmd) as [Hk Hl].
    destruct (CommandMetadata_init_WellFormed fm Hwf Hk Hl) as (md' & Hmd' & H).
    rewrite Hmd in Hmd'. by injection Hmd' as <-.
  - intros e He. split; [by eapply CommandMetadata_init_Raise|].
    destruct (decide (string_keys fm)) as [Hk|Hk]; [|by left].
    right. apply WellFormed_not_listed; [done|]. intros Hl.
    destruct (CommandMetadata_init_WellFormed fm Hwf Hk Hl) as (md & Hmd & _).
    congruence.
  - intros l Hl. destruct Hwf as [_ Hh]. unfold WellFormedHandoffs in Hh.
    rewrite Hl in Hh. by destruct l.
Qed.

Lemma validated_frontmatter_metadata_witness :
  let fm := [(YStr (lit "description"), YStr (lit "Plan"));
             (YStr (lit "handoffs"),
              YList [YDict [(YStr (lit "label"), YStr (lit "Next"));
                            (YStr (lit "agent"), YStr (lit "sp.tasks"));
                            (YStr (lit "prompt"), YStr (lit "go"))]])] in
  ∃ md, CommandMetadata_init fm = Ok md.
Proof.
  intros fm.
  assert (validate_yaml_frontmatter fm (lit "/commands/sp.plan.md") = Ok fm) as H
    by (vm_compute; reflexivity).
  apply (proj1 (validated_frontmatter_metadata _ _ _ H)).
  split; [reflexivity|]. right. eexists. left. reflexivity.
Defined.

End MetadataProperties.

(** ** registry.py and exceptions.py: more on the registry *)

Section RegistryMoreLemmas.
Import Registry Handler Fmt.

#[local] Instance str_le_antisymmetric : AntiSymm eq str_le.
Proof.
  intros a b. unfold str_le. rewrite !Is_true_true. apply str_leb_antisym.
Qed.

(** Sorting a sorted list changes nothing. *)
Lemma sorted_idempotent (l : list (list N)) : sorted (sorted l) = sorted l.
Proof.
  apply (StronglySorted_unique str_le); try apply sorted_StronglySorted.
  apply sorted_Permutation.
Qed.

Lemma list_commands_clear (self : CommandRegistry) : list_commands (clear self) = [].
Proof.
  apply Permutation_nil_r. unfold list_commands. rewrite sorted_Permutation.
  unfold keys, clear. cbn [_registry]. by rewrite map_to_list_empty.
Qed.

End RegistryMoreLemmas.

Section RegistryProperties.
Import Registry Handler Fmt Samples.

(** X15.  [register] and [get] round trip: after [register] the command
    is found under its own name, every other name gives what it gave
    before, and the names listed are the old ones and the new one.  The
    count grows by one for a new name and stays for a name that was
    there, whose old command is replaced; registering the same command
    twice is the same as once. *)
Theorem register_get_round_trip (command : CommandDefinition)
    (self : CommandRegistry) :
  get (name command) (register command self) = Some command
  ∧ (∀ nm, nm ≠ name command → get nm (register command self) = get nm self)
  ∧ (∀ nm, nm ∈ list_commands (register command self)
           ↔ nm = name command ∨ nm ∈ list_commands self)
  ∧ count (register command self)
    = (match get (name command) self with
       | Some _ => count self
       | None => count self + 1
       end)%Z
  ∧ register command (register command self) = register command self.
Proof.
  unfold get, register, count. cbn [_registry]. split_and!.
  - apply lookup_insert_eq.
  - intros nm Hnm. by apply lookup_insert_ne.
  - intros nm. rewrite !elem_of_list_commands. unfold get. cbn [_registry].
    destruct (decide (nm = name command)) as [->|Hne].
    + rewrite lookup_insert_eq. split; [by left|by eexists].
    + rewrite lookup_insert_ne by done. split; [by right|by intros [?|?]].
  - rewrite map_size_insert.
    destruct (_registry self !! name command); unfold id; lia.
  - f_equal. apply insert_insert_eq.
Qed.

Lemma register_get_round_trip_witness :
  lit "use" ≠ name fresh_cmd
  ∧ get (lit "use") (register fresh_cmd sample_registry)
    = get (lit "use") sample_registry.
Proof.
  assert (lit "use" ≠ name fresh_cmd) as Hne by done.
  split; [exact Hne|].
  exact (proj1 (proj2 (register_get_round_trip fresh_cmd sample_registry)) _ Hne).
Defined.

(** X16.  The text of the error for a name that is not registered is
    "Command not found: " and the name, followed, when the registry is not
    empty, by ": Available commands: " and the registered names in the
    order of [list_commands], separated by ", ".  After [clear] every name
    gets the short text, and the count is zero. *)
Theorem command_not_found_message (registry : CommandRegistry) (nm : list N)
    (input : option (list N)) :
  (get nm registry = None →
   ∃ e, process_prompt registry nm input = Raise e
        ∧ exn_str e
          = lit "Command not found: " ++ nm
            ++ match list_commands registry with
               | [] => []
               | names => lit ": Available commands: " ++ join_comma names
               end)
  ∧ (∃ e, process_prompt (clear registry) nm input = Raise e
          ∧ exn_str e = lit "Command not found: " ++ nm)
  ∧ count (clear registry) = 0%Z.
Proof.
  split_and!.
  - intros Hget. eexists. split.
    { unfold process_prompt. rewrite Hget.
      by rewrite CommandNotFoundError_init_Some. }
    cbn [exn_str].
    destruct (list_commands registry) as [|k l] eqn:E;
      [unfold message_details; by rewrite app_nil_r|].
    assert (sorted (k :: l) = k :: l) as ->.
    { rewrite <- E. apply sorted_idempotent. }
    unfold message_details.
    destruct (lit "Available commands: " ++ join_comma (k :: l)) eqn:E'; [done|].
    rewrite <- E'. by rewrite <- !app_assoc.
  - assert (get nm (clear registry) = None) as Hget by apply lookup_empty.
    eexists. split.
    { unfold process_prompt. rewrite Hget.
      by rewrite CommandNotFoundError_init_Some. }
    cbn [exn_str]. by rewrite list_commands_clear.
  - done.
Qed.

Lemma command_not_found_message_witness :
  ∃ e, process_prompt sample_registry (lit "missing") None = Raise e
       ∧ exn_str e
         = lit "Command not found: missing: Available commands: static, use".
Proof.
  assert (get (lit "missing") sample_registry = None) as Hget
    by (vm_compute; reflexivity).
  destruct (proj1 (command_not_found_message sample_registry (lit "missing") None)
              Hget) as (e & He & Hs).
  exists e. split; [exact He|]. rewrite Hs. vm_compute. reflexivity.
Defined.

End RegistryProperties.

(** ** registry.py: the lock and threads that call any method *)

Section ConcurrentMoreLemmas.
Import Registry Concurrent ConcurrentSpec.

Lemma method_call_registry_call (p : list action) : registry_call p → method_call p.
Proof.
  intros [[c ->]|[[nm ->]|[->|[[m ->]|[->| ->]]]]];
    [exists [DoInsert c] | exists [DoGet nm] | exists [DoList]
    | exists [DoLen; DoAssign m; DoLen] | exists [DoLen; DoClear]
    | exists [DoLen]];
    (split; [reflexivity|]); by repeat constructor.
Qed.

(** All threads are through, or one of them is not. *)
Lemma finished_or_not (l : list thread) :
  Forall (fun t => todo t = []) l ∨ ∃ i t, l !! i = Some t ∧ todo t ≠ [].
Proof.
  induction l as [|t l [IH|(i & t' & Hi & Ht')]].
  - by left.
  - destruct (todo t) eqn:E.
    + left. by constructor.
    + right. exists 0%nat, t. split; [done|]. by rewrite E.
  - right. by exists (S i), t'.
Qed.

(** An action of the body of a method can always be taken. *)
Lemma perform_plain_Some (i : nat) (a : action) (lk : option (nat * nat))
    (self : CommandRegistry) (obs : list observation) :
  plain a = true → is_Some (perform i a lk self obs).
Proof. by destruct a. Qed.

(** Some thread can move as long as one has something left to do. *)
Lemma mutex_inv_progress (c : config) :
  mutex_inv c → finished c ∨ ∃ c', step c c'.
Proof.
  intros [Hshape Howner Hlock].
  destruct (finished_or_not (threads c)) as [?|(i & t & Hi & Ht)]; [by left|].
  right. destruct Hlock as [Hfree|(j & tj & Hj & Htj)].
  - destruct (Hshape i t Hi) as [?|[(body & Hb & _)|Hin]]; [done| |].
    + destruct t as [td obs]. cbn [todo] in *. subst td.
      eexists. apply (step_of i). unfold step_thread. rewrite Hi, Hfree.
      cbn [perform]. reflexivity.
    + apply (Howner i t Hi) in Hin. congruence.
  - pose proof (proj2 (Howner j tj Htj) Hj) as (body & Hb & Hplain).
    destruct tj as [td obs]. cbn [todo] in *. subst td.
    destruct body as [|a body].
    + eexists. apply (step_of j). unfold step_thread. rewrite Htj, Hj.
      cbn [app perform]. rewrite Nat.eqb_refl. reflexivity.
    + apply Forall_cons in Hplain as [Ha _].
      destruct (perform_plain_Some j a (lock c) (shared c) obs Ha)
        as [[[lk self] obs'] Hp].
      eexists. apply (step_of j). unfold step_thread. rewrite Htj.
      cbn [app]. rewrite Hp. reflexivity.
Qed.

Lemma actions_insert (l : list thread) (i : nat) (x y : thread) :
  l !! i = Some x →
  (actions (todo <$> <[i := y]> l) + length (todo x)
   = actions (todo <$> l) + length (todo y))%nat.
Proof.
  revert i. induction l as [|z l IH]; intros [|i] H; try done.
  - injection H as ->. cbn. lia.
  - specialize (IH i H).
    change (<[S i := y]> (z :: l)) with (z :: <[i := y]> l).
    rewrite !fmap_cons. cbn [actions]. lia.
Qed.

(** Every step takes one action off the work that is left. *)
Lemma step_remaining (c c' : config) : step c c' → remaining c = S (remaining c').
Proof.
  intros [i c0 c0' H]. unfold step_thread in H.
  destruct (threads c0 !! i) as [[[|a rest] obs]|] eqn:Hi; try done.
  destruct (perform i a (lock c0) (shared c0) obs) as [[[lk self] obs']|]; [|done].
  injection H as <-. unfold remaining. cbn [threads].
  pose proof (actions_insert (threads c0) i _
                {| todo := rest; seen := obs' |} Hi) as Hs.
  cbn [todo length] in Hs. lia.
Qed.

Lemma nsteps_remaining (n : nat) (c c' : config) :
  nsteps step n c c' → (n + remaining c' = remaining c)%nat.
Proof.
  induction 1 as [|n x y z Hxy _ IH]; [done|].
  apply step_remaining in Hxy. lia.
Qed.

End ConcurrentMoreLemmas.

Section ConcurrentProperties.
Import Registry Concurrent ConcurrentSpec Samples.

(** X17.  Threads that each make one call of any method of the registry
    never block each other for good and never run for ever: at every point
    of every run at most one thread is in the body of a method, some
    thread can take a step unless all are through, each step uses up one
    of the actions, so that no run is longer than the calls together, and
    when all are through the lock is free. *)
Theorem registry_calls_complete (self : CommandRegistry)
    (programs : list (list action)) (n : nat) (c : config) :
  Forall registry_call programs →
  nsteps step n (start self programs) c →
  (∀ i j ti tj, threads c !! i = Some ti → threads c !! j = Some tj →
     inside ti → inside tj → i = j)
  ∧ (finished c ∨ ∃ c', step c c')
  ∧ (n + remaining c = actions programs)%nat
  ∧ (finished c → lock c = None).
Proof.
  intros Hp Hrun.
  assert (mutex_inv c) as Hinv.
  { eapply mutex_inv_rtc; [|by eapply rtc_nsteps_2].
    apply mutex_inv_start. eapply Forall_impl; [exact Hp|].
    apply method_call_registry_call. }
  split_and!.
  - intros i j ti tj Hi Hj Hini Hinj.
    apply (mi_owner c Hinv i ti Hi) in Hini.
    apply (mi_owner c Hinv j tj Hj) in Hinj. congruence.
  - by apply mutex_inv_progress.
  - rewrite (nsteps_remaining _ _ _ Hrun). unfold remaining, start.
    cbn [threads]. f_equal. clear.
    induction programs as [|p l IH]; [done|].
    rewrite !fmap_cons. cbn [todo]. by rewrite IH.
  - intros Hfin. destruct (mi_lock c Hinv) as [?|(i & t & Hl & Ht)]; [done|].
    pose proof (proj2 (mi_owner c Hinv i t Ht) Hl) as (body & Hb & _).
    eapply Forall_lookup_1 in Hfin; [|exact Ht]. rewrite Hfin in Hb.
    by destruct body.
Qed.

Lemma registry_calls_complete_witness :
  let c0 := start sample_registry [call_register fresh_cmd; call_count; call_clear] in
  let c := run_schedule [1; 1]%nat c0 in
  nsteps step 2 c0 c
  ∧ (finished c ∨ ∃ c', step c c')
  ∧ (2 + remaining c = 10)%nat.
Proof.
  intros c0 c.
  assert (Forall registry_call [call_register fresh_cmd; call_count; call_clear])
    as Hp.
  { apply Forall_cons. split; [left; by eexists|].
    apply Forall_cons. split; [do 5 right; reflexivity|].
    apply Forall_cons. split; [do 4 right; left; reflexivity|].
    apply Forall_nil_2. }
  assert (nsteps step 2 c0 c) as H.
  { eapply nsteps_l; [apply (step_of 1%nat); reflexivity|].
    eapply nsteps_l; [apply (step_of 1%nat); reflexivity|].
    apply nsteps_O. }
  split; [exact H|].
  destruct (registry_calls_complete _ _ _ _ Hp H) as (_ & Hprog & Hrem & _).
  split; [exact Hprog|exact Hrem].
Defined.

End ConcurrentProperties.

(** ** watcher.py: events that do not count *)

Section WatcherMoreLemmas.
Import Watcher WatcherSpec.

Lemma on_event_ignored (event : FsEvent) (now : Z) (self : CommandFileHandler) :
  qualifies event = false → on_event event now self = self.
Proof.
  unfold qualifies, on_event, on_created, on_modified, on_deleted.
  intros ->. by destruct (kind event).
Qed.

Lemma run_cons (t : Z) (e : FsEvent) (rest : list (Z * FsEvent))
    (h : CommandFileHandler) :
  run ((t, e) :: rest) h = run rest (on_event e t (advance t h)).
Proof. reflexivity. Qed.

(** Time that has passed has passed. *)
Lemma advance_advance (t0 t : Z) (h : CommandFileHandler) :
  (t0 <= t)%Z → advance t (advance t0 h) = advance t h.
Proof.
  intros Hle. unfold advance at 2 3.
  destruct (_timer h) as [due|] eqn:Ht; [|unfold advance; by rewrite Ht].
  destruct (Z.leb_spec due t0).
  - destruct (Z.leb_spec due t); [done|lia].
  - unfold advance. rewrite Ht. reflexivity.
Qed.

Lemma settle_advance (t : Z) (h : CommandFileHandler) :
  settle (advance t h) = settle h.
Proof.
  unfold advance, settle.
  destruct (_timer h) as [due|] eqn:Ht; [|by rewrite Ht].
  destruct (Z.leb_spec due t); [done|by rewrite Ht].
Qed.

(** Two handlers that agree once time has come to [t0] agree in the end,
    whether or not the events that do not count are delivered. *)
Lemma run_filter_qualifies (t0 : Z) (events : list (Z * FsEvent))
    (h h' : CommandFileHandler) :
  in_order t0 (fst <$> events) → advance t0 h = advance t0 h' →
  settle (run events h)
  = settle (run (filter (fun ev => qualifies (snd ev) = true) events) h').
Proof.
  revert t0 h h'. induction events as [|[t e] rest IH]; intros t0 h h' Ho Heq.
  - cbn. by rewrite <- (settle_advance t0 h), Heq, settle_advance.
  - destruct Ho as [Hle Ho].
    assert (advance t h = advance t h') as Ht.
    { by rewrite <- (advance_advance t0 t h), Heq, advance_advance. }
    rewrite run_cons. destruct (qualifies e) eqn:Hq.
    + rewrite filter_cons_True by done. rewrite run_cons, Ht. by apply (IH t).
    + rewrite filter_cons_False by (cbn; congruence).
      rewrite on_event_ignored by done. apply (IH t); [done|].
      by rewrite advance_advance.
Qed.

End WatcherMoreLemmas.

Section WatcherProperties.
Import Watcher WatcherSpec.

(** X20.  Events that do not count (directories, files that are no [.md]
    files) change nothing: when the events come in the order of time, the
    handler ends in the same state, with the same reloads at the same
    times, as if only the events that count had been delivered. *)
Theorem ignored_events_change_nothing (t0 : Z) (events : list (Z * FsEvent))
    (h : CommandFileHandler) :
  in_order t0 (fst <$> events) →
  settle (run events h)
  = settle (run (filter (fun ev => qualifies (snd ev) = true) events) h).
Proof. intros Ho. by apply (run_filter_qualifies t0). Qed.

Lemma ignored_events_change_nothing_witness :
  let dir_event := {| kind := Modified; is_directory := true;
                      src_path := lit "/commands/sub.md" |} in
  reloads (settle (run [(1000, md_event); (1050, md_event); (1200, dir_event)]%Z
                     (init 100)))
  = reloads (settle (run [(1000, md_event); (1050, md_event)]%Z (init 100))).
Proof.
  intros dir_event.
  by rewrite (ignored_events_change_nothing 1000
                [(1000, md_event); (1050, md_event); (1200, dir_event)]%Z
                (init 100) ltac:(cbn; lia)).
Defined.

End WatcherProperties.

(** ** server.py: prompts and reloads *)

Section ServerLemmas.
Import Registry Handler Loader LoaderSpec Server.

(** [load_all_commands] gives a dictionary, whatever the directory
    holds. *)
Lemma load_all_commands_total (self : CommandLoader) (fs : Directory) :
  ∃ commands, load_all_commands self fs = Ok commands.
Proof. eexists. apply load_all_commands_foldl. Qed.

Lemma omap_get_list_commands (self : CommandRegistry) :
  Forall2 (fun nm p => ∃ command, get nm self = Some command
                                  ∧ p = (nm, description (metadata command)))
    (list_commands self)
    (omap (fun nm => match get nm self with
                     | Some command => Some (nm, description (metadata command))
                     | None => None
                     end) (list_commands self)).
Proof.
  assert (∀ nm, nm ∈ list_commands self → is_Some (get nm self)) as H.
  { intros nm. apply elem_of_list_commands. }
  induction (list_commands self) as [|nm l IH]; [constructor|].
  destruct (H nm) as [command Hc]; [by left|].
  rewrite omap_cons_unfold, Hc. constructor; [by exists command|].
  apply IH. intros k Hk. apply H. by right.
Qed.

End ServerLemmas.

Section ServerProperties.
Import Registry Handler Loader LoaderSpec Server Samples.

(** X21.  [register_prompts] leaves no command out: it makes one call of
    [mcp.prompt] for every name that [list_commands] gives, in that order,
    each with the description of the command registered under the name,
    and changes nothing else.  Asked without arguments, the handler
    registered for a name answers with one user message that holds the
    body of that command. *)
Theorem register_prompts_covers_registry (s : ServerState) :
  ∃ new,
    mcp_prompts (register_prompts s) = mcp_prompts s ++ new
    ∧ fst <$> new = list_commands (_registry s)
    ∧ (∀ nm desc, (nm, desc) ∈ new
         ↔ ∃ command, get nm (_registry s) = Some command
                      ∧ desc = description (metadata command))
    ∧ _registry (register_prompts s) = _registry s
    ∧ (_handler s = true →
       ∀ nm desc, (nm, desc) ∈ new →
         ∃ command, get nm (_registry s) = Some command
                    ∧ get_prompt_handler (register_prompts s) nm None
                      = inl [(lit "user", content command)]).
Proof.
  eexists. split; [reflexivity|].
  pose proof (omap_get_list_commands (_registry s)) as HF.
  set (new := omap _ (list_commands (_registry s))) in *.
  assert (∀ nm desc, (nm, desc) ∈ new
            ↔ ∃ command, get nm (_registry s) = Some command
                         ∧ desc = description (metadata command)) as Hnew.
  { intros nm desc. split.
    - intros Hin. apply list_elem_of_lookup in Hin as [i Hi].
      destruct (Forall2_lookup_r _ _ _ _ _ HF Hi) as (k & _ & command & Hc & [= <- ->]).
      by exists command.
    - intros (command & Hc & ->).
      assert (nm ∈ list_commands (_registry s)) as Hin
        by (apply elem_of_list_commands; by eexists).
      apply list_elem_of_lookup in Hin as [i Hi].
      destruct (Forall2_lookup_l _ _ _ _ _ HF Hi) as (q & Hq & command' & Hc' & ->).
      rewrite Hc in Hc'. injection Hc' as <-. by eapply list_elem_of_lookup_2. }
  split_and!; [|exact Hnew|reflexivity|].
  - clear Hnew. induction HF as [|nm q l l' (command & _ & ->) _ IH]; [done|].
    cbn. by rewrite IH.
  - intros Hh nm desc (command & Hc & _)%Hnew. exists command. split; [done|].
    unfold get_prompt_handler. cbn [_handler _registry register_prompts].
    rewrite Hh. cbn [negb]. by rewrite (process_prompt_None _ _ _ Hc).
Qed.

Lemma register_prompts_covers_registry_witness :
  let s := {| _loader := None; _registry := sample_registry;
              _handler := true; mcp_prompts := [] |} in
  ∃ command,
    get (lit "use") sample_registry = Some command
    ∧ get_prompt_handler (register_prompts s) (lit "use") None
      = inl [(lit "user", content command)].
Proof.
  intros s.
  destruct (register_prompts_covers_registry s)
    as (new & _ & _ & Hnew & _ & Hask).
  apply (Hask eq_refl (lit "use") (description (metadata use_cmd))).
  apply Hnew. exists use_cmd. split; [vm_compute; reflexivity|reflexivity].
Defined.

(** X22.  A reload reaches the prompts that were registered before it and
    adds none.  With a loader, [reload_commands] never fails and puts into
    the registry exactly what [load_all_commands] finds, whatever was there
    before; the handler of any name then answers as [process_prompt] does
    on a registry that holds what was found and nothing else, so a prompt
    whose file is gone answers with [CommandNotFoundError]; a
    second reload of the same directory changes nothing more.  After
    [on_shutdown] a reload (a timer that fires late) does nothing, and
    every prompt answers with [CommandNotFoundError] and no names. *)
Theorem reload_reaches_prompts (fs : Directory) (loader : CommandLoader)
    (s : ServerState) :
  _loader s = Some loader →
  _handler s = true →
  ∃ commands,
    load_all_commands loader fs = Ok commands
    ∧ _registry (reload_commands fs s) = update_all commands (_registry s)
    ∧ mcp_prompts (reload_commands fs s) = mcp_prompts s
    ∧ (∀ nm arguments,
         get_prompt_handler (reload_commands fs s) nm arguments
         = match process_prompt (update_all commands init) nm arguments with
           | Ok content => inl [(lit "user", content)]
           | Raise e => inr (Raised e)
           end)
    ∧ (∀ nm arguments,
         commands !! nm = None →
         get_prompt_handler (reload_commands fs s) nm arguments
         = inr (Raised (CommandNotFoundError nm (sorted (keys commands)))))
    ∧ reload_commands fs (reload_commands fs s) = reload_commands fs s
    ∧ reload_commands fs (on_shutdown s) = on_shutdown s
    ∧ (∀ nm arguments,
         get_prompt_handler (on_shutdown s) nm arguments
         = inr (Raised (CommandNotFoundError nm []))).
Proof.
  intros Hl Hh. destruct (load_all_commands_total loader fs) as [commands Hc].
  exists commands.
  assert (reload_commands fs s
          = {| _loader := _loader s;
               _registry := update_all commands (_registry s);
               _handler := _handler s;
               mcp_prompts := mcp_prompts s |}) as Hr.
  { unfold reload_commands. by rewrite Hl, Hc. }
  split_and!; [exact Hc|by rewrite Hr|by rewrite Hr| | | |reflexivity|].
  - intros nm arguments. rewrite Hr. unfold get_prompt_handler.
    cbn [_handler _registry]. by rewrite Hh.
  - intros nm arguments Hnm. rewrite Hr. unfold get_prompt_handler.
    cbn [_handler _registry]. rewrite Hh. cbn [negb].
    unfold process_prompt, get, update_all. cbn [Registry._registry].
    rewrite Hnm. by rewrite CommandNotFoundError_init_Some.
  - rewrite Hr. unfold reload_commands. cbn [_loader]. by rewrite Hl, Hc.
  - intros nm arguments. unfold get_prompt_handler, on_shutdown.
    cbn [_handler _registry]. rewrite Hh. cbn [negb].
    assert (get nm (clear (_registry s)) = None) as Hget by apply lookup_empty.
    unfold process_prompt. rewrite Hget, CommandNotFoundError_init_Some.
    by rewrite list_commands_clear.
Qed.

Lemma reload_reaches_prompts_witness :
  let s := register_prompts
             {| _loader := Some sample_loader; _registry := sample_registry;
                _handler := true; mcp_prompts := [] |} in
  fst <$> mcp_prompts s = [lit "static"; lit "use"]
  ∧ fst <$> mcp_prompts (reload_commands sample_directory s)
    = [lit "static"; lit "use"]
  ∧ ∃ names,
      get_prompt_handler (reload_commands sample_directory s) (lit "use") None
      = inr (Raised (CommandNotFoundError (lit "use") names)).
Proof.
  intros s.
  destruct (reload_reaches_prompts sample_directory sample_loader s
              eq_refl eq_refl) as (commands & Hc & _ & Hp & _ & Hgone & _).
  assert (fst <$> mcp_prompts s = [lit "static"; lit "use"]) as Hs
    by (vm_compute; reflexivity).
  split_and!; [exact Hs|by rewrite Hp|].
  eexists. apply Hgone.
  assert (load_all_commands sample_loader sample_directory
          = Ok (foldl (fun m d => <[name d := d]> m) ∅
                  (parsed_files sample_loader sample_directory))) as Hc'
    by apply load_all_commands_foldl.
  rewrite Hc in Hc'. injection Hc' as ->. vm_compute. reflexivity.
Defined.

End ServerProperties.

(** ** loader.py: from the file name to the command name *)

Section FileNameLemmas.
Import Loader.

Lemma rfind_dot_md (k : list N) :
  rfind_dot (k ++ [46; 109; 100]) = Some (length k).
Proof.
  induction k as [|c k IH]; [reflexivity|].
  cbn [app rfind_dot length]. by rewrite IH.
Qed.

Lemma stem_md (k : list N) : k ≠ [] → stem (k ++ [46; 109; 100]) = k.
Proof.
  intros Hk. unfold stem. rewrite rfind_dot_md, length_app. cbn [length].
  assert (0 < length k)%nat as Hlen by (destruct k; [done|cbn; lia]).
  assert ((0 <? length k)%nat = true) as -> by (apply Nat.ltb_lt; lia).
  assert ((length k <? length k + 3 - 1)%nat = true) as ->
    by (apply Nat.ltb_lt; lia).
  cbn [andb]. by rewrite take_app_length.
Qed.

Lemma endswith_md (k : list N) : endswith [46; 109; 100] (k ++ [46; 109; 100]) = true.
Proof.
  unfold endswith. rewrite rev_app_distr. apply startswith_app_r.
Qed.

End FileNameLemmas.

Section FileNameProperties.
Import Validators Loader LoaderSpec Samples.

(** X23.  The command name is the file name without [.md]: a file named
    [k.md], with [k] not empty, is among the discovered files, its stem is
    [k], a definition parsed from it has the name [k] trimmed, and when [k]
    is a valid command name the name check returns [k] itself. *)
Theorem command_name_of_file (self : CommandLoader) (fs : Directory)
    (e : DirEntry) (k : list N) :
  entry_name e = k ++ lit ".md" → k ≠ [] →
  (e ∈ entries fs → e ∈ discover_commands self fs)
  ∧ stem (entry_name e) = k
  ∧ (∀ d, fst (parse_command_file self fs e) = Ok d →
       name d = strip k ∧ ValidName (strip k))
  ∧ (ValidName k → validate_command_name (stem (entry_name e)) = Ok k).
Proof.
  intros He Hk. change (lit ".md") with [46; 109; 100] in He.
  assert (stem (entry_name e) = k) as Hstem by (rewrite He; by apply stem_md).
  split_and!.
  - intros Hin. apply list_elem_of_filter. split; [|done].
    change (lit ".md") with [46; 109; 100]. rewrite He, endswith_md. done.
  - done.
  - intros d Hd. apply parse_command_file_Ok, parse_body_Ok in Hd
      as (fm & body & md & size & st_mtime & modified
          & _ & _ & _ & Hv & _ & _ & _ & ->).
    cbn [name]. by rewrite Hstem in *.
  - intros Hv. rewrite Hstem. by apply validate_command_name_valid.
Qed.

Lemma command_name_of_file_witness :
  stem (lit "sp.plan.md") = lit "sp.plan"
  ∧ validate_command_name (stem (lit "sp.plan.md")) = Ok (lit "sp.plan").
Proof.
  destruct (command_name_of_file sample_loader sample_directory
              (valid_entry "sp.plan.md" "Plan") (lit "sp.plan")
              eq_refl ltac:(done)) as (_ & Hs & _ & Hv).
  split; [exact Hs|]. apply Hv.
  exists 115, (lit "p.plan"). split_and!; [reflexivity|reflexivity| | |].
  - repeat constructor.
  - by apply has_char_false.
  - by apply has_char_false.
Defined.

End FileNameProperties.

(** ** handler.py: the size limit counted in characters *)

Section SizeInCharacters.
Import Registry Handler Samples.

Lemma utf8_encode_char_length (c : N) (b : list N) :
  utf8_encode_char c = Ok b → (1 ≤ length b ≤ 4)%nat.
Proof.
  unfold utf8_encode_char.
  destruct (c <? 128); [intros [= <-]; cbn; lia|].
  destruct (c <? 2048); [intros [= <-]; cbn; lia|].
  destruct ((55296 <=? c) && (c <=? 57343)); [done|].
  destruct (c <? 65536); intros [= <-]; cbn; lia.
Qed.

Lemma utf8_encode_length (s b : list N) :
  utf8_encode s = Ok b → (length s ≤ length b ≤ 4 * length s)%nat.
Proof.
  revert b. induction s as [|c s IH]; intros b; [intros [= <-]; cbn; lia|].
  cbn [utf8_encode].
  destruct (utf8_encode_char c) as [bc|] eqn:Hc; [|done]. cbn [bind].
  destruct (utf8_encode s) as [bs|]; [|done]. cbn [bind]. intros [= <-].
  apply utf8_encode_char_length in Hc. specialize (IH bs eq_refl).
  rewrite length_app. cbn [length]. lia.
Qed.

Lemma utf8_encode_ascii (s : list N) :
  Forall (fun c => c < 128) s → utf8_encode s = Ok s.
Proof.
  induction 1 as [|c s Hc _ IH]; [done|]. cbn [utf8_encode].
  unfold utf8_encode_char. apply N.ltb_lt in Hc. rewrite Hc. cbn [bind].
  by rewrite IH.
Qed.

(** X24.  The limit of 102400 bytes in terms of characters, for a
    registered command: an input of at most 25600 characters is never
    refused as too large; an input of more than 102400 characters is
    never accepted; and an input of ASCII characters only is refused
    exactly when it has more than 102400 characters, with its length as
    the reported size. *)
Theorem size_limit_in_characters (registry : CommandRegistry) (nm : list N)
    (cmd : CommandDefinition) (input : list N) :
  get nm registry = Some cmd →
  ((len input ≤ 25600)%Z →
     ∀ size max_size, process_prompt registry nm (Some input)
                      ≠ Raise (InputTooLargeError size max_size))
  ∧ ((102400 < len input)%Z →
       ∃ e, process_prompt registry nm (Some input) = Raise e)
  ∧ (Forall (fun c => c < 128) input →
       if decide (102400 < len input)%Z
       then process_prompt registry nm (Some input)
            = Raise (InputTooLargeError (len input) 102400)
       else ∃ out, process_prompt registry nm (Some input) = Ok out).
Proof.
  intros Hget. split_and!.
  - intros Hlen size max_size.
    destruct (utf8_encode input) as [bytes|e] eqn:Hu.
    + rewrite (process_prompt_Some _ _ _ _ _ Hget Hu).
      apply utf8_encode_length in Hu.
      destruct (Z.gtb_spec (len bytes) MAX_INPUT_SIZE_BYTES) as [Hgt|_].
      * unfold len, MAX_INPUT_SIZE_BYTES in *. lia.
      * by destruct (has_arguments cmd).
    + rewrite (process_prompt_unencodable _ _ _ _ _ Hget Hu).
      apply utf8_encode_Raise in Hu as [msg ->]. done.
  - intros Hlen. destruct (utf8_encode input) as [bytes|e] eqn:Hu.
    + rewrite (process_prompt_Some _ _ _ _ _ Hget Hu).
      apply utf8_encode_length in Hu.
      destruct (Z.gtb_spec (len bytes) MAX_INPUT_SIZE_BYTES) as [_|Hle];
        [by eexists|].
      unfold len, MAX_INPUT_SIZE_BYTES in *. lia.
    + rewrite (process_prompt_unencodable _ _ _ _ _ Hget Hu). by eexists.
  - intros Hascii. apply utf8_encode_ascii in Hascii as Hu.
    rewrite (process_prompt_Some _ _ _ _ _ Hget Hu).
    unfold MAX_INPUT_SIZE_BYTES.
    destruct (decide (102400 < len input)%Z) as [Hlen|Hlen];
      destruct (Z.gtb_spec (len input) 102400) as [Hgt|Hle]; try lia; [done|].
    destruct (has_arguments cmd); by eexists.
Qed.

Lemma size_limit_in_characters_witness :
  ∃ out, process_prompt sample_registry (lit "use") (Some (lit "short")) = Ok out.
Proof.
  assert (get (lit "use") sample_registry = Some use_cmd) as Hget
    by (vm_compute; reflexivity).
  assert (Forall (fun c => c < 128) (lit "short")) as Hascii
    by (repeat constructor).
  pose proof (proj2 (proj2 (size_limit_in_characters sample_registry (lit "use")
                              use_cmd (lit "short") Hget)) Hascii) as H.
  destruct (decide (102400 < len (lit "short"))%Z) as [Hlen|_]; [|exact H].
  exfalso. vm_compute in Hlen. discriminate Hlen.
Defined.

End SizeInCharacters.

(** ** loader.py: the order in which the directory lists its files *)

Section ListingOrderLemmas.
Import Loader LoaderSpec.

(** The directory enters the parse of a file through the working directory
    only. *)
Lemma parse_command_file_cwd (self : CommandLoader) (fs fs' : Directory)
    (e : DirEntry) :
  cwd fs = cwd fs' → parse_command_file self fs e = parse_command_file self fs' e.
Proof.
  intros H. unfold parse_command_file, parse_body. by rewrite H.
Qed.

Lemma parsed_files_Permutation (self : CommandLoader) (fs fs' : Directory) :
  cwd fs = cwd fs' → entries fs ≡ₚ entries fs' →
  parsed_files self fs ≡ₚ parsed_files self fs'.
Proof.
  intros Hc He. unfold parsed_files, discover_commands. rewrite He.
  assert (∀ l, omap (parsed self fs) l = omap (parsed self fs') l) as ->; [|done].
  intros l. induction l as [|e l IH]; [done|].
  rewrite !omap_cons_unfold, IH. unfold parsed.
  by rewrite (parse_command_file_cwd self fs fs' e Hc).
Qed.

(** With names that differ, the dictionary holds the same under every
    order of the records. *)
Lemma foldl_insert_Permutation (l l' : list CommandDefinition) :
  NoDup (name <$> l) → l ≡ₚ l' →
  foldl (fun m d => <[name d := d]> m) (∅ : gmap (list N) CommandDefinition) l
  = foldl (fun m d => <[name d := d]> m) ∅ l'.
Proof.
  intros Hnd Hp. apply map_eq. intros k. rewrite !lookup_foldl_insert.
  assert (NoDup (name <$> l')) as Hnd' by by rewrite <- Hp.
  destruct (decide (k ∈ name <$> l)) as [Hk|Hk].
  - apply list_elem_of_fmap in Hk as (d & -> & Hd).
    rewrite (last_filter_NoDup l d Hnd Hd).
    rewrite (last_filter_NoDup l' d Hnd'); [done|by rewrite <- Hp].
  - rewrite (filter_name_nil l k Hk).
    rewrite (filter_name_nil l' k); [done|by rewrite <- Hp].
Qed.

End ListingOrderLemmas.

Section ListingOrderProperties.
Import Loader LoaderSpec Samples.

(** X25.  The order in which the file system lists the directory does not
    matter as long as no two files that parse share a command name:
    [load_all_commands] then returns the same dictionary for every order of
    the entries. *)
Theorem load_all_commands_order_independent (self : CommandLoader)
    (fs fs' : Directory) :
  cwd fs = cwd fs' →
  entries fs ≡ₚ entries fs' →
  NoDup (name <$> parsed_files self fs) →
  load_all_commands self fs = load_all_commands self fs'.
Proof.
  intros Hc He Hnd. rewrite !load_all_commands_foldl. f_equal.
  apply foldl_insert_Permutation; [done|].
  by apply parsed_files_Permutation.
Qed.

Lemma load_all_commands_order_independent_witness :
  load_all_commands sample_loader sample_directory
  = load_all_commands sample_loader
      {| cwd := cwd sample_directory;
         entries := reverse (entries sample_directory) |}.
Proof.
  apply load_all_commands_order_independent.
  - reflexivity.
  - cbn [entries]. by rewrite reverse_Permutation.
  - apply sample_directory_names_distinct.
Defined.

End ListingOrderProperties.
